(** * WrapGPT: the conversation model of [ams/ai.py]

    A shallow embedding of the value types ([Message], [Usage], [Response]),
    the request parameter bundle ([ChatCompletionParams]) and the branching
    conversation tree ([ChatEntry], [Chat]) of [src/ams/ai.py], followed by
    the properties of the specification that were checked against it.

    Python objects have identity and are mutated in place, so the tree is
    modelled over an explicit object store: three arenas (entries, responses,
    messages) indexed by address.  An object reference is an address, the
    identity comparison of two entries is the comparison of their addresses,
    and allocating an object appends it to its arena. *)

From Stdlib Require Import ZArith String SpecFloat Lia.
From stdpp Require Import base option list.

Local Open Scope string_scope.
Local Open Scope list_scope.

(** ** Outcomes of a call *)

(** The exceptions the module can raise.  [Dangling] and [Diverges] are not
    Python exceptions: the first marks an address with no object behind it
    (which no Python reference can be), the second a parent chain that does
    not reach [None] within the size of the store (where the [while] loop of
    [ChatEntry.path] would not stop). *)
Inductive exn :=
| TypeError | ValueError | IndexError | AttributeError | KeyError
| Dangling | Diverges.

Inductive result (A : Type) :=
| Ok (a : A)
| Raise (e : exn).
Arguments Ok {A} a.
Arguments Raise {A} e.

Definition bind {A B} (m : result A) (k : A -> result B) : result B :=
  match m with
  | Ok a => k a
  | Raise e => Raise e
  end.

Notation "'let*' x ':=' m 'in' k" := (bind m (fun x => k))
  (at level 10, x name, m at level 100, k at level 200).
Notation "'let*' ' pat ':=' m 'in' k" :=
  (bind m (fun x => match x with pat => k end))
  (at level 10, pat pattern, m at level 100, k at level 200).

(** ** Python values *)

Abbreviation addr := nat.

(** Classes of the objects a value can refer to, as far as [isinstance]
    distinguishes them in this module. *)
Inductive pyclass := CMessage | CPartialMessage | CTokenSet | CResponse.

(** Dynamically typed values: what a JSON payload or a keyword argument can
    hold.  Floats are IEEE binary64 values in the Standard Library's
    specification format; a dict with string keys is an association list in
    insertion order, looked up by its first matching key. *)
#[warnings="-register-all"]
Inductive pyval :=
| VNone
| VBool (b : bool)
| VInt (z : Z)
| VFloat (f : spec_float)
| VStr (s : string)
| VList (l : list pyval)
| VDict (d : list (string * pyval))
| VObj (c : pyclass) (a : addr).

Definition pydict := list (string * pyval).

(** [bool(v)]: the truth value Python's [if v] and [v and ...] test. *)
Definition truthy (v : pyval) : bool :=
  match v with
  | VNone => false
  | VBool b => b
  | VInt z => negb (z =? 0)%Z
  | VFloat f => negb (SFeqb f (S754_zero false))
  | VStr s => negb (String.eqb s "")
  | VList l => match l with [] => false | _ => true end
  | VDict d => match d with [] => false | _ => true end
  | VObj _ _ => true
  end.

(** [isinstance(v, str)], [isinstance(v, int)] (where [bool] is a subclass of
    [int]), [isinstance(v, float)], [isinstance(v, list)],
    [isinstance(v, dict)]. *)
Definition is_str (v : pyval) : bool := match v with VStr _ => true | _ => false end.
Definition is_int (v : pyval) : bool :=
  match v with VInt _ | VBool _ => true | _ => false end.
Definition is_float (v : pyval) : bool := match v with VFloat _ => true | _ => false end.
Definition is_list (v : pyval) : bool := match v with VList _ => true | _ => false end.
Definition is_dict (v : pyval) : bool := match v with VDict _ => true | _ => false end.
Definition is_bool (v : pyval) : bool := match v with VBool _ => true | _ => false end.

(** [isinstance(v, Message)]: [PartialMessage] derives from [Message]. *)
Definition is_Message (v : pyval) : bool :=
  match v with VObj (CMessage | CPartialMessage) _ => true | _ => false end.
Definition is_TokenSet (v : pyval) : bool :=
  match v with VObj CTokenSet _ => true | _ => false end.

(** [v == 0] for a value compared with the integer zero. *)
Definition py_is_zero (v : pyval) : bool :=
  match v with
  | VInt z => (z =? 0)%Z
  | VBool b => negb b
  | VFloat f => SFeqb f (S754_zero false)
  | _ => false
  end.

(** [d.get(k)] and [k in d]. *)
Fixpoint dict_get (d : pydict) (k : string) : option pyval :=
  match d with
  | [] => None
  | (k', v) :: d' => if String.eqb k' k then Some v else dict_get d' k
  end.

Definition dict_has (d : pydict) (k : string) : bool :=
  match dict_get d k with Some _ => true | None => false end.

(** [d[k]] *)
Definition dict_item (d : pydict) (k : string) : result pyval :=
  match dict_get d k with
  | Some v => Ok v
  | None => Raise KeyError
  end.

(** ** Message *)

Definition DEFAULT_ID : string := "00000000-0000-0000-0000-000000000000".
Definition DEFAULT_TIME : pyval := VInt 0.

Module Message.

(** The setters of [role], [content] and [id] accept a [str] only and the
    setter of [created] an [int] only, so the first three are strings and
    the last is the integer (or boolean) value that was assigned. *)
Record t := mk {
  role : string;
  content : string;
  id : string;
  created : pyval
}.

(** [Message(role, content, id, created)]: the four property setters in
    the order [__init__] calls them, each raising [TypeError] on a value of
    the wrong type. *)
Definition __init__ (role content id created : pyval) : result t :=
  match role with
  | VStr r =>
      match content with
      | VStr c =>
          match id with
          | VStr i => if is_int created then Ok (mk r c i created) else Raise TypeError
          | _ => Raise TypeError
          end
      | _ => Raise TypeError
      end
  | _ => Raise TypeError
  end.

Definition Default : t := mk "" "" DEFAULT_ID (VInt 0).

Definition isDefault (self : t) : bool :=
  String.eqb (role self) "" && String.eqb (content self) ""
  && String.eqb (id self) DEFAULT_ID && py_is_zero (created self).

Definition toApiMessage (self : t) : pydict :=
  [("role", VStr (role self)); ("content", VStr (content self))].

Definition set_content (c : string) (self : t) : t :=
  mk (role self) c (id self) (created self).
Definition set_role (r : string) (self : t) : t :=
  mk r (content self) (id self) (created self).

Definition FromApiMessage (apiMessage : pydict) : result (option t) :=
  if negb (dict_has apiMessage "role") || negb (dict_has apiMessage "content")
  then Ok None
  else
    let* role := dict_item apiMessage "role" in
    let* content := dict_item apiMessage "content" in
    if negb (is_str role) || negb (is_str content) then Ok None
    else
      let* m := __init__ role content (VStr DEFAULT_ID) DEFAULT_TIME in
      Ok (Some m).

Definition FromApiResponse (apiResponse : pydict) : result (option t) :=
  if negb (dict_has apiResponse "choices") || negb (dict_has apiResponse "id")
     || negb (dict_has apiResponse "created")
  then Ok None
  else
    let* choices := dict_item apiResponse "choices" in
    let* id := dict_item apiResponse "id" in
    let* created := dict_item apiResponse "created" in
    if negb (is_str id) || negb (is_list choices) || negb (is_int created)
    then Ok None
    else
      match choices with
      | VList (VDict choice :: _) =>
          if negb (dict_has choice "message") && negb (dict_has choice "delta")
          then Ok None
          else
            let isDelta := dict_has choice "delta" in
            let* message := (if negb isDelta then dict_item choice "message"
                             else dict_item choice "delta") in
            match message with
            | VDict message =>
                if negb (dict_has message "content") then Ok None
                else if negb isDelta && negb (dict_has message "role")
                then Ok None
                else
                  let* role := (if negb isDelta then dict_item message "role"
                                else Ok (VStr "assistant")) in
                  let* content := dict_item message "content" in
                  let* m := __init__ role content id created in
                  Ok (Some m)
            | _ => Ok None
            end
      | _ => Ok None
      end.

End Message.

(** ** PartialMessage *)

(** A fragment of a streamed message: a message with the links of the
    fragment list.  Fragments refer to each other and [prev._next] is
    assigned when a fragment is appended, so they live in an arena of their
    own. *)
Record PartialObj := mkPartial {
  pm_message : Message.t;
  _prev : option addr;
  _next : option addr;
  _first : addr;
  _idx : nat
}.

Module PartialMessage.

Definition set_next (n : option addr) (p : PartialObj) : PartialObj :=
  mkPartial (pm_message p) (_prev p) n (_first p) (_idx p).

Definition __init__ (role content id created : pyval) (prev : option addr)
    (h : list PartialObj) : result (addr * list PartialObj) :=
  let* m := Message.__init__ role content id created in
  let self := length h in
  match prev with
  | None => Ok (self, h ++ [mkPartial m None None self 0])
  | Some p =>
      match h !! p with
      | None => Raise Dangling
      | Some po =>
          Ok (self,
              <[p := set_next (Some self) po]>
                (h ++ [mkPartial m (Some p) None (_first po) (_idx po + 1)]))
      end
  end.

(** The [while partial is not None] loop of [toMessage]. *)
Fixpoint concat_from (fuel : nat) (h : list PartialObj)
    (partial : option addr) (content : string) : result string :=
  match partial with
  | None => Ok content
  | Some a =>
      match fuel with
      | 0 => Raise Diverges
      | S fuel' =>
          match h !! a with
          | None => Raise Dangling
          | Some po =>
              concat_from fuel' h (_next po)
                (content ++ Message.content (pm_message po))
          end
      end
  end.

Definition toMessage (self : addr) (h : list PartialObj) : result Message.t :=
  match h !! self with
  | None => Raise Dangling
  | Some po =>
      let* content := concat_from (length h) h (Some (_first po)) "" in
      Ok (Message.mk (Message.role (pm_message po)) content
            (Message.id (pm_message po)) (Message.created (pm_message po)))
  end.

Definition toApiMessage (self : addr) (h : list PartialObj) : result pydict :=
  match h !! self with
  | None => Raise Dangling
  | Some po =>
      let* m := toMessage self h in
      Ok [("role", VStr (Message.role (pm_message po)));
          ("content", VStr (Message.content m))]
  end.

Definition FromApiResponse (apiResponse : pydict) (previous : option addr)
    (h : list PartialObj) : result (option addr * list PartialObj) :=
  if negb (dict_has apiResponse "choices") || negb (dict_has apiResponse "id")
     || negb (dict_has apiResponse "created")
  then Ok (None, h)
  else
    let* id := dict_item apiResponse "id" in
    let* choices := dict_item apiResponse "choices" in
    let* created := dict_item apiResponse "created" in
    if negb (is_str id) || negb (is_list choices) || negb (is_int created)
    then Ok (None, h)
    else
      match choices with
      | VList (VDict choice :: _) =>
          if negb (dict_has choice "delta") then Ok (None, h)
          else
            let* message := dict_item choice "delta" in
            match message with
            | VDict message =>
                if negb (dict_has message "content") then Ok (None, h)
                else
                  let* content := dict_item message "content" in
                  let* '(self, h) :=
                    __init__ (VStr "assistant") content id created previous h in
                  Ok (Some self, h)
            | _ => Ok (None, h)
            end
      | _ => Ok (None, h)
      end.

(** The [for response in apiResponses] loop of [FromApiResponses].  The
    responses are dicts; the assignment [prev._next = message] repeats what
    the constructor has already done. *)
Fixpoint fold_responses (apiResponses : list pydict)
    (first prev : option addr) (h : list PartialObj)
    : result (option addr * list PartialObj) :=
  match apiResponses with
  | [] => Ok (first, h)
  | response :: rest =>
      let* '(message, h) := FromApiResponse response prev h in
      match message with
      | None => Ok (None, h)
      | Some msg =>
          let first := match first with None => Some msg | _ => first end in
          let* h :=
            match prev with
            | None => Ok h
            | Some p =>
                match h !! p with
                | None => Raise Dangling
                | Some po => Ok (<[p := set_next (Some msg) po]> h)
                end
            end in
          fold_responses rest first (Some msg) h
      end
  end.

Definition FromApiResponses (apiResponses : list pydict)
    (h : list PartialObj) : result (option addr * list PartialObj) :=
  match apiResponses with
  | [] => Ok (None, h)
  | _ => fold_responses apiResponses None None h
  end.

End PartialMessage.

(** [messageFromApiResponse]: a dict is parsed as a message, a list of
    dicts as the fragments of a streamed one. *)
Definition messageFromApiResponse
    (apiResponseOrResponses : pydict + list pydict) (h : list PartialObj)
    : result (option (Message.t + addr) * list PartialObj) :=
  match apiResponseOrResponses with
  | inl apiResponse =>
      let* m := Message.FromApiResponse apiResponse in
      Ok (inl <$> m, h)
  | inr apiResponses =>
      let* '(p, h) := PartialMessage.FromApiResponses apiResponses h in
      Ok (inr <$> p, h)
  end.

(** ** Usage *)

Module Usage.

Record t := mk {
  prompt_tokens : pyval;
  completion_tokens : pyval;
  total_tokens : pyval
}.

(** The dataclass constructor with its [__post_init__] checks. *)
Definition __init__ (p c n : pyval) : result t :=
  if negb (is_int p) then Raise TypeError
  else if negb (is_int c) then Raise TypeError
  else if negb (is_int n) then Raise TypeError
  else Ok (mk p c n).

(** [Usage()] *)
Definition zero : t := mk (VInt 0) (VInt 0) (VInt 0).

Definition isDefault (self : t) : bool :=
  py_is_zero (prompt_tokens self) && py_is_zero (completion_tokens self)
  && py_is_zero (total_tokens self).

Definition toApiUsage (self : t) : pydict :=
  [("prompt_tokens", prompt_tokens self);
   ("completion_tokens", completion_tokens self);
   ("total_tokens", total_tokens self)].

Definition FromApiResponse (apiResponse : pydict) : result (option t) :=
  match dict_get apiResponse "prompt_tokens",
        dict_get apiResponse "completion_tokens",
        dict_get apiResponse "total_tokens" with
  | Some p, Some c, Some n =>
      if negb (is_int p) || negb (is_int c) || negb (is_int n) then Ok None
      else let* u := __init__ p c n in Ok (Some u)
  | _, _, _ => Ok None
  end.

End Usage.

(** ** Response *)

Module Response.

(** [C] is the representation of a choice: a message held by value where a
    response is parsed from a payload (every choice is then a fresh
    object), the address of a message where responses live in the store. *)
Record t (C : Type) := mk {
  choices : list C;
  created : pyval;
  id : string;
  model : string;
  object_ : string;
  usage : Usage.t
}.
Arguments mk {C}.
Arguments choices {C}.
Arguments created {C}.
Arguments id {C}.
Arguments model {C}.
Arguments object_ {C}.
Arguments usage {C}.

Definition Default {C} : t C := mk [] (VInt 0) "" "" "" Usage.zero.

Definition isDefault {C} (self : t C) : bool :=
  match choices self with [] => true | _ => false end
  && py_is_zero (created self)
  && String.eqb (id self) "" && String.eqb (model self) ""
  && String.eqb (object_ self) "" && Usage.isDefault (usage self).

Definition set_choices {C} (cs : list C) (self : t C) : t C :=
  mk cs (created self) (id self) (model self) (object_ self) (usage self).

(** [toApiResponse] of a response whose choices are plain messages. *)
Definition toApiResponse (self : t Message.t) : pydict :=
  let ret :=
    [("choices", VList (map (fun msg => VDict (Message.toApiMessage msg))
                            (choices self)));
     ("created", created self);
     ("id", VStr (id self));
     ("model", VStr (model self));
     ("object", VStr (object_ self))] in
  if negb (Usage.isDefault (usage self))
  then ret ++ [("usage", VDict (Usage.toApiUsage (usage self)))]
  else ret.

(** The [for choice in choicesApi] loop of [parseResponse]: every round
    parses the whole response again ([messageFromApiResponse(apiResponse)],
    which for a dict is [Message.FromApiResponse]) and so reads its first
    choice. *)
Fixpoint parse_choices (choicesApi : list pyval) (apiResponse : pydict)
    : result (option (list Message.t)) :=
  match choicesApi with
  | [] => Ok (Some [])
  | _ :: rest =>
      let* message := Message.FromApiResponse apiResponse in
      match message with
      | None => Ok None
      | Some m =>
          let* more := parse_choices rest apiResponse in
          Ok (cons m <$> more)
      end
  end.

(** [parseResponse] where [apiResponse] is a dict. *)
Definition parseResponse (apiResponse : pydict)
    : result (option (t Message.t)) :=
  if negb (dict_has apiResponse "choices") || negb (dict_has apiResponse "id")
     || negb (dict_has apiResponse "created")
     || negb (dict_has apiResponse "model")
     || negb (dict_has apiResponse "object")
  then Ok None
  else
    let* choicesApi := dict_item apiResponse "choices" in
    let* idApi := dict_item apiResponse "id" in
    let* createdApi := dict_item apiResponse "created" in
    let* modelApi := dict_item apiResponse "model" in
    let* objectApi := dict_item apiResponse "object" in
    let usageApi := default VNone (dict_get apiResponse "usage") in
    match choicesApi, idApi, modelApi, objectApi with
    | VList choicesApi, VStr idApi, VStr modelApi, VStr objectApi =>
        if negb (is_int createdApi) then Ok None
        else if truthy usageApi && negb (is_dict usageApi) then Ok None
        else
          let* choices := parse_choices choicesApi apiResponse in
          match choices with
          | None => Ok None
          | Some choices =>
              let* usage :=
                (if truthy usageApi then
                   match usageApi with
                   | VDict u =>
                       let* parsed := Usage.FromApiResponse u in
                       Ok (default Usage.zero parsed)
                   | _ => Raise TypeError
                   end
                 else Ok Usage.zero) in
              Ok (Some (mk choices createdApi idApi modelApi objectApi usage))
          end
    | _, _, _, _ => Ok None
    end.

(** [x in l] for a string [x] and a list [l]. *)
Definition list_has_str (l : list pyval) (x : string) : bool :=
  existsb (fun v => match v with VStr s => String.eqb s x | _ => false end) l.

(** [Response.FromApiResponse].  [parseResponse] reads the enclosing
    [apiResponse], not its parameter, so for a list it tests the list for
    the five key strings and, if it has them all, subscripts the list with
    a string. *)
Definition FromApiResponse (apiResponse : pyval)
    : result (option (t Message.t)) :=
  match apiResponse with
  | VDict d => parseResponse d
  | VList [] => Ok None
  | VList l =>
      if negb (list_has_str l "choices") || negb (list_has_str l "id")
         || negb (list_has_str l "created") || negb (list_has_str l "model")
         || negb (list_has_str l "object")
      then Ok None
      else Raise TypeError
  | _ => Ok None
  end.

(** [Response.FromApiResponses] on a list of dicts: one chunk is parsed as
    a whole response; of several, the first gives the response and all of
    them together its single choice.  [toMessage] of a plain [Message] is
    the message itself. *)
Definition FromApiResponses (apiResponses : list pydict)
    (h : list PartialObj) : result (option (t Message.t) * list PartialObj) :=
  match apiResponses with
  | [] => Ok (None, h)
  | [apiResponse] =>
      let* resp := FromApiResponse (VDict apiResponse) in
      Ok (resp, h)
  | apiResponse :: _ =>
      let* resp := FromApiResponse (VDict apiResponse) in
      match resp with
      | None => Ok (None, h)
      | Some resp =>
          let* '(message, h) := messageFromApiResponse (inr apiResponses) h in
          match message with
          | None => Ok (None, h)
          | Some (inl m) => Ok (Some (set_choices [m] resp), h)
          | Some (inr p) =>
              let* m := PartialMessage.toMessage p h in
              Ok (Some (set_choices [m] resp), h)
          end
      end
  end.

End Response.

(** ** ChatCompletionParams *)

(** The float constants the range checks compare with, in binary64. *)
Definition SF_zero : spec_float := S754_zero false.
Definition SF_one : spec_float := S754_finite false 4503599627370496 (-52).
Definition SF_two : spec_float := S754_finite false 4503599627370496 (-51).
Definition SF_minus_two : spec_float := S754_finite true 4503599627370496 (-51).
Definition SF_three : spec_float := S754_finite false 6755399441055744 (-51).

(** The integer an [int] (or [bool]) value stands for. *)
Definition int_val (v : pyval) : Z :=
  match v with
  | VInt z => z
  | VBool b => Z.b2z b
  | _ => 0
  end.

(** ** TokenSet *)

Module TokenSet.

(** A token set as [__post_init__] lets it through: the tokens are integers
    (booleans among them) and the bias is a float. *)
Record t := mk {
  tokens : list pyval;
  bias : spec_float
}.

Definition __init__ (tokens bias : pyval) : result t :=
  match tokens with
  | VList l =>
      if negb (forallb is_int l) then Raise TypeError
      else match bias with
           | VFloat f => Ok (mk l f)
           | _ => Raise TypeError
           end
  | _ => Raise TypeError
  end.

End TokenSet.

(** [d[k] = v]: the value of a key the dict has is replaced where it
    stands, a new key goes to the end. *)
Fixpoint dict_set (d : pydict) (k : string) (v : pyval) : pydict :=
  match d with
  | [] => [(k, v)]
  | (k', v') :: d' =>
      if String.eqb k' k then (k', v) :: d' else (k', v') :: dict_set d' k v
  end.

(** A dict with integer keys and float values, as [toDict] builds for
    [logit_bias].  [True] and [False] are the keys [1] and [0]; a key the
    dict has keeps its place and the object first used for it. *)
Definition bias_dict := list (pyval * spec_float).

Fixpoint bias_set (lbd : bias_dict) (t : pyval) (b : spec_float) : bias_dict :=
  match lbd with
  | [] => [(t, b)]
  | (k, v) :: rest =>
      if (int_val k =? int_val t)%Z then (k, b) :: rest
      else (k, v) :: bias_set rest t b
  end.

Fixpoint bias_get (lbd : bias_dict) (t : Z) : option spec_float :=
  match lbd with
  | [] => None
  | (k, v) :: rest => if (int_val k =? t)%Z then Some v else bias_get rest t
  end.

Module ChatCompletionParams.

Record t := mk {
  _apiKey : pyval;
  _model : pyval;
  _messages : pyval;
  _temperature : pyval;
  _max_tokens : pyval;
  _top_p : pyval;
  _n : pyval;
  _frequency_penalty : pyval;
  _presence_penalty : pyval;
  _stop : pyval;
  _stream : pyval;
  _logit_bias : pyval;
  _user : pyval
}.

(** The keyword arguments of [__init__]; an omitted argument holds its
    default ([None], [True] for [stream], the empty string for [apiKey]). *)
Record args := mkArgs {
  model : pyval;
  messages : pyval;
  temperature : pyval;
  max_tokens : pyval;
  top_p : pyval;
  n : pyval;
  frequency_penalty : pyval;
  presence_penalty : pyval;
  stop : pyval;
  stream : pyval;
  logit_bias : pyval;
  user : pyval;
  apiKey : pyval
}.

(** [not isinstance(v, float) or v < lo or v > hi] *)
Definition bad_float (v : pyval) (lo hi : spec_float) : bool :=
  match v with
  | VFloat f => SFltb f lo || SFltb hi f
  | _ => true
  end.

(** [not isinstance(v, int) or v < lo or v > hi] *)
Definition bad_int (v : pyval) (lo hi : Z) : bool :=
  if is_int v then (int_val v <? lo)%Z || (hi <? int_val v)%Z else true.

(** [not isinstance(v, list) or len(v) > 4] *)
Definition bad_stop (v : pyval) : bool :=
  match v with
  | VList l => Nat.ltb 4 (length l)
  | _ => true
  end.

(** [not isinstance(v, str) or len(v) > 256] *)
Definition bad_user (v : pyval) : bool :=
  match v with
  | VStr s => Nat.ltb 256 (String.length s)
  | _ => true
  end.

(** The property setters.  Each returns the object after the assignment
    or raises. *)
Definition set_apiKey (value : pyval) (self : t) : result t :=
  if negb (is_str value) then Raise TypeError
  else Ok (mk value (_model self) (_messages self) (_temperature self)
             (_max_tokens self) (_top_p self) (_n self)
             (_frequency_penalty self) (_presence_penalty self) (_stop self)
             (_stream self) (_logit_bias self) (_user self)).

Definition set_model (value : pyval) (self : t) : result t :=
  if negb (is_str value) then Raise TypeError
  else Ok (mk (_apiKey self) value (_messages self) (_temperature self)
             (_max_tokens self) (_top_p self) (_n self)
             (_frequency_penalty self) (_presence_penalty self) (_stop self)
             (_stream self) (_logit_bias self) (_user self)).

Definition set_messages (value : pyval) (self : t) : result t :=
  match value with
  | VList l =>
      if negb (forallb is_Message l) then Raise TypeError
      else Ok (mk (_apiKey self) (_model self) value (_temperature self)
                 (_max_tokens self) (_top_p self) (_n self)
                 (_frequency_penalty self) (_presence_penalty self)
                 (_stop self) (_stream self) (_logit_bias self) (_user self))
  | _ => Raise TypeError
  end.

Definition set_temperature (value : pyval) (self : t) : result t :=
  if truthy value && negb (is_float value) then Raise TypeError
  else Ok (mk (_apiKey self) (_model self) (_messages self) value
             (_max_tokens self) (_top_p self) (_n self)
             (_frequency_penalty self) (_presence_penalty self) (_stop self)
             (_stream self) (_logit_bias self) (_user self)).

Definition set_max_tokens (value : pyval) (self : t) : result t :=
  if truthy value && negb (is_int value) then Raise TypeError
  else Ok (mk (_apiKey self) (_model self) (_messages self)
             (_temperature self) value (_top_p self) (_n self)
             (_frequency_penalty self) (_presence_penalty self) (_stop self)
             (_stream self) (_logit_bias self) (_user self)).

Definition set_top_p (value : pyval) (self : t) : result t :=
  if truthy value && negb (is_float value) then Raise TypeError
  else Ok (mk (_apiKey self) (_model self) (_messages self)
             (_temperature self) (_max_tokens self) value (_n self)
             (_frequency_penalty self) (_presence_penalty self) (_stop self)
             (_stream self) (_logit_bias self) (_user self)).

Definition set_n (value : pyval) (self : t) : result t :=
  if truthy value && negb (is_int value) then Raise TypeError
  else Ok (mk (_apiKey self) (_model self) (_messages self)
             (_temperature self) (_max_tokens self) (_top_p self) value
             (_frequency_penalty self) (_presence_penalty self) (_stop self)
             (_stream self) (_logit_bias self) (_user self)).

Definition set_frequency_penalty (value : pyval) (self : t) : result t :=
  if truthy value && negb (is_float value) then Raise TypeError
  else Ok (mk (_apiKey self) (_model self) (_messages self)
             (_temperature self) (_max_tokens self) (_top_p self) (_n self)
             value (_presence_penalty self) (_stop self)
             (_stream self) (_logit_bias self) (_user self)).

Definition set_presence_penalty (value : pyval) (self : t) : result t :=
  if truthy value && negb (is_float value) then Raise TypeError
  else Ok (mk (_apiKey self) (_model self) (_messages self)
             (_temperature self) (_max_tokens self) (_top_p self) (_n self)
             (_frequency_penalty self) value (_stop self)
             (_stream self) (_logit_bias self) (_user self)).

Definition set_stop (value : pyval) (self : t) : result t :=
  if truthy value && negb (is_list value) then Raise TypeError
  else if truthy value
          && negb (match value with
                   | VList l => forallb is_str l
                   | _ => true
                   end)
  then Raise TypeError
  else Ok (mk (_apiKey self) (_model self) (_messages self)
             (_temperature self) (_max_tokens self) (_top_p self) (_n self)
             (_frequency_penalty self) (_presence_penalty self) value
             (_stream self) (_logit_bias self) (_user self)).

Definition set_stream (value : pyval) (self : t) : result t :=
  if negb (is_bool value) then Raise TypeError
  else Ok (mk (_apiKey self) (_model self) (_messages self)
             (_temperature self) (_max_tokens self) (_top_p self) (_n self)
             (_frequency_penalty self) (_presence_penalty self) (_stop self)
             value (_logit_bias self) (_user self)).

Definition set_user (value : pyval) (self : t) : result t :=
  if truthy value && negb (is_str value) then Raise TypeError
  else Ok (mk (_apiKey self) (_model self) (_messages self)
             (_temperature self) (_max_tokens self) (_top_p self) (_n self)
             (_frequency_penalty self) (_presence_penalty self) (_stop self)
             (_stream self) (_logit_bias self) value).

(** The object as [__init__] finds it: no attribute of its own yet.
    [__init__] assigns every one of them before it returns, so the values
    here (those of the class where it has them) are never read. *)
Definition unset : t :=
  mk VNone VNone VNone VNone VNone VNone VNone VNone VNone VNone
     (VBool true) VNone VNone.

Definition __init__ (a : args) : result t :=
  let messages := match messages a with VNone => VList [] | v => v end in
  if truthy (temperature a) && bad_float (temperature a) SF_zero SF_two
  then Raise ValueError
  else if truthy (max_tokens a) && negb (is_int (max_tokens a))
  then Raise TypeError
  else if truthy (top_p a) && bad_float (top_p a) SF_zero SF_one
  then Raise ValueError
  else if truthy (n a) && bad_int (n a) 1 10 then Raise ValueError
  else if truthy (frequency_penalty a)
          && bad_float (frequency_penalty a) SF_minus_two SF_two
  then Raise ValueError
  else if truthy (presence_penalty a)
          && bad_float (presence_penalty a) SF_minus_two SF_two
  then Raise ValueError
  else if truthy (stop a) && bad_stop (stop a) then Raise ValueError
  else if truthy (logit_bias a) && negb (is_list (logit_bias a))
  then Raise ValueError
  else if truthy (user a) && bad_user (user a) then Raise ValueError
  else if negb (is_str (apiKey a)) then Raise TypeError
  else
    let* self := set_apiKey (apiKey a) unset in
    let* self := set_model (model a) self in
    let* self := set_messages messages self in
    let* self := set_temperature (temperature a) self in
    let* self := set_max_tokens (max_tokens a) self in
    let* self := set_top_p (top_p a) self in
    let* self := set_n (n a) self in
    let* self := set_frequency_penalty (frequency_penalty a) self in
    let* self := set_presence_penalty (presence_penalty a) self in
    let* self := set_stop (stop a) self in
    let* self := set_stream (stream a) self in
    let self :=
      mk (_apiKey self) (_model self) (_messages self) (_temperature self)
         (_max_tokens self) (_top_p self) (_n self)
         (_frequency_penalty self) (_presence_penalty self) (_stop self)
         (_stream self) (logit_bias a) (_user self) in
    set_user (user a) self.

(** [ChatCompletionParams(model=m)] with every other argument omitted. *)
Definition only_model (m : pyval) : args :=
  mkArgs m VNone VNone VNone VNone VNone VNone VNone VNone (VBool true)
         VNone VNone (VStr "").

(** [ChatCompletionParams(model=m, temperature=t)] *)
Definition model_and_temperature (m t : pyval) : args :=
  mkArgs m VNone t VNone VNone VNone VNone VNone VNone (VBool true)
         VNone VNone (VStr "").

(** A float outside the interval from [lo] to [hi]. *)
Definition outside (lo hi : spec_float) (v : pyval) : Prop :=
  exists f, v = VFloat f /\ (SFltb f lo = true \/ SFltb hi f = true).

(** One of the sampling controls is outside its documented range:
    temperature in [0, 2], top_p in [0, 1], n in [1, 10] (zero, which the
    constructor takes for an omitted argument, set apart), the two
    penalties in [-2, 2], at most 4 stop sequences, a user of at most 256
    characters. *)
Definition out_of_range (a : args) : Prop :=
  outside SF_zero SF_two (temperature a)
  \/ outside SF_zero SF_one (top_p a)
  \/ (exists z, n a = VInt z /\ z <> 0%Z /\ (z < 1 \/ 10 < z)%Z)
  \/ outside SF_minus_two SF_two (frequency_penalty a)
  \/ outside SF_minus_two SF_two (presence_penalty a)
  \/ (exists l, stop a = VList l /\ 4 < length l)
  \/ (exists s, user a = VStr s /\ 256 < String.length s).

(** A value the constructor lets through as a float control bounded by
    [lo] and [hi]: a float that is neither below [lo] nor above [hi].  Both
    comparisons are false of a NaN. *)
Definition within (lo hi : spec_float) (v : pyval) : Prop :=
  exists f, v = VFloat f /\ SFltb f lo = false /\ SFltb hi f = false.

(** Every control of the object that is truthy is of its type and in its
    range. *)
Definition controls_in_range (self : t) : Prop :=
  (truthy (_temperature self) = true ->
   within SF_zero SF_two (_temperature self))
  /\ (truthy (_max_tokens self) = true -> is_int (_max_tokens self) = true)
  /\ (truthy (_top_p self) = true -> within SF_zero SF_one (_top_p self))
  /\ (truthy (_n self) = true ->
      is_int (_n self) = true /\ (1 <= int_val (_n self) <= 10)%Z)
  /\ (truthy (_frequency_penalty self) = true ->
      within SF_minus_two SF_two (_frequency_penalty self))
  /\ (truthy (_presence_penalty self) = true ->
      within SF_minus_two SF_two (_presence_penalty self))
  /\ (truthy (_stop self) = true ->
      exists l, _stop self = VList l /\ length l <= 4
                /\ forallb is_str l = true)
  /\ (truthy (_logit_bias self) = true -> is_list (_logit_bias self) = true)
  /\ (truthy (_user self) = true ->
      exists s, _user self = VStr s /\ String.length s <= 256).

(** The getter of [temperature]. *)
Definition temperature_getter (self : t) : pyval :=
  match _temperature self with
  | VNone => VFloat SF_one
  | v => v
  end.

Definition is_not_None (v : pyval) : bool :=
  match v with VNone => false | _ => true end.

Definition hasMaxTokens (self : t) : bool := is_not_None (_max_tokens self).
Definition hasTemperature (self : t) : bool := is_not_None (_temperature self).
Definition hasTopP (self : t) : bool := is_not_None (_top_p self).
Definition hasN (self : t) : bool := is_not_None (_n self).
Definition hasFrequencyPenalty (self : t) : bool :=
  is_not_None (_frequency_penalty self).
Definition hasPresencePenalty (self : t) : bool :=
  is_not_None (_presence_penalty self).
Definition hasStop (self : t) : bool := is_not_None (_stop self).
Definition hasLogitBias (self : t) : bool := is_not_None (_logit_bias self).
Definition hasUser (self : t) : bool := is_not_None (_user self).

Definition with_logit_bias (value : pyval) (self : t) : t :=
  mk (_apiKey self) (_model self) (_messages self) (_temperature self)
     (_max_tokens self) (_top_p self) (_n self) (_frequency_penalty self)
     (_presence_penalty self) (_stop self) (_stream self) value (_user self).

Definition setLogitBias (logit_bias : pyval) (self : t) : result t :=
  if truthy logit_bias
  then match logit_bias with
       | VList l =>
           if negb (forallb is_TokenSet l) then Raise TypeError
           else Ok (with_logit_bias logit_bias self)
       | _ => Raise TypeError
       end
  else Ok (with_logit_bias logit_bias self).

(** [m.toApiMessage()] for an element [m] of [_messages]: a message, a
    fragment of a streamed one, or an object without that method. *)
Definition api_message (m : pyval) (msgs : list Message.t)
    (parts : list PartialObj) : result pydict :=
  match m with
  | VObj CMessage a =>
      match msgs !! a with
      | Some msg => Ok (Message.toApiMessage msg)
      | None => Raise Dangling
      end
  | VObj CPartialMessage a => PartialMessage.toApiMessage a parts
  | _ => Raise AttributeError
  end.

Fixpoint api_message_list (l : list pyval) (msgs : list Message.t)
    (parts : list PartialObj) : result (list pyval) :=
  match l with
  | [] => Ok []
  | m :: rest =>
      let* d := api_message m msgs parts in
      let* ds := api_message_list rest msgs parts in
      Ok (VDict d :: ds)
  end.

(** [[m.toApiMessage() for m in self._messages]].  A number, [None] or an
    object of the module cannot be iterated; the elements of a string or
    the keys of a dict are strings, which have no [toApiMessage]. *)
Definition api_messages (messages : pyval) (msgs : list Message.t)
    (parts : list PartialObj) : result (list pyval) :=
  match messages with
  | VList l => api_message_list l msgs parts
  | VStr s => if String.eqb s "" then Ok [] else Raise AttributeError
  | VDict d => match d with [] => Ok [] | _ => Raise AttributeError end
  | _ => Raise TypeError
  end.

(** [for t in tset.tokens: lbd[t] = tset.bias] *)
Definition bias_set_all (lbd : bias_dict) (tset : TokenSet.t) : bias_dict :=
  fold_left (fun lbd t => bias_set lbd t (TokenSet.bias tset))
    (TokenSet.tokens tset) lbd.

(** [for tset in l], over the elements of a list. *)
Fixpoint bias_of_list (l : list pyval) (tsets : list TokenSet.t)
    (lbd : bias_dict) : result bias_dict :=
  match l with
  | [] => Ok lbd
  | VObj CTokenSet a :: rest =>
      match tsets !! a with
      | Some tset => bias_of_list rest tsets (bias_set_all lbd tset)
      | None => Raise Dangling
      end
  | _ :: _ => Raise AttributeError
  end.

(** The loop of [toDict] over a truthy [_logit_bias]. *)
Definition bias_of (logit_bias : pyval) (tsets : list TokenSet.t)
    : result bias_dict :=
  match logit_bias with
  | VList l => bias_of_list l tsets []
  | VStr _ | VDict _ => Raise AttributeError
  | _ => Raise TypeError
  end.

(** [if v: d[k] = v] *)
Definition put_if (k : string) (v : pyval) (d : pydict) : pydict :=
  if truthy v then dict_set d k v else d.

(** [toDict].  The entry for [logit_bias], the last one of the dict when
    it is there, has integer keys and is returned beside the others. *)
Definition toDict (self : t) (msgs : list Message.t)
    (parts : list PartialObj) (tsets : list TokenSet.t)
    : result (pydict * option bias_dict) :=
  let d := [] in
  let* apiMessages := api_messages (_messages self) msgs parts in
  let d := dict_set d "model" (_model self) in
  let d := dict_set d "messages" (VList apiMessages) in
  let d := put_if "temperature" (_temperature self) d in
  let d := put_if "max_tokens" (_max_tokens self) d in
  let d := put_if "top_p" (_top_p self) d in
  let d := put_if "n" (_n self) d in
  let d := put_if "frequency_penalty" (_frequency_penalty self) d in
  let d := put_if "presence_penalty" (_presence_penalty self) d in
  let d := put_if "stop" (_stop self) d in
  let d := put_if "stream" (_stream self) d in
  if truthy (_logit_bias self)
  then let* lbd := bias_of (_logit_bias self) tsets in Ok (d, Some lbd)
  else Ok (d, None).

Section Copy.

(** [v.copy()] for an object [v] of a class that has the method:
    [Message.copy] is [copy.deepcopy], which allocates in the heap. *)
Context {H : Type}.
Variable copy_method : pyval -> H -> result (pyval * H).

(** [v.copy()] for any value: a list and a dict have a [copy] of their
    own, which returns an equal one; a token set, a response and the other
    values have none. *)
Definition copy_value (v : pyval) (h : H) : result (pyval * H) :=
  match v with
  | VObj (CMessage | CPartialMessage) _ => copy_method v h
  | VList _ | VDict _ => Ok (v, h)
  | _ => Raise AttributeError
  end.

(** [[m.copy() for m in l]] over the elements of a list. *)

Fixpoint copy_list (l : list pyval) (h : H) : result (list pyval * H) :=
  match l with
  | [] => Ok ([], h)
  | m :: rest =>
      let* '(m', h) := copy_value m h in
      let* '(rest', h) := copy_list rest h in
      Ok (m' :: rest', h)
  end.

(** [copy]: the constructor runs again on the attributes of [self]. *)
Definition copy (self : t) (h : H) : result (t * H) :=
  let* '(messages, h) :=
    (if truthy (_messages self)
     then match _messages self with
          | VList l => let* '(l', h) := copy_list l h in Ok (VList l', h)
          | VStr _ | VDict _ => Raise AttributeError
          | _ => Raise TypeError
          end
     else Ok (VNone, h)) in
  let* '(logit_bias, h) :=
    (if truthy (_logit_bias self)
     then copy_value (_logit_bias self) h
     else Ok (VNone, h)) in
  let* self' :=
    __init__ (mkArgs (_model self) messages (_temperature self)
                (_max_tokens self) (_top_p self) (_n self)
                (_frequency_penalty self) (_presence_penalty self)
                (_stop self) (_stream self) logit_bias (_user self)
                (_apiKey self)) in
  Ok (self', h).

End Copy.

End ChatCompletionParams.

(** ** getModels *)

(** [m['id']] for an element of the listing. *)
Definition model_id (m : pyval) : result pyval :=
  match m with
  | VDict d => dict_item d "id"
  | _ => Raise TypeError
  end.

Fixpoint model_ids (models : list pyval) : result (list pyval) :=
  match models with
  | [] => Ok []
  | m :: rest =>
      let* i := model_id m in
      let* ids := model_ids rest in
      Ok (i :: ids)
  end.

(** [any([m.startswith(p) for p in filterPrefixes])]: the list is built
    before [any] looks at it, so [startswith] is called once for every
    prefix, on a string. *)
Definition starts_with_any (m : pyval) (filterPrefixes : list string)
    : result bool :=
  match m with
  | VStr s => Ok (existsb (fun p => String.prefix p s) filterPrefixes)
  | _ => match filterPrefixes with [] => Ok false | _ => Raise AttributeError end
  end.

Fixpoint filter_models (models : list pyval) (filterPrefixes : list string)
    : result (list pyval) :=
  match models with
  | [] => Ok []
  | m :: rest =>
      let* keep := starts_with_any m filterPrefixes in
      let* rest' := filter_models rest filterPrefixes in
      Ok (if keep then m :: rest' else rest')
  end.

(** [getModels], given the outcome of [openai.Engine.list()]: the result
    or the exception.  Only that call stands inside the [try]. *)
Definition getModels (filterPrefixes : option (list string))
    (listing : result pyval) : result (list pyval) :=
  let filterPrefixes := default ["gpt"] filterPrefixes in
  match listing with
  | Raise _ => Ok []
  | Ok engineList =>
      let* models :=
        match engineList with
        | VDict d => dict_item d "data"
        | _ => Raise TypeError
        end in
      let* models :=
        match models with
        | VList l => model_ids l
        | VStr s => if String.eqb s "" then Ok [] else Raise TypeError
        | VDict d => match d with [] => Ok [] | _ => Raise TypeError end
        | _ => Raise TypeError
        end in
      match filterPrefixes with
      | [] => Ok models
      | _ => filter_models models filterPrefixes
      end
  end.

(** ** The object store *)

(** A [ChatEntry] object: the parent reference, the list of child
    references in insertion order, and the references to its prompt and to
    its response. *)
Record EntryObj := mkEntry {
  _parent : option addr;
  _children : list addr;
  _prompt : addr;
  _response : addr
}.

Record Store := mkStore {
  entries : list EntryObj;
  responses : list (Response.t addr);
  messages : list Message.t
}.

Definition deref {A} (h : list A) (a : addr) : result A :=
  match h !! a with
  | Some x => Ok x
  | None => Raise Dangling
  end.

Definition with_entries (es : list EntryObj) (st : Store) : Store :=
  mkStore es (responses st) (messages st).
Definition with_responses (rs : list (Response.t addr)) (st : Store) : Store :=
  mkStore (entries st) rs (messages st).
Definition with_messages (ms : list Message.t) (st : Store) : Store :=
  mkStore (entries st) (responses st) ms.

(** [Message(...)] and [Response(...)] evaluated by a caller: a new object at
    the next free address. *)
Definition new_message (m : Message.t) (st : Store) : addr * Store :=
  (length (messages st), with_messages (messages st ++ [m]) st).
Definition new_response (r : Response.t addr) (st : Store) : addr * Store :=
  (length (responses st), with_responses (responses st ++ [r]) st).

(** A default argument is evaluated once, when its [def] is executed, and
    every call that omits the argument receives that one object.  The module
    has three such [Response.Default()] objects, created in this order while
    the module is imported. *)
Definition default_response_ChatEntry : addr := 0.
Definition default_response_addSibling : addr := 1.
Definition default_response_addDescendant : addr := 2.

(** The store once the module is imported. *)
Definition store_at_import : Store :=
  mkStore [] [Response.Default; Response.Default; Response.Default] [].

(** [x in l] and [l.index(x)] on lists of references (compared by
    identity, no class of the module defines [__eq__] on entries). *)
Fixpoint list_index (x : addr) (l : list addr) : option nat :=
  match l with
  | [] => None
  | y :: l' => if Nat.eqb y x then Some 0 else S <$> list_index x l'
  end.

Definition list_mem (x : addr) (l : list addr) : bool :=
  match list_index x l with Some _ => true | None => false end.

(** ** ChatEntry *)

Module ChatEntry.

Definition append_child (c : addr) (e : EntryObj) : EntryObj :=
  mkEntry (_parent e) (_children e ++ [c]) (_prompt e) (_response e).
Definition clear_children (e : EntryObj) : EntryObj :=
  mkEntry (_parent e) [] (_prompt e) (_response e).
Definition set_response (r : addr) (e : EntryObj) : EntryObj :=
  mkEntry (_parent e) (_children e) (_prompt e) r.

(** [ChatEntry(prompt, response, parent)].  [response = None] stands for
    the omitted argument.  An entry object is always true, so
    [if self._parent:] tests [parent is not None]. *)
Definition __init__ (prompt : addr) (response : option addr)
    (parent : option addr) (st : Store) : result (addr * Store) :=
  let self := length (entries st) in
  let r := default default_response_ChatEntry response in
  let es := entries st ++ [mkEntry parent [] prompt r] in
  match parent with
  | Some p =>
      let* pe := deref es p in
      Ok (self, with_entries (<[p := append_child self pe]> es) st)
  | None => Ok (self, with_entries es st)
  end.

Definition index (self : addr) (st : Store) : result nat :=
  let* e := deref (entries st) self in
  match _parent e with
  | None => Ok 0
  | Some p =>
      let* pe := deref (entries st) p in
      match list_index self (_children pe) with
      | Some i => Ok i
      | None => Raise ValueError
      end
  end.

Definition isRoot (self : addr) (st : Store) : result bool :=
  let* e := deref (entries st) self in
  Ok (match _parent e with None => true | Some _ => false end).

Definition isLeaf (self : addr) (st : Store) : result bool :=
  let* e := deref (entries st) self in
  Ok (match _children e with [] => true | _ => false end).

Definition isDefaultContent (self : addr) (st : Store) : result bool :=
  let* e := deref (entries st) self in
  let* m := deref (messages st) (_prompt e) in
  if Message.isDefault m then
    let* r := deref (responses st) (_response e) in
    Ok (Response.isDefault r)
  else Ok false.

(** The [while entry is not None] loop of [path]: the entries from
    [entry] upwards in the order they are appended.  [fuel] bounds the
    number of iterations. *)
Fixpoint walk (fuel : nat) (es : list EntryObj) (entry : option addr)
    : result (list addr) :=
  match entry with
  | None => Ok []
  | Some a =>
      match fuel with
      | 0 => Raise Diverges
      | S fuel' =>
          let* e := deref es a in
          let* up := walk fuel' es (_parent e) in
          Ok (a :: up)
      end
  end.

Definition path (self : addr) (st : Store) : result (list addr) :=
  let* up := walk (length (entries st)) (entries st) (Some self) in
  Ok (reverse up).

(** What one round of the loop of [messages] appends for [entry]: its
    prompt, and the first choice of its response when there is one.  The
    result lists references to messages; [toMessage] of a plain message is
    the message itself. *)
Definition entry_messages (entry : addr) (st : Store) : result (list addr) :=
  let* e := deref (entries st) entry in
  let* r := deref (responses st) (_response e) in
  Ok (_prompt e ::
      match Response.choices r with
      | choice :: _ => [choice]
      | [] => []
      end).

(** The [for i, entry in enumerate(path)] loop of [messages], from
    position [i] on. *)
Fixpoint messages_from (i : nat) (path : list addr) (st : Store)
    : result (list addr) :=
  match path with
  | [] => Ok []
  | entry :: rest =>
      let* skip := (if Nat.eqb i 0 then isDefaultContent entry st
                    else Ok false) in
      let* own := (if skip then Ok [] else entry_messages entry st) in
      let* more := messages_from (S i) rest st in
      Ok (own ++ more)
  end.

Definition messages (self : addr) (st : Store) : result (list addr) :=
  let* p := path self st in
  messages_from 0 p st.

(** The setter of the [response] property. *)
Definition response_setter (self : addr) (value : addr) (st : Store)
    : result Store :=
  let* e := deref (entries st) self in
  Ok (with_entries (<[self := set_response value e]> (entries st)) st).

(** [self.response.choices = value]: the choices of the response object
    are rebound; every entry that refers to the object sees them. *)
Definition set_response_choices (self : addr) (value : list addr)
    (st : Store) : result Store :=
  let* e := deref (entries st) self in
  let* r := deref (responses st) (_response e) in
  Ok (with_responses
        (<[_response e := Response.set_choices value r]> (responses st)) st).

(** [ChatEntry.Default()] *)
Definition Default (st : Store) : result (addr * Store) :=
  let '(m, st) := new_message Message.Default st in
  let '(r, st) := new_response Response.Default st in
  __init__ m (Some r) None st.

End ChatEntry.

(** ** Chat *)

Module Chat.

(** The attributes of a [Chat].  [_cursor] is assigned an entry by every
    method that assigns it, so the [self._cursor is None] guards of the
    source never fire and the cursor is a plain reference. *)
Record t := mk {
  _current : addr;
  _root : addr;
  _previous : option addr;
  _cursor : addr;
  _path : list addr;
  _cursorPath : list addr;
  _cursorSiblingIndex : nat
}.

Definition with_cursor (c : addr) (self : t) : t :=
  mk (_current self) (_root self) (_previous self) c (_path self)
     (_cursorPath self) (_cursorSiblingIndex self).

Definition _updateCursorAttrs (self : t) (st : Store) : result t :=
  let* cp := ChatEntry.path (_cursor self) st in
  let* i := ChatEntry.index (_cursor self) st in
  Ok (mk (_current self) (_root self) (_previous self) (_cursor self)
         (_path self) cp i).

Definition clear (self : t) (st : Store) : result (t * Store) :=
  let* r := deref (entries st) (_root self) in
  let st := with_entries
              (<[_root self := ChatEntry.clear_children r]> (entries st)) st in
  let '(m, st) := new_message Message.Default st in
  let '(d, st) := new_response Response.Default st in
  let* '(cur, st) := ChatEntry.__init__ m (Some d) (Some (_root self)) st in
  let* p := ChatEntry.path cur st in
  let* cp := ChatEntry.path cur st in
  Ok (mk cur (_root self) None cur p cp 0, st).

(** [Chat()]: the attributes other than [_root] are unset until [clear]
    assigns them all; the record holds the root in their place. *)
Definition __init__ (st : Store) : result (t * Store) :=
  let* '(root, st) := ChatEntry.Default st in
  clear (mk root root None root [] [] 0) st.

Definition isDefault (self : t) (st : Store) : result bool :=
  let* cur := deref (entries st) (_current self) in
  let* root := deref (entries st) (_root self) in
  let* m := deref (messages st) (_prompt cur) in
  let* r := deref (responses st) (_response cur) in
  Ok (match _parent cur with
      | Some p => Nat.eqb p (_root self)
      | None => false
      end
      && Nat.eqb (length (_children cur)) 0
      && Nat.eqb (length (_children root)) 1
      && Message.isDefault m && Response.isDefault r).

Definition isEditable (self : t) : bool :=
  Nat.eqb (_cursor self) (_current self).

Definition addSibling (prompt : addr) (response : option addr)
    (self : t) (st : Store) : result (t * Store) :=
  let response := default default_response_addSibling response in
  let previous := _current self in
  let* cur := deref (entries st) (_current self) in
  let* m := deref (messages st) (_prompt cur) in
  let st := with_messages
              (<[_prompt cur := Message.set_content "" m]> (messages st)) st in
  let* r := deref (responses st) (_response cur) in
  let st := with_responses
              (<[_response cur := Response.set_choices [] r]> (responses st))
              st in
  let* c := deref (entries st) (_cursor self) in
  let* '(new, st) :=
    ChatEntry.__init__ prompt (Some response) (_parent c) st in
  let* p := ChatEntry.path new st in
  let* self' :=
    _updateCursorAttrs
      (mk new (_root self) (Some previous) new p (_cursorPath self)
          (_cursorSiblingIndex self)) st in
  Ok (self', st).

Definition addDescendant (prompt : addr) (response : option addr)
    (self : t) (st : Store) : result (t * Store) :=
  let response := default default_response_addDescendant response in
  let previous := _current self in
  let* '(new, st) :=
    ChatEntry.__init__ prompt (Some response) (Some (_cursor self)) st in
  let* p := ChatEntry.path new st in
  let* self' :=
    _updateCursorAttrs
      (mk new (_root self) (Some previous) new p (_cursorPath self)
          (_cursorSiblingIndex self)) st in
  Ok (self', st).

Definition canMoveUp (self : t) (st : Store) : result bool :=
  let* c := deref (entries st) (_cursor self) in
  Ok (match _parent c with
      | None => false
      | Some p => negb (Nat.eqb p (_root self))
      end).

Definition canMoveDown (self : t) (st : Store) : result bool :=
  let* c := deref (entries st) (_cursor self) in
  Ok (negb (Nat.eqb (length (_children c)) 0)).

Definition canMoveLeft (self : t) (st : Store) : result bool :=
  Ok (negb (Nat.eqb (_cursorSiblingIndex self) 0)).

Definition canMoveRight (self : t) (st : Store) : result bool :=
  let* c := deref (entries st) (_cursor self) in
  match _parent c with
  | None => Ok false
  | Some p =>
      let* pe := deref (entries st) p in
      Ok (negb (Z.of_nat (_cursorSiblingIndex self)
                =? Z.of_nat (length (_children pe)) - 1)%Z)
  end.

Definition up (self : t) (st : Store) : result t :=
  let* c := deref (entries st) (_cursor self) in
  match _parent c with
  | None => Ok self
  | Some p =>
      if Nat.eqb p (_root self) then Ok self
      else _updateCursorAttrs (with_cursor p self) st
  end.

(** [l[i]] for a non-negative [i]. *)
Definition nth_or_IndexError (l : list addr) (i : nat) : result addr :=
  match l !! i with
  | Some x => Ok x
  | None => Raise IndexError
  end.

Definition down (self : t) (st : Store) : result t :=
  let* c := deref (entries st) (_cursor self) in
  match last (_children c) with
  | None => Ok self
  | Some last_child =>
      let* child :=
        (if list_mem (_cursor self) (_path self)
            && Nat.ltb 1 (length (_children c))
         then
           match list_index (_cursor self) (_path self) with
           | None => Raise ValueError
           | Some i =>
               let* next := nth_or_IndexError (_path self) (i + 1) in
               let* downIdx := ChatEntry.index next st in
               nth_or_IndexError (_children c) downIdx
           end
         else Ok last_child) in
      _updateCursorAttrs (with_cursor child self) st
  end.

Definition left (self : t) (st : Store) : result t :=
  if Nat.eqb (_cursorSiblingIndex self) 0 then Ok self
  else
    let* c := deref (entries st) (_cursor self) in
    match _parent c with
    | None => Raise AttributeError
    | Some p =>
        let* pe := deref (entries st) p in
        let* sib := nth_or_IndexError (_children pe)
                      (_cursorSiblingIndex self - 1) in
        _updateCursorAttrs (with_cursor sib self) st
    end.

Definition right (self : t) (st : Store) : result t :=
  let* c := deref (entries st) (_cursor self) in
  match _parent c with
  | None => Ok self
  | Some p =>
      let* pe := deref (entries st) p in
      if (Z.of_nat (_cursorSiblingIndex self)
          =? Z.of_nat (length (_children pe)) - 1)%Z
      then Ok self
      else
        let* sib := nth_or_IndexError (_children pe)
                      (_cursorSiblingIndex self + 1) in
        _updateCursorAttrs (with_cursor sib self) st
  end.

Definition top (self : t) (st : Store) : result t :=
  let* c := deref (entries st) (_cursor self) in
  match _parent c with
  | None => Ok self
  | Some p =>
      if Nat.eqb p (_root self) then Ok self
      else
        let* first := nth_or_IndexError (_path self) 0 in
        _updateCursorAttrs (with_cursor first self) st
  end.

Definition bottom (self : t) (st : Store) : result t :=
  let* c := deref (entries st) (_cursor self) in
  match _children c with
  | [] => Ok self
  | _ => _updateCursorAttrs (with_cursor (_current self) self) st
  end.

Definition returnToCurrent (self : t) : t :=
  with_cursor (_current self) self.

End Chat.

(** ** Sessions *)

(** The calls a client makes on one [Chat]. *)
Inductive call :=
| Clear
| AddSibling (prompt : addr) (response : option addr)
| AddDescendant (prompt : addr) (response : option addr)
| Up | Down | Left | Right | Top | Bottom
| ReturnToCurrent.

Definition is_navigation (c : call) : bool :=
  match c with
  | Up | Down | Left | Right | Top | Bottom => true
  | _ => false
  end.

Definition run (c : call) (ch : Chat.t) (st : Store) : result (Chat.t * Store) :=
  match c with
  | Clear => Chat.clear ch st
  | AddSibling p r => Chat.addSibling p r ch st
  | AddDescendant p r => Chat.addDescendant p r ch st
  | Up => let* ch := Chat.up ch st in Ok (ch, st)
  | Down => let* ch := Chat.down ch st in Ok (ch, st)
  | Left => let* ch := Chat.left ch st in Ok (ch, st)
  | Right => let* ch := Chat.right ch st in Ok (ch, st)
  | Top => let* ch := Chat.top ch st in Ok (ch, st)
  | Bottom => let* ch := Chat.bottom ch st in Ok (ch, st)
  | ReturnToCurrent => Ok (Chat.returnToCurrent ch, st)
  end.

Fixpoint run_all (cs : list call) (ch : Chat.t) (st : Store)
    : result (Chat.t * Store) :=
  match cs with
  | [] => Ok (ch, st)
  | c :: cs' => let* '(ch, st) := run c ch st in run_all cs' ch st
  end.

(** What a client does to the objects between two calls: it creates
    messages and responses, edits a message in place ([prompt.content],
    [prompt.role]), rebinds the choices of a response, and assigns the
    response of an entry. *)
Inductive client_step : Store -> Store -> Prop :=
| client_new_message m st :
    client_step st (new_message m st).2
| client_new_response r st :
    client_step st (new_response r st).2
| client_edit_message a m f st :
    messages st !! a = Some m ->
    client_step st (with_messages (<[a := f m]> (messages st)) st)
| client_set_choices a r cs st :
    responses st !! a = Some r ->
    client_step st
      (with_responses (<[a := Response.set_choices cs r]> (responses st)) st)
| client_set_response a e r st :
    entries st !! a = Some e ->
    client_step st
      (with_entries (<[a := ChatEntry.set_response r e]> (entries st)) st).

(** The states of a [Chat] and its store that a program can reach: the chat
    is constructed in a store that holds no entry yet, and then the client
    calls its methods (continuing after the calls that return) and works on
    the objects. *)
Inductive reachable : Chat.t -> Store -> Prop :=
| reach_new st0 ch st :
    entries st0 = [] ->
    Chat.__init__ st0 = Ok (ch, st) ->
    reachable ch st
| reach_call c ch st ch' st' :
    reachable ch st ->
    run c ch st = Ok (ch', st') ->
    reachable ch' st'
| reach_client ch st st' :
    reachable ch st ->
    client_step st st' ->
    reachable ch st'.

(** A program that constructs a chat in [st0] and makes the calls [cs]. *)
Definition session (st0 : Store) (cs : list call) : result (Chat.t * Store) :=
  let* '(ch, st) := Chat.__init__ st0 in
  run_all cs ch st.

(** The messages behind a list of references. *)
Fixpoint message_values (l : list addr) (st : Store) : result (list Message.t) :=
  match l with
  | [] => Ok []
  | a :: l' =>
      let* m := deref (messages st) a in
      let* ms := message_values l' st in
      Ok (m :: ms)
  end.

(** ** Scenarios *)

Definition msg_hi : Message.t := Message.mk "user" "hi" DEFAULT_ID DEFAULT_TIME.
Definition msg_hello : Message.t :=
  Message.mk "assistant" "hello" DEFAULT_ID DEFAULT_TIME.

(** The store of a program that has imported the module and evaluated
    [Message("user", "hi")] (at address 0) and [Message("assistant", "hello")]
    (at address 1). *)
Definition store_hi_hello : Store :=
  (new_message msg_hello (new_message msg_hi store_at_import).2).2.

(** Scenario 1 of the specification: a fresh chat, [addDescendant] of the
    user message, the response of that entry set to one that holds the
    assistant message, [addDescendant] of the assistant message. *)
Definition scenario_1 : result (Chat.t * Store) :=
  let* '(ch, st) := Chat.__init__ store_hi_hello in
  let* '(ch, st) := Chat.addDescendant 0 None ch st in
  let '(r, st) :=
    new_response (Response.mk [1] (VInt 0) "" "" "" Usage.zero) st in
  let* st := ChatEntry.response_setter (Chat._current ch) r st in
  Chat.addDescendant 1 None ch st.

(** A chat completion as the API returns it. *)
Definition api_response_example : pydict :=
  [("id", VStr "chatcmpl-1");
   ("object", VStr "chat.completion");
   ("created", VInt 1700000000);
   ("model", VStr "gpt-4");
   ("choices",
    VList [VDict [("index", VInt 0);
                  ("message", VDict [("role", VStr "assistant");
                                     ("content", VStr "hello")]);
                  ("finish_reason", VStr "stop")]]);
   ("usage", VDict [("prompt_tokens", VInt 5);
                    ("completion_tokens", VInt 7);
                    ("total_tokens", VInt 12)])].

Definition parsed_response_example : Response.t Message.t :=
  Response.mk
    [Message.mk "assistant" "hello" "chatcmpl-1" (VInt 1700000000)]
    (VInt 1700000000) "chatcmpl-1" "gpt-4" "chat.completion"
    (Usage.mk (VInt 5) (VInt 7) (VInt 12)).

(** A chat completion whose message has no text: [content] is [null], as
    the API sends it with a function call. *)
Definition api_response_null_content : pydict :=
  [("id", VStr "chatcmpl-2");
   ("object", VStr "chat.completion");
   ("created", VInt 1700000000);
   ("model", VStr "gpt-4");
   ("choices",
    VList [VDict [("index", VInt 0);
                  ("message", VDict [("role", VStr "assistant");
                                     ("content", VNone)]);
                  ("finish_reason", VStr "function_call")]])].

(** A streamed chunk that carries [text]. *)
Definition chunk (text : string) : pydict :=
  [("id", VStr "chatcmpl-4");
   ("object", VStr "chat.completion.chunk");
   ("created", VInt 1700000000);
   ("model", VStr "gpt-4");
   ("choices", VList [VDict [("index", VInt 0);
                             ("delta", VDict [("content", VStr text)])]])].

(** The message a list of chunks assembles to. *)
Definition streamed_message (chunks : list pydict) : result (option Message.t) :=
  let* '(first, h) := PartialMessage.FromApiResponses chunks [] in
  match first with
  | Some a => let* m := PartialMessage.toMessage a h in Ok (Some m)
  | None => Ok None
  end.

(** A chat completion without the [created] field. *)
Definition api_response_no_created : pydict :=
  [("id", VStr "chatcmpl-5");
   ("choices",
    VList [VDict [("message", VDict [("role", VStr "assistant");
                                     ("content", VStr "hello")])]])].

(** A chat completion with two choices. *)
Definition api_response_two_choices : pydict :=
  [("id", VStr "chatcmpl-6");
   ("object", VStr "chat.completion");
   ("created", VInt 1700000000);
   ("model", VStr "gpt-4");
   ("choices",
    VList [VDict [("index", VInt 0);
                  ("message", VDict [("role", VStr "assistant");
                                     ("content", VStr "first")])];
           VDict [("index", VInt 1);
                  ("message", VDict [("role", VStr "assistant");
                                     ("content", VStr "second")])]])].

(** The chunk that closes a stream: an empty delta and a finish reason. *)
Definition api_chunk_closing : pydict :=
  [("id", VStr "chatcmpl-4");
   ("object", VStr "chat.completion.chunk");
   ("created", VInt 1700000000);
   ("model", VStr "gpt-4");
   ("choices", VList [VDict [("index", VInt 0);
                             ("delta", VDict []);
                             ("finish_reason", VStr "stop")]])].

(** A streamed chunk whose delta has a [null] content. *)
Definition api_chunk_null_content : pydict :=
  [("id", VStr "chatcmpl-3");
   ("object", VStr "chat.completion.chunk");
   ("created", VInt 1700000000);
   ("model", VStr "gpt-4");
   ("choices",
    VList [VDict [("index", VInt 0);
                  ("delta", VDict [("role", VStr "assistant");
                                   ("content", VNone)])]])].

(** A chat built without ever passing a response: the entry made by
    [clear] (entry 1), one made by [addSibling] (entry 2) whose response
    then receives the assistant message as its choice, one made by
    [addDescendant] (entry 3), and a last [addSibling] that supersedes it. *)
Definition scenario_defaults : result (Chat.t * Store) :=
  let* '(ch, st) := Chat.__init__ store_hi_hello in
  let* '(ch, st) := Chat.addSibling 0 None ch st in
  let* st := ChatEntry.set_response_choices (Chat._current ch) [1] st in
  let* '(ch, st) := Chat.addDescendant 0 None ch st in
  Chat.addSibling 1 None ch st.

(** The program of the sibling-index defect: the cursor leaves the current
    entry and [returnToCurrent] brings it back. *)
Definition stale_index_calls : list call :=
  [AddSibling 0 None; AddDescendant 0 None; Up; ReturnToCurrent].

(** A chat whose cursor has two children, the first of which leads to the
    current entry. *)
Definition fork_state : Chat.t * Store :=
  Eval vm_compute in
    match session store_hi_hello
            [AddDescendant 0 None; Up; AddDescendant 0 None; Left;
             AddDescendant 1 None; Up; Up] with
    | Ok s => s
    | Raise _ => (Chat.mk 0 0 None 0 [] [] 0, store_at_import)
    end.

(** A chat after one [addDescendant]: the cursor is below the first
    level. *)
Definition scenario_below : Chat.t * Store :=
  Eval vm_compute in
    match session store_hi_hello [AddDescendant 0 None] with
    | Ok s => s
    | Raise _ => (Chat.mk 0 0 None 0 [] [] 0, store_at_import)
    end.

(** [fork_state] after one more [addDescendant] at its cursor. *)
Definition scenario_sibling : Chat.t * Store :=
  Eval vm_compute in
    match Chat.addDescendant 0 None fork_state.1 fork_state.2 with
    | Ok s => s
    | Raise _ => (Chat.mk 0 0 None 0 [] [] 0, store_at_import)
    end.

(** ** Well-formed trees *)

(** A parent is older than its children: it has a smaller address. *)
Definition parents_below (es : list EntryObj) : Prop :=
  forall a e p, es !! a = Some e -> _parent e = Some p -> p < a.

(** Every member of a list of children is an entry whose parent link points
    back. *)
Definition children_ok (es : list EntryObj) : Prop :=
  forall p pe c, es !! p = Some pe -> c ∈ _children pe ->
    exists ce, es !! c = Some ce /\ _parent ce = Some p.

(** An entry is attached when it and each of its ancestors is listed among
    the children of its parent.  ([clear] empties the children of the root
    and leaves the former entries with their parent links, detached.) *)
Inductive live (es : list EntryObj) : addr -> Prop :=
| live_top a e :
    es !! a = Some e -> _parent e = None -> live es a
| live_sub a e p pe :
    es !! a = Some e -> _parent e = Some p ->
    es !! p = Some pe -> a ∈ _children pe ->
    live es p -> live es a.

(** What every method of [Chat] maintains. *)
Record inv (ch : Chat.t) (st : Store) : Prop := mkInv {
  inv_parents : parents_below (entries st);
  inv_children : children_ok (entries st);
  inv_root : ChatEntry.isRoot (Chat._root ch) st = Ok true;
  inv_current : live (entries st) (Chat._current ch);
  inv_cursor : live (entries st) (Chat._cursor ch);
  inv_leaf : ChatEntry.isLeaf (Chat._current ch) st = Ok true;
  inv_path : ChatEntry.path (Chat._current ch) st = Ok (Chat._path ch)
}.

(** [es'] keeps every entry of [es], with its parent and at least its
    children. *)
Definition extends (es es' : list EntryObj) : Prop :=
  forall a e, es !! a = Some e ->
    exists e', es' !! a = Some e' /\ _parent e' = _parent e
               /\ forall c, c ∈ _children e -> c ∈ _children e'.

(** The cached sibling index is the index of the cursor. *)
Definition fresh_index (ch : Chat.t) (st : Store) : Prop :=
  ChatEntry.index (Chat._cursor ch) st = Ok (Chat._cursorSiblingIndex ch).

(** The states a program reaches when it never calls [returnToCurrent]. *)
Inductive reachable_without_returnToCurrent : Chat.t -> Store -> Prop :=
| reach_new' st0 ch st :
    entries st0 = [] ->
    Chat.__init__ st0 = Ok (ch, st) ->
    reachable_without_returnToCurrent ch st
| reach_call' c ch st ch' st' :
    reachable_without_returnToCurrent ch st ->
    c <> ReturnToCurrent ->
    run c ch st = Ok (ch', st') ->
    reachable_without_returnToCurrent ch' st'
| reach_client' ch st st' :
    reachable_without_returnToCurrent ch st ->
    client_step st st' ->
    reachable_without_returnToCurrent ch st'.

(** ** Well-formed streams *)

(** [d] is a streamed chunk that carries the text [t]: it has a string id,
    an integer creation time, and the first of its choices is a dict whose
    [delta] is a dict with the string [t] as [content]. *)
Definition delta_chunk (d : pydict) (t : string) : Prop :=
  exists i c choice rest delta,
    dict_get d "id" = Some (VStr i)
    /\ dict_get d "created" = Some c /\ is_int c = true
    /\ dict_get d "choices" = Some (VList (VDict choice :: rest))
    /\ dict_get choice "delta" = Some (VDict delta)
    /\ dict_get delta "content" = Some (VStr t).

(** The fragments of one stream in the heap [h]: fragment [j] of the
    stream lies at [base + j], holds the text [ts !! j] with the role
    ["assistant"], points to [base] as the first fragment and to its
    successor as the next one, the last to none. *)
Definition stream_inv (base : nat) (ts : list string)
    (h : list PartialObj) : Prop :=
  length h = base + length ts
  /\ forall j t, ts !! j = Some t ->
       exists po, h !! (base + j) = Some po
         /\ Message.content (pm_message po) = t
         /\ Message.role (pm_message po) = "assistant"
         /\ _first po = base
         /\ _next po = (if (S j <? length ts)%nat then Some (base + S j) else None).

(** ** Model listings *)

(** A listing of two chat models and one other engine. *)
Definition engine_list_example : pyval :=
  VDict [("object", VStr "list");
         ("data", VList [VDict [("id", VStr "gpt-4"); ("object", VStr "engine")];
                         VDict [("id", VStr "davinci"); ("object", VStr "engine")];
                         VDict [("id", VStr "gpt-3.5-turbo");
                                ("object", VStr "engine")]])].

(** ** Token sets *)

(** The token set lists the token [z]. *)
Definition has_token (tset : TokenSet.t) (z : Z) : bool :=
  existsb (fun t => (int_val t =? z)%Z) (TokenSet.tokens tset).

(** The token set is one the constructor of [TokenSet] returned. *)
Definition constructed (tset : TokenSet.t) : Prop :=
  exists tokens bias, TokenSet.__init__ tokens bias = Ok tset.

(** The value [v] refers to the token set [tset] of the heap [tsets]. *)
Definition refers_to (tsets : list TokenSet.t) (v : pyval)
    (tset : TokenSet.t) : Prop :=
  exists a, v = VObj CTokenSet a /\ tsets !! a = Some tset.
(** * Properties *)

(** ** The model on the examples of the specification *)

Example parse_example :
  Response.FromApiResponse (VDict api_response_example)
  = Ok (Some parsed_response_example).
Proof. vm_compute. reflexivity. Qed.

Example streamed_hello_world :
  streamed_message [chunk "Hel"; chunk "lo"; chunk ", world"]
  = Ok (Some (Message.mk "assistant" "Hello, world" "chatcmpl-4"
                (VInt 1700000000))).
Proof. vm_compute. reflexivity. Qed.

Example temperature_three_rejected :
  ChatCompletionParams.__init__
    (ChatCompletionParams.model_and_temperature (VStr "gpt-4")
       (VFloat SF_three))
  = Raise ValueError.
Proof. vm_compute. reflexivity. Qed.

Example fresh_chat :
  exists ch st,
    Chat.__init__ store_at_import = Ok (ch, st)
    /\ Chat._root ch = 0 /\ Chat._current ch = 1 /\ Chat._cursor ch = 1
    /\ Chat._path ch = [0; 1]
    /\ Chat.isDefault ch st = Ok true /\ Chat.isEditable ch = true.
Proof.
  eexists _, _. split; [vm_compute; reflexivity|].
  repeat split; vm_compute; reflexivity.
Qed.

(** ** Outcomes and lookups *)

Lemma bind_Ok_inv {A B} (m : result A) (k : A -> result B) b :
  bind m k = Ok b -> exists a, m = Ok a /\ k a = Ok b.
Proof. destruct m; simpl; eauto. discriminate. Qed.

Lemma deref_Ok {A} (h : list A) a x : h !! a = Some x -> deref h a = Ok x.
Proof. unfold deref. intros ->. reflexivity. Qed.

Lemma deref_Ok_inv {A} (h : list A) a x : deref h a = Ok x -> h !! a = Some x.
Proof. unfold deref. destruct (h !! a); congruence. Qed.

Ltac inv_bind H :=
  let x := fresh "x" in
  let Hx := fresh "Hx" in
  apply bind_Ok_inv in H as (x & Hx & H).

Lemma list_index_Some x l i : list_index x l = Some i -> l !! i = Some x.
Proof.
  revert i. induction l as [|y l IH]; intros i; simpl; [discriminate|].
  destruct (Nat.eqb_spec y x) as [->|Hne].
  - intros [= <-]. reflexivity.
  - destruct (list_index x l) as [j|]; simpl; [|discriminate].
    intros [= <-]. simpl. auto.
Qed.

Lemma list_index_first x l i j :
  list_index x l = Some i -> l !! j = Some x -> i <= j.
Proof.
  revert i j. induction l as [|y l IH]; intros i j; simpl; [discriminate|].
  destruct (Nat.eqb_spec y x) as [->|Hne].
  - intros [= <-] _. lia.
  - destruct (list_index x l) as [k|] eqn:Hk; simpl; [|discriminate].
    intros [= <-]. destruct j as [|j]; simpl.
    + intros [= ->]. contradiction.
    + intros Hj. specialize (IH k j eq_refl Hj). lia.
Qed.

Lemma list_index_elem x l : x ∈ l -> exists i, list_index x l = Some i.
Proof.
  induction 1 as [x l|x y l _ IH]; simpl.
  - rewrite Nat.eqb_refl. eauto.
  - destruct (Nat.eqb y x); eauto. destruct IH as [i ->]. simpl. eauto.
Qed.

Lemma list_mem_elem x l : list_mem x l = true <-> x ∈ l.
Proof.
  unfold list_mem. split.
  - destruct (list_index x l) as [i|] eqn:Hi; [|discriminate].
    intros _. apply list_index_Some in Hi. eapply list_elem_of_lookup_2; eauto.
  - intros [i ->]%list_index_elem. reflexivity.
Qed.

(** ** The parent walk *)

Lemma walk_None fuel es : ChatEntry.walk fuel es None = Ok [].
Proof. destruct fuel; reflexivity. Qed.

Lemma walk_Some_inv fuel es a up :
  ChatEntry.walk fuel es (Some a) = Ok up ->
  exists fuel' e up',
    fuel = S fuel' /\ es !! a = Some e
    /\ ChatEntry.walk fuel' es (_parent e) = Ok up' /\ up = a :: up'.
Proof.
  destruct fuel as [|fuel']; simpl; [discriminate|]. intros H.
  inv_bind H. apply deref_Ok_inv in Hx. inv_bind H. injection H as <-.
  eauto 10.
Qed.

(** More fuel does not change the outcome of a walk that ends. *)
Lemma walk_fuel_mono fuel fuel' es o up :
  ChatEntry.walk fuel es o = Ok up -> fuel <= fuel' ->
  ChatEntry.walk fuel' es o = Ok up.
Proof.
  revert fuel' o up. induction fuel as [|fuel IH]; intros fuel' o up H Hle.
  - destruct o; [discriminate|]. injection H as <-. apply walk_None.
  - destruct o as [a|]; [|injection H as <-; apply walk_None].
    destruct fuel' as [|fuel']; [lia|]. simpl in *.
    inv_bind H. rewrite Hx. simpl. inv_bind H. injection H as <-.
    rewrite (IH fuel' _ _ Hx0) by lia. reflexivity.
Qed.

(** Two stores whose entries have the same parents walk alike. *)
Lemma walk_same_parents fuel es es' o up :
  (forall a e, es !! a = Some e ->
               exists e', es' !! a = Some e' /\ _parent e' = _parent e) ->
  ChatEntry.walk fuel es o = Ok up -> ChatEntry.walk fuel es' o = Ok up.
Proof.
  intros Hext. revert o up. induction fuel as [|fuel IH]; intros o up H.
  - destruct o; [discriminate|]. exact H.
  - destruct o as [a|]; [|exact H]. simpl in *.
    inv_bind H. apply deref_Ok_inv in Hx. inv_bind H. injection H as <-.
    destruct (Hext _ _ Hx) as (e' & He' & Hp).
    rewrite (deref_Ok _ _ _ He'). simpl. rewrite Hp, (IH _ _ Hx0). reflexivity.
Qed.

(** Consecutive entries of a walk are child and parent. *)
Lemma walk_adjacent fuel es o up j x y :
  ChatEntry.walk fuel es o = Ok up ->
  up !! j = Some x -> up !! S j = Some y ->
  exists e, es !! x = Some e /\ _parent e = Some y.
Proof.
  revert o up j. induction fuel as [|fuel IH]; intros o up j H Hx Hy.
  - destruct o; [discriminate|]. injection H as <-. discriminate.
  - destruct o as [a|]; [|injection H as <-; discriminate].
    apply walk_Some_inv in H as (f & e & up' & [= <-] & He & Hw & ->).
    destruct j as [|j]; simpl in *.
    + injection Hx as <-. exists e. split; [assumption|].
      destruct (_parent e) as [p|]; [|rewrite walk_None in Hw; injection Hw as <-; discriminate].
      destruct fuel; [discriminate|].
      apply walk_Some_inv in Hw as (? & ? & ? & _ & _ & _ & ->).
      simpl in Hy. congruence.
    + eapply IH; eauto.
Qed.

Lemma walk_head fuel es a up :
  ChatEntry.walk fuel es (Some a) = Ok up -> up !! 0 = Some a.
Proof. intros (? & ? & ? & _ & _ & _ & ->)%walk_Some_inv. reflexivity. Qed.
(** ** Attached entries *)

Lemma live_lookup es a : live es a -> exists e, es !! a = Some e.
Proof. destruct 1; eauto. Qed.

Lemma live_parent es a e p :
  live es a -> es !! a = Some e -> _parent e = Some p -> live es p.
Proof. destruct 1; intros; congruence. Qed.

Lemma live_child es p pe c :
  children_ok es -> live es p -> es !! p = Some pe -> c ∈ _children pe ->
  live es c.
Proof.
  intros Hok Hp Hpe Hc. destruct (Hok _ _ _ Hpe Hc) as (ce & Hce & Hpar).
  eapply live_sub; eauto.
Qed.

Lemma live_extends es es' a : extends es es' -> live es a -> live es' a.
Proof.
  intros Hext. induction 1 as [a e He Hp|a e p pe He Hp Hpe Hin _ IH].
  - destruct (Hext _ _ He) as (e' & He' & Hp' & _).
    eapply live_top; eauto. congruence.
  - destruct (Hext _ _ He) as (e' & He' & Hp' & _).
    destruct (Hext _ _ Hpe) as (pe' & Hpe' & _ & Hch).
    eapply live_sub; eauto. congruence.
Qed.

Lemma live_walk es a :
  parents_below es -> live es a ->
  forall fuel, a < fuel ->
    exists up, ChatEntry.walk fuel es (Some a) = Ok up /\ Forall (live es) up.
Proof.
  intros Hpb. induction 1 as [a e He Hp|a e p pe He Hp Hpe Hin Hl IH];
    intros fuel Hlt; (destruct fuel as [|fuel]; [lia|]); simpl;
    rewrite (deref_Ok _ _ _ He); simpl; rewrite Hp.
  - rewrite walk_None. simpl. eexists. split; [reflexivity|].
    repeat constructor. eapply live_top; eauto.
  - pose proof (Hpb _ _ _ He Hp).
    destruct (IH fuel) as (up & -> & Hall); [lia|]. simpl.
    eexists. split; [reflexivity|]. constructor; [|assumption].
    eapply live_sub; eauto.
Qed.

Lemma live_path st a :
  parents_below (entries st) -> live (entries st) a ->
  exists p, ChatEntry.path a st = Ok p /\ Forall (live (entries st)) p.
Proof.
  intros Hpb Hl. unfold ChatEntry.path.
  destruct (live_lookup _ _ Hl) as (e & He%lookup_lt_Some).
  destruct (live_walk _ _ Hpb Hl (length (entries st)) He) as (up & -> & Hall).
  simpl. eexists. split; [reflexivity|].
  apply Forall_reverse. assumption.
Qed.

Lemma live_index st a :
  live (entries st) a -> exists i, ChatEntry.index a st = Ok i.
Proof.
  unfold ChatEntry.index.
  destruct 1 as [a e He Hp|a e p pe He Hp Hpe Hin _];
    rewrite (deref_Ok _ _ _ He); simpl; rewrite Hp; [eauto|].
  rewrite (deref_Ok _ _ _ Hpe). simpl.
  destruct (list_index_elem _ _ Hin) as [i ->]. eauto.
Qed.

(** [_updateCursorAttrs] returns for an attached cursor, and changes the two
    cached attributes of the cursor only. *)
Lemma updateCursorAttrs_live ch st :
  parents_below (entries st) -> live (entries st) (Chat._cursor ch) ->
  exists cp i,
    Chat._updateCursorAttrs ch st
    = Ok (Chat.mk (Chat._current ch) (Chat._root ch) (Chat._previous ch)
            (Chat._cursor ch) (Chat._path ch) cp i).
Proof.
  intros Hpb Hl. unfold Chat._updateCursorAttrs.
  destruct (live_path _ _ Hpb Hl) as (cp & -> & _).
  destruct (live_index _ _ Hl) as (i & ->). simpl. eauto.
Qed.

Lemma updateCursorAttrs_fields ch st ch' :
  Chat._updateCursorAttrs ch st = Ok ch' ->
  Chat._current ch' = Chat._current ch /\ Chat._root ch' = Chat._root ch
  /\ Chat._cursor ch' = Chat._cursor ch /\ Chat._path ch' = Chat._path ch.
Proof.
  unfold Chat._updateCursorAttrs. intros H. inv_bind H. inv_bind H.
  injection H as <-. simpl. auto.
Qed.

(** Moving the cursor to an attached entry keeps the invariant. *)
Lemma inv_move_cursor ch st x ch' :
  inv ch st -> live (entries st) x ->
  Chat._updateCursorAttrs (Chat.with_cursor x ch) st = Ok ch' ->
  inv ch' st.
Proof.
  intros [] Hx (Hc & Hr & Hcu & Hp)%updateCursorAttrs_fields. simpl in *.
  constructor; rewrite ?Hc, ?Hr, ?Hcu, ?Hp; assumption.
Qed.

Lemma nth_or_IndexError_elem l i x :
  Chat.nth_or_IndexError l i = Ok x -> x ∈ l.
Proof.
  unfold Chat.nth_or_IndexError. destruct (l !! i) eqn:H; [|discriminate].
  intros [= <-]. eapply list_elem_of_lookup_2; eauto.
Qed.

Lemma last_elem (l : list addr) x : last l = Some x -> x ∈ l.
Proof. rewrite last_lookup. apply list_elem_of_lookup_2. Qed.

(** *** Navigation keeps the invariant *)

Lemma up_inv ch st ch' : inv ch st -> Chat.up ch st = Ok ch' -> inv ch' st.
Proof.
  intros Hinv H. unfold Chat.up in H. inv_bind H. apply deref_Ok_inv in Hx.
  destruct (_parent x) as [p|] eqn:Hp; [|injection H as <-; assumption].
  destruct (Nat.eqb p _); [injection H as <-; assumption|].
  eapply inv_move_cursor; eauto.
  eapply live_parent; eauto using inv_cursor.
Qed.

Lemma down_inv ch st ch' : inv ch st -> Chat.down ch st = Ok ch' -> inv ch' st.
Proof.
  intros Hinv H. unfold Chat.down in H. inv_bind H. apply deref_Ok_inv in Hx.
  destruct (last (_children x)) as [lc|] eqn:Hlast;
    [|injection H as <-; assumption].
  inv_bind H. eapply inv_move_cursor; eauto.
  eapply live_child; eauto using inv_children, inv_cursor.
  destruct (_ && _).
  - destruct (list_index _ _); [|discriminate].
    inv_bind Hx0. inv_bind Hx0. eapply nth_or_IndexError_elem; eauto.
  - injection Hx0 as <-. apply last_elem; assumption.
Qed.

Lemma sibling_live ch st c p pe x :
  inv ch st -> entries st !! Chat._cursor ch = Some c -> _parent c = Some p ->
  entries st !! p = Some pe -> x ∈ _children pe -> live (entries st) x.
Proof.
  intros Hinv Hc Hp Hpe Hx.
  eapply live_child; eauto using inv_children.
  eapply live_parent; eauto using inv_cursor.
Qed.

Lemma left_inv ch st ch' : inv ch st -> Chat.left ch st = Ok ch' -> inv ch' st.
Proof.
  intros Hinv H. unfold Chat.left in H.
  destruct (Nat.eqb _ 0); [injection H as <-; assumption|].
  inv_bind H. apply deref_Ok_inv in Hx.
  destruct (_parent x) as [p|] eqn:Hp; [|discriminate].
  inv_bind H. apply deref_Ok_inv in Hx0. inv_bind H.
  eapply inv_move_cursor; eauto.
  eapply sibling_live; eauto using nth_or_IndexError_elem.
Qed.

Lemma right_inv ch st ch' : inv ch st -> Chat.right ch st = Ok ch' -> inv ch' st.
Proof.
  intros Hinv H. unfold Chat.right in H.
  inv_bind H. apply deref_Ok_inv in Hx.
  destruct (_parent x) as [p|] eqn:Hp; [|injection H as <-; assumption].
  inv_bind H. apply deref_Ok_inv in Hx0.
  destruct (_ =? _)%Z; [injection H as <-; assumption|].
  inv_bind H.
  eapply inv_move_cursor; eauto.
  eapply sibling_live; eauto using nth_or_IndexError_elem.
Qed.

Lemma top_inv ch st ch' : inv ch st -> Chat.top ch st = Ok ch' -> inv ch' st.
Proof.
  intros Hinv H. unfold Chat.top in H.
  inv_bind H. apply deref_Ok_inv in Hx.
  destruct (_parent x) as [p|] eqn:Hp; [|injection H as <-; assumption].
  destruct (Nat.eqb p _); [injection H as <-; assumption|].
  inv_bind H. eapply inv_move_cursor; eauto.
  destruct (live_path st (Chat._current ch)) as (pth & Hpth & Hall);
    eauto using inv_parents, inv_current.
  rewrite (inv_path _ _ Hinv) in Hpth. injection Hpth as <-.
  rewrite Forall_forall in Hall. apply Hall.
  eapply nth_or_IndexError_elem; eauto.
Qed.

Lemma bottom_inv ch st ch' :
  inv ch st -> Chat.bottom ch st = Ok ch' -> inv ch' st.
Proof.
  intros Hinv H. unfold Chat.bottom in H.
  inv_bind H. destruct (_children x); [injection H as <-; assumption|].
  eapply inv_move_cursor; eauto using inv_current.
Qed.

Lemma returnToCurrent_inv ch st : inv ch st -> inv (Chat.returnToCurrent ch) st.
Proof. intros []. constructor; simpl; assumption. Qed.
(** *** Constructing an entry *)

(** The store after [ChatEntry(prompt, response, parent)]: one more entry,
    and the parent lists it as its last child. *)
Lemma init_spec prompt resp parent st self st' :
  ChatEntry.__init__ prompt resp parent st = Ok (self, st') ->
  (forall p, parent = Some p -> p < length (entries st)) ->
  self = length (entries st)
  /\ responses st' = responses st /\ messages st' = messages st
  /\ length (entries st') = S self
  /\ entries st' !! self
     = Some (mkEntry parent [] prompt
               (default default_response_ChatEntry resp))
  /\ forall a e, entries st !! a = Some e ->
       entries st' !! a
       = Some (if decide (parent = Some a)
               then ChatEntry.append_child self e else e).
Proof.
  unfold ChatEntry.__init__. intros H Hlt.
  destruct parent as [p|].
  - specialize (Hlt p eq_refl). inv_bind H. apply deref_Ok_inv in Hx.
    rewrite lookup_app_l in Hx by assumption.
    injection H as <- <-. simpl.
    repeat split.
    + rewrite length_insert, length_app. simpl. lia.
    + rewrite list_lookup_insert_ne by lia.
      rewrite lookup_app_r by lia. rewrite Nat.sub_diag. reflexivity.
    + intros a e He. pose proof (lookup_lt_Some _ _ _ He).
      destruct (decide (Some p = Some a)) as [[= ->]|Hne].
      * rewrite list_lookup_insert_eq by (rewrite length_app; simpl; lia).
        congruence.
      * rewrite list_lookup_insert_ne by congruence.
        rewrite lookup_app_l by assumption. assumption.
  - injection H as <- <-. simpl. repeat split.
    + rewrite length_app. simpl. lia.
    + rewrite lookup_app_r by lia. rewrite Nat.sub_diag. reflexivity.
    + intros a e He. pose proof (lookup_lt_Some _ _ _ He).
      rewrite lookup_app_l by assumption. assumption.
Qed.

Section Init.
Context (prompt : addr) (resp : option addr) (parent : option addr).
Context (st st' : Store) (self : addr).
Context (Hinit : ChatEntry.__init__ prompt resp parent st = Ok (self, st')).
Context (Hparent : forall p, parent = Some p -> p < length (entries st)).

Let new := mkEntry parent [] prompt (default default_response_ChatEntry resp).

Lemma init_lookup_inv a e' :
  entries st' !! a = Some e' ->
  (a = self /\ e' = new)
  \/ (a < self /\ exists e, entries st !! a = Some e
      /\ e' = if decide (parent = Some a)
              then ChatEntry.append_child self e else e).
Proof.
  destruct (init_spec _ _ _ _ _ _ Hinit Hparent)
    as (Hself & _ & _ & Hlen & Hnew & Hold).
  intros He'. pose proof (lookup_lt_Some _ _ _ He') as Hlt.
  destruct (decide (a = self)) as [->|Hne].
  - left. split; [reflexivity|]. unfold new. congruence.
  - right. assert (a < length (entries st)) as Ha by lia.
    split; [lia|].
    destruct (lookup_lt_is_Some_2 _ _ Ha) as [e He]. exists e.
    split; [assumption|]. rewrite (Hold _ _ He) in He'. congruence.
Qed.

Lemma init_extends : extends (entries st) (entries st').
Proof.
  destruct (init_spec _ _ _ _ _ _ Hinit Hparent)
    as (_ & _ & _ & _ & _ & Hold).
  intros a e He. rewrite (Hold _ _ He). eexists. split; [reflexivity|].
  destruct (decide _); simpl; split; auto.
  intros c Hc. apply elem_of_app. auto.
Qed.

Lemma init_parents_below :
  parents_below (entries st) -> parents_below (entries st').
Proof.
  destruct (init_spec _ _ _ _ _ _ Hinit Hparent) as (Hself & _).
  intros Hpb a e' p He' Hp.
  destruct (init_lookup_inv _ _ He') as [[-> ->]|(_ & e & He & ->)].
  - simpl in Hp. rewrite Hself. auto.
  - eapply Hpb; eauto.
    destruct (decide (parent = Some a)); simpl in Hp; assumption.
Qed.

Lemma init_children_ok :
  children_ok (entries st) -> children_ok (entries st').
Proof.
  destruct (init_spec _ _ _ _ _ _ Hinit Hparent)
    as (Hself & _ & _ & _ & Hnew & Hold).
  intros Hok p pe' c Hpe' Hc.
  destruct (init_lookup_inv _ _ Hpe') as [[-> ->]|(_ & pe & Hpe & ->)].
  - simpl in Hc. inversion Hc.
  - assert (c ∈ _children pe -> exists ce,
              entries st' !! c = Some ce /\ _parent ce = Some p) as Hfrom.
    { intros Hin. destruct (Hok _ _ _ Hpe Hin) as (ce & Hce & Hpar).
      rewrite (Hold _ _ Hce). eexists. split; [reflexivity|].
      destruct (decide (parent = Some c)); simpl; assumption. }
    destruct (decide (parent = Some p)) as [Heq|]; [|auto].
    simpl in Hc. apply elem_of_app in Hc as [Hin|Hin]; [auto|].
    apply list_elem_of_singleton in Hin as ->.
    exists new. split; [exact Hnew|exact Heq].
Qed.

Lemma init_live_self :
  (forall p, parent = Some p -> live (entries st) p) ->
  live (entries st') self.
Proof.
  pose proof init_extends as Hext.
  destruct (init_spec _ _ _ _ _ _ Hinit Hparent)
    as (Hself & _ & _ & _ & Hnew & Hold).
  intros Hl. destruct parent as [p|] eqn:Hp.
  - specialize (Hl p eq_refl).
    destruct (live_lookup _ _ Hl) as (pe & Hpe).
    eapply live_sub; [exact Hnew|reflexivity| | |].
    + rewrite (Hold _ _ Hpe). rewrite decide_True by reflexivity. reflexivity.
    + simpl. apply elem_of_app. right. constructor.
    + eapply live_extends; eauto.
  - eapply live_top; [exact Hnew|reflexivity].
Qed.

Lemma init_isRoot root :
  ChatEntry.isRoot root st = Ok true -> ChatEntry.isRoot root st' = Ok true.
Proof.
  unfold ChatEntry.isRoot. intros H. inv_bind H. apply deref_Ok_inv in Hx.
  destruct (init_extends _ _ Hx) as (e' & He' & Hp & _).
  rewrite (deref_Ok _ _ _ He'). simpl. rewrite Hp. assumption.
Qed.

Lemma init_isLeaf : ChatEntry.isLeaf self st' = Ok true.
Proof.
  destruct (init_spec _ _ _ _ _ _ Hinit Hparent)
    as (_ & _ & _ & _ & Hnew & _).
  unfold ChatEntry.isLeaf. rewrite (deref_Ok _ _ _ Hnew). reflexivity.
Qed.
End Init.
(** *** Stores with the same tree *)

Lemma extends_refl es : extends es es.
Proof. intros a e He. eauto. Qed.

Lemma no_elem_nil (l : list addr) : (forall c, c ∈ l -> c ∈ @nil addr) -> l = [].
Proof.
  destruct l as [|x l]; [reflexivity|]. intros H.
  specialize (H x (list_elem_of_here _ _)). inversion H.
Qed.

(** The invariant speaks of the parent and children links only: it passes
    to any store whose entries have the same links. *)
Lemma inv_same_tree ch st st' :
  extends (entries st) (entries st') -> extends (entries st') (entries st) ->
  length (entries st) = length (entries st') ->
  inv ch st -> inv ch st'.
Proof.
  intros Hfw Hbw Hlen [Hpb Hok Hroot Hcur Hcursor Hleaf Hpath].
  constructor.
  - intros a e' p He' Hp. destruct (Hbw _ _ He') as (e & He & Hpe & _).
    eapply Hpb; eauto. congruence.
  - intros p pe' c Hpe' Hc. destruct (Hbw _ _ Hpe') as (pe & Hpe & _ & Hch).
    destruct (Hok _ _ _ Hpe (Hch _ Hc)) as (ce & Hce & Hpar).
    destruct (Hfw _ _ Hce) as (ce' & Hce' & Hpar' & _).
    exists ce'. split; [assumption|congruence].
  - unfold ChatEntry.isRoot in *. inv_bind Hroot. apply deref_Ok_inv in Hx.
    destruct (Hfw _ _ Hx) as (e' & He' & Hp & _).
    rewrite (deref_Ok _ _ _ He'). simpl. rewrite Hp. assumption.
  - eapply live_extends; eauto.
  - eapply live_extends; eauto.
  - unfold ChatEntry.isLeaf in *. inv_bind Hleaf. apply deref_Ok_inv in Hx.
    destruct (Hfw _ _ Hx) as (e' & He' & _).
    destruct (Hbw _ _ He') as (e & He & _ & Hch).
    rewrite (deref_Ok _ _ _ He'). simpl.
    assert (e = x) as -> by congruence.
    destruct (_children x); [|discriminate].
    rewrite (no_elem_nil _ Hch). reflexivity.
  - unfold ChatEntry.path in *. inv_bind Hpath. rewrite <- Hlen.
    erewrite walk_same_parents; [exact Hpath| |exact Hx].
    intros a e He. destruct (Hfw _ _ He) as (e' & He' & Hp & _). eauto.
Qed.

Lemma inv_same_entries ch st st' :
  entries st' = entries st -> inv ch st -> inv ch st'.
Proof.
  intros Heq. apply inv_same_tree; rewrite Heq; auto using extends_refl.
Qed.

Lemma extends_set_response_r es a e r :
  es !! a = Some e -> extends es (<[a := ChatEntry.set_response r e]> es).
Proof.
  intros He b eb Hb. pose proof (lookup_lt_Some _ _ _ Hb).
  destruct (decide (a = b)) as [->|Hne].
  - rewrite list_lookup_insert_eq by assumption.
    assert (eb = e) as -> by congruence. eexists. split; [reflexivity|].
    simpl. auto.
  - rewrite list_lookup_insert_ne by assumption. eauto.
Qed.

Lemma extends_set_response_l es a e r :
  es !! a = Some e -> extends (<[a := ChatEntry.set_response r e]> es) es.
Proof.
  intros He b eb Hb.
  destruct (decide (a = b)) as [->|Hne].
  - rewrite list_lookup_insert_eq in Hb by (eapply lookup_lt_Some; eauto).
    injection Hb as <-. eexists. split; [eassumption|]. simpl. auto.
  - rewrite list_lookup_insert_ne in Hb by assumption. eauto.
Qed.

Lemma client_step_inv ch st st' : client_step st st' -> inv ch st -> inv ch st'.
Proof.
  destruct 1; try (apply inv_same_entries; reflexivity).
  apply inv_same_tree; simpl;
    eauto using extends_set_response_l, extends_set_response_r.
  rewrite length_insert. reflexivity.
Qed.

(** *** Adding entries *)

Lemma inv_updateCursorAttrs ch st ch' :
  inv ch st -> Chat._updateCursorAttrs ch st = Ok ch' -> inv ch' st.
Proof.
  intros [] (Hc & Hr & Hcu & Hp)%updateCursorAttrs_fields.
  constructor; rewrite ?Hc, ?Hr, ?Hcu, ?Hp; assumption.
Qed.

(** A chat whose current entry and cursor are an entry that was just
    constructed under an attached parent (or under none). *)
Lemma inv_after_init root prev cp i prompt resp parent st new st' pth :
  parents_below (entries st) -> children_ok (entries st) ->
  ChatEntry.isRoot root st = Ok true ->
  (forall p, parent = Some p -> live (entries st) p) ->
  ChatEntry.__init__ prompt resp parent st = Ok (new, st') ->
  ChatEntry.path new st' = Ok pth ->
  inv (Chat.mk new root prev new pth cp i) st'.
Proof.
  intros Hpb Hok Hroot Hl Hinit Hpth.
  assert (forall p, parent = Some p -> p < length (entries st)) as Hlt.
  { intros p Hp. destruct (live_lookup _ _ (Hl p Hp)) as (pe & Hpe).
    eapply lookup_lt_Some; eauto. }
  constructor; simpl.
  - eapply init_parents_below; eauto.
  - eapply init_children_ok; eauto.
  - eapply init_isRoot; eauto.
  - eapply init_live_self; eauto.
  - eapply init_live_self; eauto.
  - eapply init_isLeaf; eauto.
  - assumption.
Qed.

Lemma addDescendant_inv prompt resp ch st ch' st' :
  inv ch st -> Chat.addDescendant prompt resp ch st = Ok (ch', st') ->
  inv ch' st'.
Proof.
  intros Hinv H. unfold Chat.addDescendant in H.
  inv_bind H. destruct x as [new st1]. inv_bind H. inv_bind H.
  injection H as <- <-.
  eapply inv_updateCursorAttrs; [|eassumption].
  eapply inv_after_init; eauto using inv_parents, inv_children, inv_root.
  intros p [= <-]. eauto using inv_cursor.
Qed.

Lemma addSibling_inv prompt resp ch st ch' st' :
  inv ch st -> Chat.addSibling prompt resp ch st = Ok (ch', st') ->
  inv ch' st'.
Proof.
  intros Hinv H. unfold Chat.addSibling in H.
  inv_bind H. inv_bind H. inv_bind H. inv_bind H. simpl in Hx2.
  apply deref_Ok_inv in Hx2.
  inv_bind H. destruct x3 as [new st1]. inv_bind H. inv_bind H.
  injection H as <- <-.
  eapply inv_updateCursorAttrs; [|eassumption].
  eapply inv_after_init; [..|eassumption|eassumption]; simpl;
    eauto using inv_parents, inv_children.
  - exact (inv_root _ _ Hinv).
  - intros p Hp. eapply live_parent; eauto using inv_cursor.
Qed.

(** Emptying the children of the root. *)
Lemma clear_children_lookup (es : list EntryObj) (root a : addr) r e' :
  es !! root = Some r ->
  <[root := ChatEntry.clear_children r]> es !! a = Some e' ->
  exists e, es !! a = Some e /\ _parent e' = _parent e
            /\ (_children e' = _children e \/ _children e' = []).
Proof.
  intros Hr He'. destruct (decide (root = a)) as [->|Hne].
  - rewrite list_lookup_insert_eq in He' by (eapply lookup_lt_Some; eauto).
    injection He' as <-. exists r. simpl. auto.
  - rewrite list_lookup_insert_ne in He' by assumption. eauto.
Qed.

Lemma clear_inv ch st ch' st' :
  inv ch st -> Chat.clear ch st = Ok (ch', st') -> inv ch' st'.
Proof.
  intros Hinv H. unfold Chat.clear in H.
  inv_bind H. apply deref_Ok_inv in Hx.
  cbv beta iota delta [new_message new_response] in H.
  inv_bind H. destruct x0 as [cur st1]. inv_bind H. inv_bind H.
  injection H as <- <-.
  pose proof (inv_root _ _ Hinv) as Hroot. unfold ChatEntry.isRoot in Hroot.
  rewrite (deref_Ok _ _ _ Hx) in Hroot. simpl in Hroot.
  destruct (_parent x) eqn:Hpar; [discriminate|].
  assert (<[Chat._root ch := ChatEntry.clear_children x]> (entries st)
          !! Chat._root ch = Some (ChatEntry.clear_children x)) as Hr'.
  { apply list_lookup_insert_eq. eapply lookup_lt_Some; eauto. }
  eapply inv_after_init; [..|eassumption|eassumption]; simpl.
  - intros a e' p He' Hp.
    destruct (clear_children_lookup _ _ _ _ _ Hx He') as (e & He & Hpe & _).
    eapply (inv_parents _ _ Hinv); eauto. congruence.
  - intros p pe' c Hpe' Hc.
    destruct (clear_children_lookup _ _ _ _ _ Hx Hpe')
      as (pe & Hpe & _ & [Hch|Hch]); rewrite Hch in Hc; [|inversion Hc].
    destruct (inv_children _ _ Hinv _ _ _ Hpe Hc) as (ce & Hce & Hp).
    destruct (decide (Chat._root ch = c)) as [<-|Hne].
    + exists (ChatEntry.clear_children x). split; [assumption|].
      simpl. congruence.
    + exists ce. rewrite list_lookup_insert_ne by assumption. auto.
  - unfold ChatEntry.isRoot. simpl. rewrite (deref_Ok _ _ _ Hr'). simpl.
    rewrite Hpar. reflexivity.
  - intros p [= <-]. eapply live_top; [exact Hr'|]. simpl. assumption.
Qed.

Lemma run_inv c ch st ch' st' :
  inv ch st -> run c ch st = Ok (ch', st') -> inv ch' st'.
Proof.
  intros Hinv H. destruct c; simpl in H;
    try (inv_bind H; injection H as <- <-).
  - eauto using clear_inv.
  - eauto using addSibling_inv.
  - eauto using addDescendant_inv.
  - eauto using up_inv.
  - eauto using down_inv.
  - eauto using left_inv.
  - eauto using right_inv.
  - eauto using top_inv.
  - eauto using bottom_inv.
  - injection H as <- <-. auto using returnToCurrent_inv.
Qed.

(** [Chat()] in a store that holds no entry. *)
Lemma new_chat_inv st0 ch st :
  entries st0 = [] -> Chat.__init__ st0 = Ok (ch, st) -> inv ch st.
Proof.
  intros Hnil H. unfold Chat.__init__, ChatEntry.Default in H.
  cbv beta iota delta [new_message new_response] in H.
  inv_bind H. destruct x as [root st1].
  pose proof Hx as Hinit.
  apply init_spec in Hx as (Hself & _ & _ & Hlen & Hnew & _);
    [|intros; discriminate].
  simpl in *. rewrite Hnil in *. simpl in *. subst root.
  assert (forall a e, entries st1 !! a = Some e ->
                      a = 0 /\ _parent e = None /\ _children e = []) as Hone.
  { intros a e He. pose proof (lookup_lt_Some _ _ _ He).
    assert (a = 0) as -> by lia. rewrite Hnew in He. injection He as <-.
    auto. }
  eapply (clear_inv (Chat.mk 0 0 None 0 [0] [] 0)); [|eassumption].
  constructor; simpl.
  - intros a e p He Hp. destruct (Hone _ _ He) as (_ & Hp' & _). congruence.
  - intros p pe c Hpe Hc. destruct (Hone _ _ Hpe) as (_ & _ & Hch).
    rewrite Hch in Hc. inversion Hc.
  - unfold ChatEntry.isRoot. rewrite (deref_Ok _ _ _ Hnew). reflexivity.
  - eapply live_top; eauto.
  - eapply live_top; eauto.
  - unfold ChatEntry.isLeaf. rewrite (deref_Ok _ _ _ Hnew). reflexivity.
  - unfold ChatEntry.path. rewrite Hlen. simpl.
    rewrite (deref_Ok _ _ _ Hnew). reflexivity.
Qed.

Lemma reachable_inv ch st : reachable ch st -> inv ch st.
Proof.
  induction 1; eauto using new_chat_inv, run_inv, client_step_inv.
Qed.

(** In particular the root of a chat is always an entry without parent. *)
Lemma reachable_root_isRoot ch st :
  reachable ch st -> ChatEntry.isRoot (Chat._root ch) st = Ok true.
Proof. intros H. exact (inv_root _ _ (reachable_inv _ _ H)). Qed.
(** ** C2: the child [down] selects *)

Lemma path_walk a st p :
  ChatEntry.path a st = Ok p ->
  exists up, ChatEntry.walk (length (entries st)) (entries st) (Some a) = Ok up
             /\ p = reverse up.
Proof. unfold ChatEntry.path. intros H. inv_bind H. injection H as <-. eauto. Qed.

(** In a path, the entry that follows another is one of its children. *)
Lemma path_adjacent a st p i x y :
  ChatEntry.path a st = Ok p -> p !! i = Some x -> p !! S i = Some y ->
  exists e, entries st !! y = Some e /\ _parent e = Some x.
Proof.
  intros (up & Hw & ->)%path_walk Hx Hy.
  pose proof (lookup_lt_Some _ _ _ Hy) as Hlt. rewrite length_reverse in Hlt.
  rewrite reverse_lookup in Hx by lia. rewrite reverse_lookup in Hy by lia.
  replace (length up - S i) with (S (length up - S (S i))) in Hx by lia.
  eapply walk_adjacent; eauto.
Qed.

Lemma path_last a st p :
  ChatEntry.path a st = Ok p -> p !! (length p - 1) = Some a.
Proof.
  intros (up & Hw & ->)%path_walk. pose proof (walk_head _ _ _ _ Hw) as H0.
  pose proof (lookup_lt_Some _ _ _ H0). rewrite length_reverse.
  rewrite reverse_lookup by lia.
  replace (length up - S (length up - 1)) with 0 by lia. assumption.
Qed.

Lemma path_elems_live ch st :
  inv ch st -> Forall (live (entries st)) (Chat._path ch).
Proof.
  intros Hinv.
  destruct (live_path st (Chat._current ch)) as (p & Hp & Hall);
    eauto using inv_parents, inv_current.
  rewrite (inv_path _ _ Hinv) in Hp. injection Hp as <-. assumption.
Qed.

Lemma index_child st x e p pe :
  entries st !! x = Some e -> _parent e = Some p ->
  entries st !! p = Some pe -> x ∈ _children pe ->
  exists j, ChatEntry.index x st = Ok j /\ _children pe !! j = Some x.
Proof.
  intros He Hp Hpe Hin. unfold ChatEntry.index.
  rewrite (deref_Ok _ _ _ He). simpl. rewrite Hp, (deref_Ok _ _ _ Hpe). simpl.
  destruct (list_index_elem _ _ Hin) as [j Hj]. rewrite Hj.
  eauto using list_index_Some.
Qed.

Lemma move_cursor_Ok ch st x :
  inv ch st -> live (entries st) x ->
  exists ch', Chat._updateCursorAttrs (Chat.with_cursor x ch) st = Ok ch'
              /\ Chat._cursor ch' = x.
Proof.
  intros Hinv Hx.
  destruct (updateCursorAttrs_live (Chat.with_cursor x ch) st)
    as (cp & i & ->); eauto using inv_parents.
Qed.

(** [down] at a cursor that lies on the cached path and has several
    children: the entry after the cursor on the path is one of the children,
    and the cursor moves to it. *)
Lemma down_on_path (ch : Chat.t) (st : Store) (c : EntryObj) :
  inv ch st ->
  entries st !! Chat._cursor ch = Some c ->
  Chat._cursor ch ∈ Chat._path ch -> 1 < length (_children c) ->
  exists before next after ch',
    Chat._path ch = before ++ Chat._cursor ch :: next :: after
    /\ next ∈ _children c
    /\ Chat.down ch st = Ok ch' /\ Chat._cursor ch' = next.
Proof.
  intros Hinv Hc Hin Hlen.
  destruct (last (_children c)) as [lc|] eqn:Hlast;
    [|apply last_None in Hlast; rewrite Hlast in Hlen; simpl in Hlen; lia].
  destruct (list_index_elem _ _ Hin) as [i Hi].
  pose proof (list_index_Some _ _ _ Hi) as Hpi.
  pose proof (lookup_lt_Some _ _ _ Hpi) as Hilt.
  (* the cursor is not the last entry of the path: that one is a leaf *)
  assert (S i < length (Chat._path ch)) as Hnext.
  { destruct (decide (i = length (Chat._path ch) - 1)) as [->|]; [|lia].
    rewrite (path_last _ _ _ (inv_path _ _ Hinv)) in Hpi.
    injection Hpi as Heq. pose proof (inv_leaf _ _ Hinv) as Hleaf.
    unfold ChatEntry.isLeaf in Hleaf. rewrite Heq, (deref_Ok _ _ _ Hc) in Hleaf.
    simpl in Hleaf. destruct (_children c); [discriminate Hlast|discriminate]. }
  destruct (lookup_lt_is_Some_2 _ _ Hnext) as [next Hnx].
  destruct (path_adjacent _ _ _ _ _ _ (inv_path _ _ Hinv) Hpi Hnx)
    as (ne & Hne' & Hpar).
  assert (live (entries st) next) as Hlive.
  { pose proof (path_elems_live _ _ Hinv) as Hall.
    rewrite Forall_forall in Hall. eauto using list_elem_of_lookup_2. }
  assert (next ∈ _children c) as Hchild.
  { destruct Hlive as [? ? He Hp|? ? p pe He Hp Hpe Hch _]; [congruence|].
    assert (p = Chat._cursor ch) as -> by congruence.
    assert (pe = c) as -> by congruence. assumption. }
  destruct (index_child _ _ _ _ _ Hne' Hpar Hc Hchild) as (j & Hj & Hcj).
  destruct (move_cursor_Ok ch st next Hinv Hlive) as (ch' & Hch' & Hcur).
  exists (take i (Chat._path ch)), next, (drop (S (S i)) (Chat._path ch)), ch'.
  split; [|split; [assumption|split; [|assumption]]].
  - rewrite <- (take_drop i (Chat._path ch)) at 1. f_equal.
    rewrite (drop_S _ _ _ Hpi). f_equal. rewrite (drop_S _ _ _ Hnx).
    reflexivity.
  - unfold Chat.down. rewrite (deref_Ok _ _ _ Hc). simpl. rewrite Hlast.
    apply list_mem_elem in Hin. rewrite Hin.
    apply Nat.ltb_lt in Hlen. rewrite Hlen. simpl. rewrite Hi.
    unfold Chat.nth_or_IndexError. rewrite Nat.add_1_r, Hnx. simpl.
    rewrite Hj. simpl. rewrite Hcj. simpl. assumption.
Qed.

(** [down] at any other cursor that has a child: the cursor moves to the
    last child. *)
Lemma down_off_path (ch : Chat.t) (st : Store) (c : EntryObj) :
  inv ch st ->
  entries st !! Chat._cursor ch = Some c ->
  _children c <> [] ->
  ~ (Chat._cursor ch ∈ Chat._path ch /\ 1 < length (_children c)) ->
  exists last_child ch',
    last (_children c) = Some last_child
    /\ Chat.down ch st = Ok ch' /\ Chat._cursor ch' = last_child.
Proof.
  intros Hinv Hc Hne Hnot.
  destruct (last (_children c)) as [lc|] eqn:Hlast;
    [|apply last_None in Hlast; contradiction].
  assert (live (entries st) lc) as Hlive.
  { eapply live_child; eauto using inv_children, inv_cursor, last_elem. }
  destruct (move_cursor_Ok ch st lc Hinv Hlive) as (ch' & Hch' & Hcur).
  exists lc, ch'. split; [reflexivity|split; [|assumption]].
  unfold Chat.down. rewrite (deref_Ok _ _ _ Hc). simpl. rewrite Hlast.
  destruct (list_mem _ _ && _) eqn:Hcond; [|assumption].
  apply andb_prop in Hcond as [Hm%list_mem_elem Hl%Nat.ltb_lt].
  contradiction Hnot. auto.
Qed.

(** C2. In every reachable state where the cursor has a child: if the
    cursor lies on the cached path to the current entry and has more than
    one child, the entry that follows it on that path is one of its
    children and [down] moves the cursor to it; in every other case [down]
    moves the cursor to its last child.  (The cached path is the path of
    the current entry.) *)
Theorem down_follows_cached_path (ch : Chat.t) (st : Store) (c : EntryObj) :
  reachable ch st ->
  entries st !! Chat._cursor ch = Some c ->
  _children c <> [] ->
  ChatEntry.path (Chat._current ch) st = Ok (Chat._path ch)
  /\ (Chat._cursor ch ∈ Chat._path ch -> 1 < length (_children c) ->
      exists before next after ch',
        Chat._path ch = before ++ Chat._cursor ch :: next :: after
        /\ next ∈ _children c
        /\ Chat.down ch st = Ok ch' /\ Chat._cursor ch' = next)
  /\ (~ (Chat._cursor ch ∈ Chat._path ch /\ 1 < length (_children c)) ->
      exists last_child ch',
        last (_children c) = Some last_child
        /\ Chat.down ch st = Ok ch' /\ Chat._cursor ch' = last_child).
Proof.
  intros Hreach Hc Hne.
  pose proof (reachable_inv _ _ Hreach) as Hinv.
  split; [exact (inv_path _ _ Hinv)|]. split.
  - intros Hin Hlen. exact (down_on_path ch st c Hinv Hc Hin Hlen).
  - intros Hnot. exact (down_off_path ch st c Hinv Hc Hne Hnot).
Qed.
(** ** C1 and C3: a fresh chat, [clear] and [addDescendant] *)

Lemma init_Ok prompt resp parent st :
  (forall p, parent = Some p -> is_Some (entries st !! p)) ->
  exists st', ChatEntry.__init__ prompt resp parent st
              = Ok (length (entries st), st').
Proof.
  intros Hp. unfold ChatEntry.__init__. destruct parent as [p|]; [|eauto].
  destruct (Hp p eq_refl) as [pe Hpe].
  rewrite (deref_Ok _ p pe); [simpl; eauto|].
  rewrite lookup_app_l by (eapply lookup_lt_Some; eauto). assumption.
Qed.

(** The path of an entry constructed under [p] is the path of [p] followed
    by the entry. *)
Lemma init_path prompt resp p st new st' pth :
  ChatEntry.__init__ prompt resp (Some p) st = Ok (new, st') ->
  ChatEntry.path p st = Ok pth ->
  ChatEntry.path new st' = Ok (pth ++ [new]).
Proof.
  intros Hinit (up & Hw & ->)%path_walk.
  assert (forall q, Some p = Some q -> q < length (entries st)) as Hlt.
  { intros q [= <-]. apply walk_Some_inv in Hw as (? & e & ? & _ & He & _).
    eapply lookup_lt_Some; eauto. }
  destruct (init_spec _ _ _ _ _ _ Hinit Hlt) as (Hself & _ & _ & Hlen & Hnew & _).
  unfold ChatEntry.path. rewrite Hlen. simpl.
  rewrite (deref_Ok _ _ _ Hnew). simpl.
  erewrite walk_same_parents; [| |rewrite Hself; exact Hw].
  - simpl. rewrite reverse_cons. reflexivity.
  - intros a e He. destruct (init_extends _ _ _ _ _ _ Hinit Hlt _ _ He)
      as (e' & He' & Hp & _). eauto.
Qed.

Lemma init_index prompt resp p st new st' :
  ChatEntry.__init__ prompt resp (Some p) st = Ok (new, st') ->
  p < length (entries st) ->
  exists i, ChatEntry.index new st' = Ok i.
Proof.
  intros Hinit Hlt.
  assert (forall q, Some p = Some q -> q < length (entries st)) as Hlt'
    by (intros q [= <-]; assumption).
  destruct (init_spec _ _ _ _ _ _ Hinit Hlt') as (_ & _ & _ & _ & Hnew & Hold).
  destruct (lookup_lt_is_Some_2 _ _ Hlt) as [pe Hpe].
  specialize (Hold _ _ Hpe). rewrite decide_True in Hold by reflexivity.
  unfold ChatEntry.index. rewrite (deref_Ok _ _ _ Hnew). simpl.
  rewrite (deref_Ok _ _ _ Hold). simpl.
  destruct (list_index_elem new (_children pe ++ [new])) as [i ->]; [|eauto].
  apply elem_of_app. right. constructor.
Qed.

(** [addDescendant] at a cursor whose path is [pth] returns, and the path of
    the new current entry is [pth] with that entry appended. *)
Lemma addDescendant_path prompt resp ch st pth :
  ChatEntry.path (Chat._cursor ch) st = Ok pth ->
  exists ch' st',
    Chat.addDescendant prompt resp ch st = Ok (ch', st')
    /\ Chat._cursor ch' = Chat._current ch'
    /\ Chat._root ch' = Chat._root ch
    /\ ChatEntry.path (Chat._current ch') st'
       = Ok (pth ++ [Chat._current ch']).
Proof.
  intros Hpth.
  assert (is_Some (entries st !! Chat._cursor ch)) as Hc.
  { apply path_walk in Hpth as (up & Hw & _).
    apply walk_Some_inv in Hw as (? & e & ? & _ & He & _). eauto. }
  destruct (init_Ok prompt
              (Some (default default_response_addDescendant resp))
              (Some (Chat._cursor ch)) st) as (st' & Hinit).
  { intros p [= <-]. assumption. }
  pose proof (init_path _ _ _ _ _ _ _ Hinit Hpth) as Hnewpath.
  destruct (init_index _ _ _ _ _ _ Hinit) as (i & Hidx).
  { destruct Hc as [e He]. eapply lookup_lt_Some; eauto. }
  eexists _, st'. split.
  - unfold Chat.addDescendant. rewrite Hinit. simpl. rewrite Hnewpath. simpl.
    unfold Chat._updateCursorAttrs. simpl. rewrite Hnewpath, Hidx. simpl.
    reflexivity.
  - simpl. auto.
Qed.

(** [clear] on a chat whose root entry has no parent. *)
Lemma clear_spec (ch : Chat.t) (st : Store) :
  ChatEntry.isRoot (Chat._root ch) st = Ok true ->
  let root := Chat._root ch in
  let n := length (entries st) in
  exists st' r,
    Chat.clear ch st = Ok (Chat.mk n root None n [root; n] [root; n] 0, st')
    /\ entries st !! root = Some r
    /\ entries st' !! root = Some (mkEntry None [n] (_prompt r) (_response r))
    /\ entries st' !! n
       = Some (mkEntry (Some root) [] (length (messages st))
                 (length (responses st)))
    /\ messages st' = messages st ++ [Message.Default]
    /\ responses st' = responses st ++ [Response.Default]
    /\ ChatEntry.path n st' = Ok [root; n].
Proof.
  unfold ChatEntry.isRoot. intros H.
  apply bind_Ok_inv in H as (r & Hr%deref_Ok_inv & Hp).
  destruct (_parent r) eqn:Hpar; [discriminate|]. clear Hp.
  destruct st as [es rs ms]; simpl in *.
  set (root := Chat._root ch) in *.
  assert (Hlt : root < length es) by (eapply lookup_lt_Some; eauto).
  set (n := length es).
  set (new := mkEntry (Some root) [] (length ms) (length rs)).
  set (r0 := ChatEntry.clear_children r).
  set (E := <[root := ChatEntry.append_child n r0]> (<[root := r0]> es ++ [new])).
  assert (Hlen : length E = S n).
  { unfold E. rewrite length_insert, length_app, length_insert. simpl.
    unfold n. lia. }
  assert (HEroot : E !! root = Some (ChatEntry.append_child n r0)).
  { unfold E. apply list_lookup_insert_eq.
    rewrite length_app, length_insert. lia. }
  assert (HEn : E !! n = Some new).
  { unfold E. rewrite list_lookup_insert_ne by (unfold n; lia).
    rewrite lookup_app_r by (rewrite length_insert; unfold n; lia).
    rewrite length_insert. unfold n. rewrite Nat.sub_diag. reflexivity. }
  assert (Hpath : ChatEntry.path n
                    (mkStore E (rs ++ [Response.Default])
                       (ms ++ [Message.Default])) = Ok [root; n]).
  { unfold ChatEntry.path. simpl. rewrite Hlen.
    destruct n as [|n'] eqn:Hn; [unfold n in Hn; lia|].
    simpl. rewrite (deref_Ok _ _ _ HEn). simpl.
    rewrite (deref_Ok _ _ _ HEroot). simpl. rewrite Hpar, walk_None.
    reflexivity. }
  exists (mkStore E (rs ++ [Response.Default]) (ms ++ [Message.Default])), r.
  split.
  2:{ unfold r0, ChatEntry.append_child, ChatEntry.clear_children in HEroot.
      simpl in HEroot. rewrite Hpar in HEroot. auto 10. }
  unfold Chat.clear. simpl. fold root. rewrite (deref_Ok _ _ _ Hr). simpl.
  unfold ChatEntry.__init__. simpl. rewrite length_insert.
  fold n. fold r0. fold new.
  rewrite (deref_Ok (<[root:=r0]> es ++ [new]) root r0).
  2:{ rewrite lookup_app_l by (rewrite length_insert; lia).
      apply list_lookup_insert_eq; lia. }
  simpl. unfold with_entries. simpl. fold E. rewrite Hpath. simpl. reflexivity.
Qed.

(** C3. After [clear()], on a chat in any state (its root entry being a
    root), [isDefault()] is true and the four [canMove...] tests are
    false. *)
Theorem clear_yields_default (ch : Chat.t) (st : Store) :
  ChatEntry.isRoot (Chat._root ch) st = Ok true ->
  exists ch' st',
    Chat.clear ch st = Ok (ch', st')
    /\ Chat.isDefault ch' st' = Ok true
    /\ Chat.canMoveUp ch' st' = Ok false
    /\ Chat.canMoveDown ch' st' = Ok false
    /\ Chat.canMoveLeft ch' st' = Ok false
    /\ Chat.canMoveRight ch' st' = Ok false.
Proof.
  intros Hroot.
  destruct (clear_spec ch st Hroot)
    as (st' & r & Hclear & _ & Hr & Hn & Hms & Hrs & _).
  eexists _, st'. split; [exact Hclear|].
  assert (messages st' !! length (messages st) = Some Message.Default) as Hm.
  { rewrite Hms, lookup_app_r by lia. rewrite Nat.sub_diag. reflexivity. }
  assert (responses st' !! length (responses st) = Some Response.Default) as Hd.
  { rewrite Hrs, lookup_app_r by lia. rewrite Nat.sub_diag. reflexivity. }
  unfold Chat.isDefault, Chat.canMoveUp, Chat.canMoveDown, Chat.canMoveLeft,
    Chat.canMoveRight. simpl.
  rewrite (deref_Ok _ _ _ Hn), (deref_Ok _ _ _ Hr). simpl.
  rewrite (deref_Ok _ _ _ Hm), (deref_Ok _ _ _ Hd). simpl.
  rewrite Nat.eqb_refl. simpl. rewrite (deref_Ok _ _ _ Hr). simpl.
  repeat split; reflexivity.
Qed.

(** A new chat: the root sentinel and the empty entry under it. *)
Lemma new_chat_spec (st0 : Store) :
  exists ch st,
    Chat.__init__ st0 = Ok (ch, st)
    /\ Chat._cursor ch = Chat._current ch
    /\ Chat._root ch = length (entries st0)
    /\ ChatEntry.path (Chat._current ch) st
       = Ok [Chat._root ch; Chat._current ch].
Proof.
  unfold Chat.__init__, ChatEntry.Default.
  cbv beta iota delta [new_message new_response ChatEntry.__init__]. simpl.
  set (st1 := with_entries _ _).
  destruct (clear_spec (Chat.mk (length (entries st0)) (length (entries st0))
                          None (length (entries st0)) [] [] 0) st1)
    as (st' & r & Hclear & _ & _ & _ & _ & _ & Hpath).
  { unfold ChatEntry.isRoot, st1. simpl.
    rewrite (deref_Ok _ _ (mkEntry None [] (length (messages st0))
                             (length (responses st0)))); [reflexivity|].
    rewrite lookup_app_r by lia. rewrite Nat.sub_diag. reflexivity. }
  simpl in *. rewrite Hclear. eexists _, _. split; [reflexivity|].
  simpl. auto.
Qed.

(** The calls [addDescendant(p1, r1)], ..., [addDescendant(pn, rn)]: each
    extends the path of the current entry by one entry. *)
Lemma addDescendants_path args : forall ch st pth,
  Chat._cursor ch = Chat._current ch ->
  ChatEntry.path (Chat._current ch) st = Ok pth ->
  exists ch' st' added,
    run_all (map (fun a => AddDescendant a.1 a.2) args) ch st = Ok (ch', st')
    /\ Chat._cursor ch' = Chat._current ch'
    /\ Chat._root ch' = Chat._root ch
    /\ ChatEntry.path (Chat._current ch') st' = Ok (pth ++ added)
    /\ length added = length args.
Proof.
  induction args as [|[p r] args IH]; intros ch st pth Hcur Hpth; simpl.
  - exists ch, st, []. rewrite app_nil_r. repeat split; auto.
  - rewrite <- Hcur in Hpth.
    destruct (addDescendant_path p r ch st pth Hpth)
      as (ch1 & st1 & -> & Hcur1 & Hroot1 & Hp1). simpl.
    destruct (IH ch1 st1 _ Hcur1 Hp1)
      as (ch' & st' & added & -> & Hc' & Hroot' & Hp' & Hlen).
    exists ch', st', (Chat._current ch1 :: added).
    rewrite <- app_assoc in Hp'. repeat split; auto; [congruence|].
    simpl. lia.
Qed.

(** C1 (as the code has it). For a chat constructed in any store and any
    sequence of [addDescendant] calls, with any prompts and responses, every
    call returns and the path of the current entry has two entries more
    than there were calls: it starts with the root sentinel and the empty
    entry that [clear] made. *)
Theorem path_length_after_addDescendants
    (st0 : Store) (args : list (addr * option addr)) :
  exists ch st p,
    session st0 (map (fun a => AddDescendant a.1 a.2) args) = Ok (ch, st)
    /\ ChatEntry.path (Chat._current ch) st = Ok p
    /\ length p = length args + 2
    /\ p !! 0 = Some (Chat._root ch).
Proof.
  destruct (new_chat_spec st0) as (ch0 & st1 & Hnew & Hcur & _ & Hpath).
  destruct (addDescendants_path args ch0 st1 _ Hcur Hpath)
    as (ch & st & added & Hrun & _ & Hroot & Hp & Hlen).
  exists ch, st, ([Chat._root ch0; Chat._current ch0] ++ added).
  unfold session. rewrite Hnew. simpl. rewrite Hrun, Hroot.
  repeat split; auto. simpl. lia.
Qed.

(** C1, counterexample to the claim as stated: after one [addDescendant] of
    a user message on a fresh chat, the path of the current entry has three
    entries, the first of which is the root. *)
Lemma path_length_is_not_call_count :
  exists ch st p,
    session store_hi_hello [AddDescendant 0 None] = Ok (ch, st)
    /\ ChatEntry.path (Chat._current ch) st = Ok p
    /\ length p <> 1
    /\ p !! 0 = Some (Chat._root ch).
Proof.
  eexists _, _, _. split; [vm_compute; reflexivity|].
  split; [vm_compute; reflexivity|]. split; [discriminate|reflexivity].
Qed.

(** *** Witnesses *)

Lemma reachable_session st0 cs ch st :
  entries st0 = [] -> session st0 cs = Ok (ch, st) -> reachable ch st.
Proof.
  unfold session. intros Hnil H. inv_bind H. destruct x as [ch0 st1].
  assert (reachable ch0 st1) as Hr by (eapply reach_new; eauto).
  clear Hx. revert ch0 st1 Hr H.
  induction cs as [|c cs IH]; simpl; intros ch0 st1 Hr H.
  - injection H as <- <-. assumption.
  - inv_bind H. destruct x as [ch1 st2]. eapply IH; [|eassumption].
    eapply reach_call; eauto.
Qed.

Lemma down_follows_cached_path_witness :
  let ch := fork_state.1 in
  let st := fork_state.2 in
  let c := mkEntry (Some 0) [2; 3] 3 4 in
  ChatEntry.path (Chat._current ch) st = Ok (Chat._path ch)
  /\ (Chat._cursor ch ∈ Chat._path ch -> 1 < length (_children c) ->
      exists before next after ch',
        Chat._path ch = before ++ Chat._cursor ch :: next :: after
        /\ next ∈ _children c
        /\ Chat.down ch st = Ok ch' /\ Chat._cursor ch' = next)
  /\ (~ (Chat._cursor ch ∈ Chat._path ch /\ 1 < length (_children c)) ->
      exists last_child ch',
        last (_children c) = Some last_child
        /\ Chat.down ch st = Ok ch' /\ Chat._cursor ch' = last_child).
Proof.
  apply (down_follows_cached_path fork_state.1 fork_state.2
           (mkEntry (Some 0) [2; 3] 3 4)).
  - apply (reachable_session store_hi_hello
             [AddDescendant 0 None; Up; AddDescendant 0 None; Left;
              AddDescendant 1 None; Up; Up]); reflexivity.
  - reflexivity.
  - discriminate.
Defined.

Lemma clear_yields_default_witness :
  exists ch' st',
    Chat.clear fork_state.1 fork_state.2 = Ok (ch', st')
    /\ Chat.isDefault ch' st' = Ok true
    /\ Chat.canMoveUp ch' st' = Ok false
    /\ Chat.canMoveDown ch' st' = Ok false
    /\ Chat.canMoveLeft ch' st' = Ok false
    /\ Chat.canMoveRight ch' st' = Ok false.
Proof. apply (clear_yields_default fork_state.1 fork_state.2). reflexivity. Defined.

(** ** C4 and C5: navigation at the borders *)

(** C4, the failing run. [returnToCurrent] moves the cursor and leaves the
    cached sibling index as it was; here the index is that of the parent
    (1) while the cursor is an only child, so [canMoveRight] is true and
    [right] subscripts the list of siblings out of range. *)
Theorem right_raises_after_returnToCurrent :
  exists ch st,
    session store_hi_hello stale_index_calls = Ok (ch, st)
    /\ ChatEntry.index (Chat._cursor ch) st = Ok 0
    /\ Chat._cursorSiblingIndex ch = 1
    /\ Chat.canMoveRight ch st = Ok true
    /\ Chat.right ch st = Raise IndexError.
Proof.
  eexists _, _. split; [vm_compute; reflexivity|].
  repeat split; vm_compute; reflexivity.
Qed.

(** C5, the failing run. After one [addDescendant] the cursor is below the
    first level; [top] moves it to the first entry of the cached path, which
    is the root sentinel and not the first real entry (entry 1). *)
Theorem top_moves_cursor_to_root_sentinel :
  exists ch st ch',
    session store_hi_hello [AddDescendant 0 None] = Ok (ch, st)
    /\ Chat.canMoveUp ch st = Ok true
    /\ Chat._path ch = [Chat._root ch; 1; Chat._current ch]
    /\ Chat.top ch st = Ok ch'
    /\ Chat._cursor ch' = Chat._root ch'
    /\ ChatEntry.isRoot (Chat._cursor ch') st = Ok true.
Proof.
  eexists _, _, _. split; [vm_compute; reflexivity|].
  split; [vm_compute; reflexivity|]. split; [reflexivity|].
  split; [vm_compute; reflexivity|]. split; reflexivity.
Qed.

(** *** Navigation with an up-to-date sibling index *)

(** A direction that is not available leaves the chat as it is, in any
    state. *)
Lemma unavailable_is_noop ch st :
  (Chat.canMoveUp ch st = Ok false -> Chat.up ch st = Ok ch)
  /\ (Chat.canMoveUp ch st = Ok false -> Chat.top ch st = Ok ch)
  /\ (Chat.canMoveDown ch st = Ok false -> Chat.down ch st = Ok ch)
  /\ (Chat.canMoveDown ch st = Ok false -> Chat.bottom ch st = Ok ch)
  /\ (Chat.canMoveLeft ch st = Ok false -> Chat.left ch st = Ok ch)
  /\ (Chat.canMoveRight ch st = Ok false -> Chat.right ch st = Ok ch).
Proof.
  unfold Chat.canMoveUp, Chat.canMoveDown, Chat.canMoveLeft, Chat.canMoveRight,
    Chat.up, Chat.top, Chat.down, Chat.bottom, Chat.left, Chat.right.
  repeat apply conj; intros H.
  - inv_bind H. rewrite Hx. simpl. destruct (_parent x); [|reflexivity].
    injection H as H. apply negb_false_iff in H. rewrite H. reflexivity.
  - inv_bind H. rewrite Hx. simpl. destruct (_parent x); [|reflexivity].
    injection H as H. apply negb_false_iff in H. rewrite H. reflexivity.
  - inv_bind H. rewrite Hx. simpl. destruct (_children x); [reflexivity|].
    discriminate.
  - inv_bind H. rewrite Hx. simpl. destruct (_children x); [reflexivity|].
    discriminate.
  - injection H as H. apply negb_false_iff in H. rewrite H. reflexivity.
  - inv_bind H. rewrite Hx. simpl. destruct (_parent x); [|reflexivity].
    inv_bind H. rewrite Hx0. simpl. injection H as H.
    apply negb_false_iff in H. rewrite H. reflexivity.
Qed.

(** With the invariant and an up-to-date sibling index, every navigation
    call returns. *)
Lemma navigation_returns ch st c :
  inv ch st -> fresh_index ch st -> is_navigation c = true ->
  exists ch', run c ch st = Ok (ch', st).
Proof.
  intros Hinv Hfresh Hnav.
  destruct (live_lookup _ _ (inv_cursor _ _ Hinv)) as (ce & Hce).
  assert (forall x, live (entries st) x ->
            exists ch', (let* ch' := Chat._updateCursorAttrs
                                      (Chat.with_cursor x ch) st
                         in Ok (ch', st)) = Ok (ch', st)) as Hmove.
  { intros x Hx. destruct (move_cursor_Ok ch st x Hinv Hx) as (ch' & -> & _).
    simpl. eauto. }
  destruct c; try discriminate; simpl.
  - (* up *)
    unfold Chat.up. rewrite (deref_Ok _ _ _ Hce). simpl.
    destruct (_parent ce) as [p|] eqn:Hp; [|simpl; eauto].
    destruct (Nat.eqb p (Chat._root ch)); [simpl; eauto|].
    apply Hmove. eapply live_parent; eauto using inv_cursor.
  - (* down *)
    destruct (_children ce) as [|c0 cs] eqn:Hch.
    { unfold Chat.down. rewrite (deref_Ok _ _ _ Hce). simpl. rewrite Hch.
      simpl. eauto. }
    destruct (decide (Chat._cursor ch ∈ Chat._path ch
                      /\ 1 < length (_children ce))) as [[Hin Hlen]|Hnot].
    + destruct (down_on_path ch st ce Hinv Hce Hin Hlen)
        as (? & ? & ? & ch' & _ & _ & -> & _).
      simpl. eauto.
    + destruct (down_off_path ch st ce Hinv Hce) as (? & ch' & _ & -> & _);
        [rewrite Hch; discriminate|assumption|].
      simpl. eauto.
  - (* left *)
    unfold Chat.left.
    destruct (Nat.eqb_spec (Chat._cursorSiblingIndex ch) 0) as [|Hne];
      [simpl; eauto|].
    rewrite (deref_Ok _ _ _ Hce). simpl.
    unfold fresh_index, ChatEntry.index in Hfresh.
    rewrite (deref_Ok _ _ _ Hce) in Hfresh. simpl in Hfresh.
    destruct (_parent ce) as [p|] eqn:Hp; [|congruence].
    inv_bind Hfresh. rewrite Hx. simpl. apply deref_Ok_inv in Hx.
    destruct (list_index _ _) as [i|] eqn:Hi; [|discriminate].
    injection Hfresh as ->. apply list_index_Some in Hi.
    pose proof (lookup_lt_Some _ _ _ Hi).
    destruct (lookup_lt_is_Some_2 (_children x) (Chat._cursorSiblingIndex ch - 1))
      as [sib Hsib]; [lia|].
    unfold Chat.nth_or_IndexError. rewrite Hsib. simpl.
    apply Hmove. eapply sibling_live; eauto using list_elem_of_lookup_2.
  - (* right *)
    unfold Chat.right. rewrite (deref_Ok _ _ _ Hce). simpl.
    unfold fresh_index, ChatEntry.index in Hfresh.
    rewrite (deref_Ok _ _ _ Hce) in Hfresh. simpl in Hfresh.
    destruct (_parent ce) as [p|] eqn:Hp; [|simpl; eauto].
    inv_bind Hfresh. rewrite Hx. simpl. apply deref_Ok_inv in Hx.
    destruct (list_index _ _) as [i|] eqn:Hi; [|discriminate].
    injection Hfresh as ->. apply list_index_Some in Hi.
    pose proof (lookup_lt_Some _ _ _ Hi).
    destruct (Z.eqb_spec (Z.of_nat (Chat._cursorSiblingIndex ch))
                (Z.of_nat (length (_children x)) - 1)) as [|Hne];
      [simpl; eauto|].
    destruct (lookup_lt_is_Some_2 (_children x) (Chat._cursorSiblingIndex ch + 1))
      as [sib Hsib]; [lia|].
    unfold Chat.nth_or_IndexError. rewrite Hsib. simpl.
    apply Hmove. eapply sibling_live; eauto using list_elem_of_lookup_2.
  - (* top *)
    unfold Chat.top. rewrite (deref_Ok _ _ _ Hce). simpl.
    destruct (_parent ce) as [p|] eqn:Hp; [|simpl; eauto].
    destruct (Nat.eqb p (Chat._root ch)); [simpl; eauto|].
    pose proof (path_last _ _ _ (inv_path _ _ Hinv)) as Hlast.
    destruct (Chat._path ch) as [|first rest] eqn:Hpath; [discriminate|].
    simpl. apply Hmove.
    pose proof (path_elems_live _ _ Hinv) as Hall. rewrite Hpath in Hall.
    inversion Hall. assumption.
  - (* bottom *)
    unfold Chat.bottom. rewrite (deref_Ok _ _ _ Hce). simpl.
    destruct (_children ce); [simpl; eauto|].
    apply Hmove. eauto using inv_current.
Qed.

(** [_updateCursorAttrs] brings the sibling index up to date. *)
Lemma updateCursorAttrs_fresh ch st ch' :
  Chat._updateCursorAttrs ch st = Ok ch' -> fresh_index ch' st.
Proof.
  unfold Chat._updateCursorAttrs, fresh_index. intros H.
  inv_bind H. inv_bind H. injection H as <-. simpl. assumption.
Qed.

(** Every navigation call keeps the sibling index up to date;
    [returnToCurrent] has no such property. *)
Lemma navigation_keeps_fresh ch st c ch' st' :
  fresh_index ch st -> is_navigation c = true ->
  run c ch st = Ok (ch', st') -> fresh_index ch' st'.
Proof.
  intros Hfresh Hnav H.
  destruct c; try discriminate; simpl in H; inv_bind H;
    injection H as <- <-.
  - unfold Chat.up in Hx. inv_bind Hx.
    destruct (_parent x0); [|congruence].
    destruct (Nat.eqb _ _); [congruence|eauto using updateCursorAttrs_fresh].
  - unfold Chat.down in Hx. inv_bind Hx.
    destruct (last _); [|congruence]. inv_bind Hx.
    eauto using updateCursorAttrs_fresh.
  - unfold Chat.left in Hx. destruct (Nat.eqb _ 0); [congruence|].
    inv_bind Hx. destruct (_parent x0); [|discriminate].
    inv_bind Hx. inv_bind Hx. eauto using updateCursorAttrs_fresh.
  - unfold Chat.right in Hx. inv_bind Hx.
    destruct (_parent x0); [|congruence]. inv_bind Hx.
    destruct (_ =? _)%Z; [congruence|]. inv_bind Hx.
    eauto using updateCursorAttrs_fresh.
  - unfold Chat.top in Hx. inv_bind Hx.
    destruct (_parent x0); [|congruence].
    destruct (Nat.eqb _ _); [congruence|]. inv_bind Hx.
    eauto using updateCursorAttrs_fresh.
  - unfold Chat.bottom in Hx. inv_bind Hx.
    destruct (_children x0); [congruence|eauto using updateCursorAttrs_fresh].
Qed.

Lemma add_keeps_fresh ch st c ch' st' :
  match c with AddSibling _ _ | AddDescendant _ _ => True | _ => False end ->
  run c ch st = Ok (ch', st') -> fresh_index ch' st'.
Proof.
  intros Hc H. destruct c; try contradiction; simpl in H.
  - unfold Chat.addSibling in H.
    inv_bind H. inv_bind H. inv_bind H. inv_bind H. inv_bind H.
    destruct x3 as [new st1]. inv_bind H. inv_bind H. injection H as <- <-.
    eauto using updateCursorAttrs_fresh.
  - unfold Chat.addDescendant in H.
    inv_bind H. destruct x as [new st1]. inv_bind H. inv_bind H.
    injection H as <- <-. eauto using updateCursorAttrs_fresh.
Qed.

Lemma clear_fresh ch st ch' st' :
  inv ch st -> Chat.clear ch st = Ok (ch', st') -> fresh_index ch' st'.
Proof.
  intros Hinv H.
  destruct (clear_spec ch st (inv_root _ _ Hinv))
    as (st2 & r & Hclear & _ & Hr & Hn & _).
  rewrite Hclear in H. injection H as <- <-.
  unfold fresh_index, ChatEntry.index. simpl.
  rewrite (deref_Ok _ _ _ Hn). simpl. rewrite (deref_Ok _ _ _ Hr). simpl.
  rewrite Nat.eqb_refl. reflexivity.
Qed.

Lemma index_same_shape st st' a i :
  (forall x e, entries st !! x = Some e ->
     exists e', entries st' !! x = Some e' /\ _parent e' = _parent e
                /\ _children e' = _children e) ->
  ChatEntry.index a st = Ok i -> ChatEntry.index a st' = Ok i.
Proof.
  intros Hsame H. unfold ChatEntry.index in *.
  inv_bind H. apply deref_Ok_inv in Hx.
  destruct (Hsame _ _ Hx) as (e' & He' & Hp & _).
  rewrite (deref_Ok _ _ _ He'). simpl. rewrite Hp.
  destruct (_parent x) as [p|]; [|assumption].
  inv_bind H. apply deref_Ok_inv in Hx0.
  destruct (Hsame _ _ Hx0) as (pe' & Hpe' & _ & Hch).
  rewrite (deref_Ok _ _ _ Hpe'). simpl. rewrite Hch. assumption.
Qed.

Lemma client_step_fresh ch st st' :
  client_step st st' -> fresh_index ch st -> fresh_index ch st'.
Proof.
  unfold fresh_index. intros Hstep. apply index_same_shape.
  destruct Hstep; simpl; eauto.
  intros x ex Hx. destruct (decide (a = x)) as [->|Hne].
  - rewrite list_lookup_insert_eq by (eapply lookup_lt_Some; eauto).
    assert (ex = e) as -> by congruence. eexists. split; [reflexivity|].
    simpl. auto.
  - rewrite list_lookup_insert_ne by assumption. eauto.
Qed.

Lemma new_chat_fresh st0 ch st :
  Chat.__init__ st0 = Ok (ch, st) -> fresh_index ch st.
Proof.
  intros H. unfold Chat.__init__, ChatEntry.Default in H.
  cbv beta iota delta [new_message new_response] in H.
  inv_bind H. destruct x as [root st1].
  apply init_spec in Hx as (_ & _ & _ & _ & He & _); [|intros; discriminate].
  set (ch0 := Chat.mk root root None root [] [] 0) in *.
  assert (ChatEntry.isRoot (Chat._root ch0) st1 = Ok true) as Hroot.
  { unfold ChatEntry.isRoot. simpl. rewrite (deref_Ok _ _ _ He). reflexivity. }
  destruct (clear_spec ch0 st1 Hroot) as (st2 & r & Hclear & _ & Hr & Hn & _).
  rewrite Hclear in H. injection H as <- <-. subst ch0. simpl in *.
  unfold fresh_index, ChatEntry.index. simpl.
  rewrite (deref_Ok _ _ _ Hn). simpl. rewrite (deref_Ok _ _ _ Hr). simpl.
  rewrite Nat.eqb_refl. reflexivity.
Qed.

Lemma reachable_without_returnToCurrent_fresh ch st :
  reachable_without_returnToCurrent ch st -> reachable ch st /\ fresh_index ch st.
Proof.
  induction 1 as [st0 ch st Hnil Hnew|c ch st ch' st' _ [Hr Hf] Hc Hrun
                  |ch st st' _ [Hr Hf] Hstep].
  - split; [eapply reach_new; eauto|eapply new_chat_fresh; eauto].
  - split; [eapply reach_call; eauto|].
    destruct c; try contradiction;
      try (eapply navigation_keeps_fresh; eauto; reflexivity);
      try (eapply add_keeps_fresh; eauto; exact I).
    eapply clear_fresh; eauto using reachable_inv.
  - split; [eapply reach_client; eauto|eapply client_step_fresh; eauto].
Qed.

(** The part of C4 that holds: in every state reached without
    [returnToCurrent], every navigation call returns (it raises nothing),
    and a call in a direction that is not available changes nothing. *)
Lemma navigation_never_raises_without_returnToCurrent ch st c :
  reachable_without_returnToCurrent ch st -> is_navigation c = true ->
  exists ch', run c ch st = Ok (ch', st).
Proof.
  intros [Hr Hf]%reachable_without_returnToCurrent_fresh Hnav.
  eapply navigation_returns; eauto using reachable_inv.
Qed.

(** *** Where [top] lands *)

Lemma walk_last_parentless fuel es o up x :
  ChatEntry.walk fuel es o = Ok up -> last up = Some x ->
  exists e, es !! x = Some e /\ _parent e = None.
Proof.
  revert o up. induction fuel as [|fuel IH]; intros o up H Hlast.
  - destruct o; [discriminate|]. injection H as <-. discriminate.
  - destruct o as [a|]; [|injection H as <-; discriminate].
    apply walk_Some_inv in H as (? & e & up' & [= <-] & He & Hw & ->).
    destruct up' as [|b up'].
    + injection Hlast as <-. exists e. split; [assumption|].
      destruct (_parent e) as [p|]; [|reflexivity].
      destruct fuel; [discriminate|].
      apply walk_Some_inv in Hw as (? & ? & ? & _ & _ & _ & [=]).
    + eapply IH; eauto.
Qed.

(** Whenever [top] moves the cursor, it moves it to the first entry of the
    cached path, and that entry has no parent: it is the root of the tree
    that holds the current entry, not an entry under it. *)
Lemma top_lands_on_parentless_entry ch st ce p :
  inv ch st ->
  entries st !! Chat._cursor ch = Some ce -> _parent ce = Some p ->
  p <> Chat._root ch ->
  exists ch' first,
    Chat.top ch st = Ok ch' /\ Chat._cursor ch' = first
    /\ Chat._path ch !! 0 = Some first
    /\ ChatEntry.isRoot first st = Ok true.
Proof.
  intros Hinv Hce Hp Hne.
  pose proof (inv_path _ _ Hinv) as Hpath.
  apply path_walk in Hpath as (up & Hw & Hrev).
  pose proof (walk_head _ _ _ _ Hw) as Hhead.
  assert (exists first, Chat._path ch !! 0 = Some first /\ last up = Some first)
    as (first & Hfirst & Hlast).
  { rewrite Hrev. rewrite last_lookup.
    pose proof (lookup_lt_Some _ _ _ Hhead).
    rewrite reverse_lookup by lia.
    replace (length up - 1) with (pred (length up)) by lia.
    destruct (lookup_lt_is_Some_2 up (pred (length up))) as [f Hf]; [lia|].
    exists f. auto. }
  destruct (walk_last_parentless _ _ _ _ _ Hw Hlast) as (fe & Hfe & Hfp).
  assert (live (entries st) first) as Hlive.
  { pose proof (path_elems_live _ _ Hinv) as Hall.
    rewrite Forall_forall in Hall. eauto using list_elem_of_lookup_2. }
  destruct (move_cursor_Ok ch st first Hinv Hlive) as (ch' & Hch' & Hcur).
  exists ch', first. repeat split; auto.
  - unfold Chat.top. rewrite (deref_Ok _ _ _ Hce). simpl. rewrite Hp.
    apply Nat.eqb_neq in Hne. rewrite Hne.
    unfold Chat.nth_or_IndexError. rewrite Hfirst. simpl. assumption.
  - unfold ChatEntry.isRoot. rewrite (deref_Ok _ _ _ Hfe). simpl.
    rewrite Hfp. reflexivity.
Qed.

(** ** C6: the messages of an entry *)

Lemma messages_from_S i rest st ms :
  ChatEntry.messages_from (S i) rest st = Ok ms ->
  exists parts,
    Forall2 (fun e part => ChatEntry.entry_messages e st = Ok part) rest parts
    /\ ms = concat parts.
Proof.
  revert i ms. induction rest as [|e rest IH]; intros i ms H; simpl in H.
  - injection H as <-. exists []. split; [constructor|reflexivity].
  - inv_bind H. inv_bind H. injection H as <-.
    destruct (IH _ _ Hx0) as (parts & Hparts & ->).
    exists (x :: parts). split; [constructor; assumption|reflexivity].
Qed.

(** C6 (as the code has it). [messages()] walks the path of the entry from
    its root: the root contributes nothing when its content is the default,
    and every other entry contributes its prompt followed by the first
    choice of its response, when it has one.  In scenario 1 the path of the
    current entry has four entries (the root sentinel, the empty entry made
    by [clear], and the two added ones) and [messages()] returns the empty
    prompt of the entry made by [clear], the user message, the assistant
    message held by the response of the first added entry, and the assistant
    message that is the prompt of the second. *)
Theorem messages_linearize_path :
  (forall self st ms,
     ChatEntry.messages self st = Ok ms ->
     exists root rest own parts,
       ChatEntry.path self st = Ok (root :: rest)
       /\ ((ChatEntry.isDefaultContent root st = Ok true /\ own = [])
           \/ (ChatEntry.isDefaultContent root st = Ok false
               /\ ChatEntry.entry_messages root st = Ok own))
       /\ Forall2 (fun e part => ChatEntry.entry_messages e st = Ok part)
            rest parts
       /\ ms = own ++ concat parts)
  /\ exists ch st p ms,
       scenario_1 = Ok (ch, st)
       /\ ChatEntry.path (Chat._current ch) st = Ok p
       /\ length p = 4
       /\ ChatEntry.messages (Chat._current ch) st = Ok ms
       /\ message_values ms st
          = Ok [Message.Default; msg_hi; msg_hello; msg_hello].
Proof.
  split.
  - intros self st ms H. unfold ChatEntry.messages in H. inv_bind H.
    destruct x as [|root rest].
    { apply path_walk in Hx as (up & Hw & Hrev).
      apply walk_Some_inv in Hw as (? & ? & ? & _ & _ & _ & ->).
      rewrite reverse_cons in Hrev. symmetry in Hrev.
      apply app_eq_nil in Hrev as [_ [=]]. }
    simpl in H. inv_bind H. inv_bind H. inv_bind H. injection H as <-.
    destruct (messages_from_S _ _ _ _ Hx2) as (parts & Hparts & ->).
    exists root, rest, x0, parts. split; [assumption|].
    split; [|split; [assumption|reflexivity]].
    destruct x; [left|right]; split; auto. congruence.
  - eexists _, _, _, _. split; [vm_compute; reflexivity|].
    split; [vm_compute; reflexivity|]. split; [reflexivity|].
    split; vm_compute; reflexivity.
Qed.

Lemma messages_linearize_path_witness :
  exists root rest own parts,
    ChatEntry.path 3 fork_state.2 = Ok (root :: rest)
    /\ ((ChatEntry.isDefaultContent root fork_state.2 = Ok true /\ own = [])
        \/ (ChatEntry.isDefaultContent root fork_state.2 = Ok false
            /\ ChatEntry.entry_messages root fork_state.2 = Ok own))
    /\ Forall2 (fun e part => ChatEntry.entry_messages e fork_state.2 = Ok part)
         rest parts
    /\ [3; 0] = own ++ concat parts.
Proof.
  apply (proj1 messages_linearize_path 3 fork_state.2 [3; 0]).
  vm_compute. reflexivity.
Defined.

(** C6, counterexample to the claim as stated: in scenario 1 the path does
    not have length 2 and [messages()] is not the two-message list. *)
Lemma scenario_1_is_not_two_messages :
  exists ch st p ms vs,
    scenario_1 = Ok (ch, st)
    /\ ChatEntry.path (Chat._current ch) st = Ok p
    /\ length p <> 2
    /\ ChatEntry.messages (Chat._current ch) st = Ok ms
    /\ message_values ms st = Ok vs
    /\ vs <> [msg_hi; msg_hello].
Proof.
  eexists _, _, _, _, _. split; [vm_compute; reflexivity|].
  split; [vm_compute; reflexivity|]. split; [discriminate|].
  split; [vm_compute; reflexivity|]. split; [vm_compute; reflexivity|].
  discriminate.
Qed.

(** ** C10: the default responses *)

(** The entry [ChatEntry(prompt, response, parent)] constructs refers to
    the response it was given, or to the default of [__init__]; no response
    object changes. *)
Lemma init_response prompt resp parent st self st' :
  ChatEntry.__init__ prompt resp parent st = Ok (self, st') ->
  responses st' = responses st
  /\ exists e, entries st' !! self = Some e
               /\ _response e = default default_response_ChatEntry resp.
Proof.
  unfold ChatEntry.__init__. intros H. destruct parent as [p|].
  - inv_bind H. apply deref_Ok_inv in Hx. injection H as <- <-. simpl.
    split; [reflexivity|].
    assert ((entries st ++ [mkEntry (Some p) [] prompt
               (default default_response_ChatEntry resp)])
            !! length (entries st)
            = Some (mkEntry (Some p) [] prompt
                      (default default_response_ChatEntry resp))) as Hnew.
    { rewrite lookup_app_r by lia. rewrite Nat.sub_diag. reflexivity. }
    destruct (decide (p = length (entries st))) as [->|Hne].
    + rewrite list_lookup_insert_eq by (eapply lookup_lt_Some; eauto).
      rewrite Hnew in Hx. injection Hx as <-. eauto.
    + rewrite list_lookup_insert_ne by assumption. eauto.
  - injection H as <- <-. simpl. split; [reflexivity|].
    rewrite lookup_app_r by lia. rewrite Nat.sub_diag. eauto.
Qed.

(** C10 (as the code has it). The entries [addDescendant] creates when the
    response is omitted all refer to one response object, those of
    [addSibling] to another and those of a bare [ChatEntry(...)] to a third:
    each [def] evaluated its own default once.  [clear] passes a response
    of its own making on every call.  When [addSibling] empties the choices
    of the response of the superseded current entry, every entry that
    refers to that same object has a response without choices. *)
Theorem default_response_per_method :
  (forall prompt ch st ch' st',
     Chat.addDescendant prompt None ch st = Ok (ch', st') ->
     exists e, entries st' !! Chat._current ch' = Some e
               /\ _response e = default_response_addDescendant)
  /\ (forall prompt ch st ch' st',
        Chat.addSibling prompt None ch st = Ok (ch', st') ->
        exists e, entries st' !! Chat._current ch' = Some e
                  /\ _response e = default_response_addSibling)
  /\ (forall prompt parent st self st',
        ChatEntry.__init__ prompt None parent st = Ok (self, st') ->
        exists e, entries st' !! self = Some e
                  /\ _response e = default_response_ChatEntry)
  /\ (forall ch st ch' st',
        Chat.clear ch st = Ok (ch', st') ->
        exists e, entries st' !! Chat._current ch' = Some e
                  /\ _response e = length (responses st)
                  /\ responses st' !! _response e = Some Response.Default)
  /\ (default_response_ChatEntry <> default_response_addSibling
      /\ default_response_ChatEntry <> default_response_addDescendant
      /\ default_response_addSibling <> default_response_addDescendant)
  /\ (forall prompt resp ch st ch' st' cur,
        Chat.addSibling prompt resp ch st = Ok (ch', st') ->
        entries st !! Chat._current ch = Some cur ->
        forall a e,
          entries st' !! a = Some e -> _response e = _response cur ->
          exists r, responses st' !! _response e = Some r
                    /\ Response.choices r = []).
Proof.
  repeat apply conj; try discriminate.
  - intros prompt ch st ch' st' H. unfold Chat.addDescendant in H.
    inv_bind H. destruct x as [new st1]. inv_bind H. inv_bind H.
    injection H as <- <-.
    apply updateCursorAttrs_fields in Hx1 as (-> & _). simpl.
    apply init_response in Hx as (_ & e & He & Hr). eauto.
  - intros prompt ch st ch' st' H. unfold Chat.addSibling in H.
    inv_bind H. inv_bind H. inv_bind H. inv_bind H. inv_bind H.
    destruct x3 as [new st1]. inv_bind H. inv_bind H. injection H as <- <-.
    apply updateCursorAttrs_fields in Hx5 as (-> & _). simpl.
    apply init_response in Hx3 as (_ & e & He & Hr). eauto.
  - intros prompt parent st self st' H.
    apply init_response in H as (_ & e & He & Hr). eauto.
  - intros ch st ch' st' H. unfold Chat.clear in H. inv_bind H.
    cbv beta iota delta [new_message new_response] in H.
    inv_bind H. destruct x0 as [cur st1]. inv_bind H. inv_bind H.
    injection H as <- <-. simpl.
    apply init_response in Hx0 as (Hrs & e & He & Hr). simpl in *.
    exists e. rewrite Hr, Hrs. repeat split; [assumption|].
    rewrite lookup_app_r by lia. rewrite Nat.sub_diag. reflexivity.
  - intros prompt resp ch st ch' st' cur H Hcur a e _ ->.
    unfold Chat.addSibling in H.
    inv_bind H. apply deref_Ok_inv in Hx.
    assert (x = cur) as -> by congruence.
    inv_bind H. inv_bind H. simpl in Hx1. apply deref_Ok_inv in Hx1.
    inv_bind H. inv_bind H.
    destruct x2 as [new st1]. inv_bind H. inv_bind H. injection H as <- <-.
    apply init_response in Hx3 as (-> & _). simpl.
    exists (Response.set_choices [] x0). split; [|reflexivity].
    apply list_lookup_insert_eq. eapply lookup_lt_Some; eauto.
Qed.

Lemma default_response_per_method_witness :
  exists ch' st' r,
    Chat.addSibling 0 None fork_state.1 fork_state.2 = Ok (ch', st')
    /\ responses st' !! default_response_addDescendant = Some r
    /\ Response.choices r = [].
Proof.
  destruct default_response_per_method as (_ & _ & _ & _ & _ & Hshared).
  destruct (Hshared 0 None fork_state.1 fork_state.2
              (Chat.mk 5 0 (Some 4) 5 [0; 5] [0; 5] 1)
              (match Chat.addSibling 0 None fork_state.1 fork_state.2 with
               | Ok s => s.2
               | Raise _ => store_at_import
               end)
              (mkEntry (Some 2) [] 1 2) ltac:(vm_compute; reflexivity)
              eq_refl 3 (mkEntry (Some 1) [] 0 2)
              ltac:(vm_compute; reflexivity) eq_refl) as (r & Hr & Hc).
  eexists _, _, r. split; [vm_compute; reflexivity|]. split; assumption.
Defined.

(** C10, counterexample to the claim as stated.  In [scenario_defaults]
    the entry made by [clear] (1), one made by [addSibling] (2) and one made
    by [addDescendant] (3), none of them given a response, refer to three
    different response objects; and after the last [addSibling] has emptied
    the choices of the response of the superseded entry 3, the response of
    entry 2 still holds its choice. *)
Lemma defaults_are_not_one_instance :
  exists ch st e1 e2 e3 r2,
    scenario_defaults = Ok (ch, st)
    /\ Chat._previous ch = Some 3
    /\ entries st !! 1 = Some e1 /\ entries st !! 2 = Some e2
    /\ entries st !! 3 = Some e3
    /\ _response e1 <> _response e2 /\ _response e1 <> _response e3
    /\ _response e2 <> _response e3
    /\ responses st !! _response e2 = Some r2
    /\ Response.choices r2 <> [].
Proof.
  eexists _, _, _, _, _, _. split; [vm_compute; reflexivity|].
  repeat split; try reflexivity; discriminate.
Qed.

(** ** C7: parsing a response and serialising it again *)

Lemma parse_choices_cons choice rest r ms :
  Response.parse_choices (choice :: rest) r = Ok (Some ms) ->
  exists m ms', Message.FromApiResponse r = Ok (Some m) /\ ms = m :: ms'.
Proof.
  simpl. intros H. inv_bind H. destruct x as [m|]; [|discriminate].
  inv_bind H. destruct x as [ms'|]; [|discriminate].
  injection H as <-. eauto.
Qed.

(** What an accepted payload holds for the message [Message.FromApiResponse]
    returns: the first choice is a dict, its [delta] (or, without one, its
    [message]) is a dict, and the content of that is the string the message
    carries. *)
Lemma Message_FromApiResponse_Some r m :
  Message.FromApiResponse r = Ok (Some m) ->
  exists c rest message,
    dict_get r "choices" = Some (VList (VDict c :: rest))
    /\ dict_get c (if dict_has c "delta" then "delta" else "message")
       = Some (VDict message)
    /\ dict_get message "content" = Some (VStr (Message.content m))
    /\ dict_get r "id" = Some (VStr (Message.id m))
    /\ dict_get r "created" = Some (Message.created m).
Proof.
  unfold Message.FromApiResponse, dict_has, dict_item. intros H.
  destruct (dict_get r "choices") as [vc|] eqn:Hc; [|discriminate].
  destruct (dict_get r "id") as [vi|] eqn:Hi; [|discriminate].
  destruct (dict_get r "created") as [vt|] eqn:Ht; [|discriminate].
  simpl in H.
  destruct (negb (is_str vi) || negb (is_list vc) || negb (is_int vt));
    [discriminate|].
  destruct vc as [| | | | |[|[| | | | | |c|] rest]| |]; try discriminate.
  destruct (dict_get c "delta") as [vd|] eqn:Hd; simpl in H.
  - rewrite andb_false_r in H. simpl in H.
    destruct vd as [| | | | | |message|]; try discriminate.
    destruct (dict_get message "content") as [content|] eqn:Hcontent;
      [|discriminate].
    simpl in H. inv_bind H.
    unfold Message.__init__ in Hx.
    destruct content; try discriminate. destruct vi; try discriminate.
    destruct (is_int vt); [|discriminate]. injection Hx as <-.
    injection H as <-. simpl. exists c, rest, message. rewrite Hd. auto.
  - destruct (dict_get c "message") as [vm|] eqn:Hm; [|discriminate].
    simpl in H.
    destruct vm as [| | | | | |message|]; try discriminate.
    destruct (dict_get message "content") as [content|] eqn:Hcontent;
      [|discriminate].
    simpl in H.
    destruct (dict_get message "role") as [role|] eqn:Hrole; [|discriminate].
    simpl in H. inv_bind H.
    unfold Message.__init__ in Hx.
    destruct role; try discriminate.
    destruct content; try discriminate. destruct vi; try discriminate.
    destruct (is_int vt); [|discriminate]. injection Hx as <-.
    injection H as <-. simpl. exists c, rest, message. rewrite Hd. auto.
Qed.

(** C7. For every API response object [r] that [Response.FromApiResponse]
    accepts, [toApiResponse] of the result has the [id], [created] and
    [model] of [r]; when [r] has a first choice, the first choice of the
    result has the content of that choice's message (of its delta, when it
    has one); and a [usage] of [r] that holds the three token counts is
    serialised with those counts when one of them is not zero and is left
    out when all are, as it is when [r] has no usage (or one that is empty
    or does not hold the three counts, which is read as absent). *)
Theorem response_round_trip (r : pydict) (resp : Response.t Message.t) :
  Response.FromApiResponse (VDict r) = Ok (Some resp) ->
  let out := Response.toApiResponse resp in
  dict_get out "id" = dict_get r "id"
  /\ dict_get out "created" = dict_get r "created"
  /\ dict_get out "model" = dict_get r "model"
  /\ (forall choice rest,
        dict_get r "choices" = Some (VList (choice :: rest)) ->
        exists c message content out_choice out_rest,
          choice = VDict c
          /\ dict_get c (if dict_has c "delta" then "delta" else "message")
             = Some (VDict message)
          /\ dict_get message "content" = Some (VStr content)
          /\ dict_get out "choices" = Some (VList (VDict out_choice :: out_rest))
          /\ dict_get out_choice "content" = Some (VStr content))
  /\ (forall u usage,
        dict_get r "usage" = Some (VDict u) ->
        Usage.FromApiResponse u = Ok (Some usage) ->
        dict_get u "prompt_tokens" = Some (Usage.prompt_tokens usage)
        /\ dict_get u "completion_tokens" = Some (Usage.completion_tokens usage)
        /\ dict_get u "total_tokens" = Some (Usage.total_tokens usage)
        /\ dict_get out "usage"
           = if Usage.isDefault usage then None
             else Some (VDict [("prompt_tokens", Usage.prompt_tokens usage);
                               ("completion_tokens", Usage.completion_tokens usage);
                               ("total_tokens", Usage.total_tokens usage)]))
  /\ (forall u,
        dict_get r "usage" = Some (VDict u) ->
        Usage.FromApiResponse u = Ok None ->
        dict_get out "usage" = None)
  /\ (forall v,
        dict_get r "usage" = Some v -> truthy v = false ->
        dict_get out "usage" = None)
  /\ (dict_get r "usage" = None -> dict_get out "usage" = None).
Proof.
  unfold Response.FromApiResponse, Response.parseResponse, dict_has, dict_item.
  intros H.
  destruct (dict_get r "choices") as [vc|] eqn:Hc; [|discriminate].
  destruct (dict_get r "id") as [vi|] eqn:Hi; [|discriminate].
  destruct (dict_get r "created") as [vt|] eqn:Ht; [|discriminate].
  destruct (dict_get r "model") as [vm|] eqn:Hm; [|discriminate].
  destruct (dict_get r "object") as [vo|] eqn:Ho; [|discriminate].
  simpl in H.
  destruct vc as [| | | | |choicesApi| |]; try discriminate.
  destruct vi as [| | | |idApi| | |]; try discriminate.
  destruct vm as [| | | |modelApi| | |]; try discriminate.
  destruct vo as [| | | |objectApi| | |]; try discriminate.
  destruct (is_int vt); [|discriminate]. simpl in H.
  destruct (truthy (default VNone (dict_get r "usage"))
            && negb (is_dict (default VNone (dict_get r "usage")))) eqn:Hu;
    [discriminate|].
  inv_bind H. destruct x as [choices|]; [|discriminate].
  apply bind_Ok_inv in H as (us & Hus & H). injection H as <-.
  cbv zeta. unfold Response.toApiResponse. simpl Response.usage.
  simpl Response.choices. simpl Response.created. simpl Response.id.
  simpl Response.model. simpl Response.object_.
  repeat apply conj.
  - destruct (negb (Usage.isDefault us)); reflexivity.
  - destruct (negb (Usage.isDefault us)); reflexivity.
  - destruct (negb (Usage.isDefault us)); reflexivity.
  - intros choice rest [= ->].
    destruct (parse_choices_cons _ _ _ _ Hx) as (m & ms' & Hm' & ->).
    destruct (Message_FromApiResponse_Some _ _ Hm')
      as (c & rest' & message & Hc' & Hmsg & Hcontent & _).
    rewrite Hc in Hc'. injection Hc' as -> ->.
    exists c, message, (Message.content m), (Message.toApiMessage m),
      (map (fun msg => VDict (Message.toApiMessage msg)) ms').
    repeat split; auto.
    destruct (negb (Usage.isDefault us)); reflexivity.
  - intros u usage Hru Hparse. rewrite Hru in Hus. simpl in Hus.
    assert (dict_get u "prompt_tokens" = Some (Usage.prompt_tokens usage)
            /\ dict_get u "completion_tokens"
               = Some (Usage.completion_tokens usage)
            /\ dict_get u "total_tokens" = Some (Usage.total_tokens usage))
      as (Hp & Hcm & Htt).
    { unfold Usage.FromApiResponse in Hparse.
      destruct (dict_get u "prompt_tokens") as [p|]; [|discriminate].
      destruct (dict_get u "completion_tokens") as [cm|];
        [|discriminate].
      destruct (dict_get u "total_tokens") as [tt|]; [|discriminate].
      destruct (negb (is_int p) || negb (is_int cm) || negb (is_int tt));
        [discriminate|].
      apply bind_Ok_inv in Hparse as (u0 & Hu0 & Hparse).
      injection Hparse as <-. unfold Usage.__init__ in Hu0.
      destruct (negb (is_int p)); [discriminate|].
      destruct (negb (is_int cm)); [discriminate|].
      destruct (negb (is_int tt)); [discriminate|].
      injection Hu0 as <-. auto. }
    repeat split; auto.
    destruct u as [|kv u']; [discriminate|]. simpl in Hus.
    rewrite Hparse in Hus. simpl in Hus. injection Hus as <-.
    destruct (Usage.isDefault usage); reflexivity.
  - intros u Hru Hparse. rewrite Hru in Hus. simpl in Hus.
    destruct u as [|kv u']; simpl in Hus.
    + injection Hus as <-. reflexivity.
    + rewrite Hparse in Hus. simpl in Hus. injection Hus as <-. reflexivity.
  - intros v Hrv Hfalse. rewrite Hrv in Hus. simpl in Hus.
    rewrite Hfalse in Hus. injection Hus as <-. reflexivity.
  - intros Hnone. rewrite Hnone in Hus. simpl in Hus. injection Hus as <-.
    reflexivity.
Qed.

Lemma response_round_trip_witness :
  let out := Response.toApiResponse parsed_response_example in
  dict_get out "id" = Some (VStr "chatcmpl-1")
  /\ dict_get out "created" = Some (VInt 1700000000)
  /\ dict_get out "model" = Some (VStr "gpt-4")
  /\ dict_get out "usage"
     = Some (VDict [("prompt_tokens", VInt 5); ("completion_tokens", VInt 7);
                    ("total_tokens", VInt 12)]).
Proof.
  destruct (response_round_trip api_response_example parsed_response_example)
    as (Hid & Hcreated & Hmodel & _ & Husage & _ & _ & _).
  - vm_compute. reflexivity.
  - destruct (Husage [("prompt_tokens", VInt 5); ("completion_tokens", VInt 7);
                      ("total_tokens", VInt 12)]
                (Usage.mk (VInt 5) (VInt 7) (VInt 12)) eq_refl eq_refl)
      as (_ & _ & _ & Hout).
    cbv zeta. rewrite Hid, Hcreated, Hmodel, Hout. repeat split; reflexivity.
Defined.

(** ** C8: malformed payloads *)

(** The payloads [Message.FromApiResponse] answers with [None]: a required
    key is missing, [id] is not a string, [choices] is not a list or is
    empty, [created] is not an integer, the first choice is not a dict or
    has neither [message] nor [delta], that member is not a dict or has no
    [content], or a [message] has no [role]. *)
Lemma Message_FromApiResponse_absent (r : pydict) :
  dict_get r "choices" = None \/ dict_get r "id" = None
  \/ dict_get r "created" = None
  \/ (exists v, dict_get r "id" = Some v /\ is_str v = false)
  \/ (exists v, dict_get r "created" = Some v /\ is_int v = false)
  \/ (exists v, dict_get r "choices" = Some v /\ is_list v = false)
  \/ dict_get r "choices" = Some (VList [])
  \/ (exists v rest, dict_get r "choices" = Some (VList (v :: rest))
      /\ (is_dict v = false
          \/ exists c, v = VDict c
             /\ ((dict_get c "message" = None /\ dict_get c "delta" = None)
                 \/ (exists m, dict_get c (if dict_has c "delta" then "delta"
                                           else "message") = Some m
                     /\ (is_dict m = false
                         \/ exists message, m = VDict message
                            /\ (dict_get message "content" = None
                                \/ (dict_get c "delta" = None
                                    /\ dict_get message "role" = None))))))) ->
  Message.FromApiResponse r = Ok None.
Proof.
  unfold Message.FromApiResponse, dict_has, dict_item.
  destruct (dict_get r "choices") as [vc|] eqn:Hc; [|reflexivity].
  destruct (dict_get r "id") as [vi|] eqn:Hi; [|reflexivity].
  destruct (dict_get r "created") as [vt|] eqn:Ht; [|reflexivity].
  simpl.
  destruct (is_str vi) eqn:Hsi; [|reflexivity].
  destruct (is_list vc) eqn:Hlc; [|reflexivity].
  destruct (is_int vt) eqn:Hit; [|reflexivity].
  simpl.
  intros [[=]|[[=]|[[=]|[(v & [= <-] & Hv)|[(v & [= <-] & Hv)|
          [(v & [= <-] & Hv)|[[= ->]|(v & rest & [= ->] & H)]]]]]]];
    try congruence; try reflexivity.
  destruct H as [Hv|(c & -> & H)].
  { destruct v; try reflexivity. discriminate. }
  destruct H as [[-> ->]|(m & Hm & H)]; [reflexivity|].
  destruct (dict_get c "delta") as [vd|] eqn:Hd; simpl in *.
  - rewrite andb_false_r. simpl. rewrite Hd in Hm. injection Hm as ->.
    destruct H as [Hv|(message & -> & H)].
    { destruct m; try reflexivity. discriminate. }
    destruct H as [->|[[=] _]]. reflexivity.
  - rewrite Hm. simpl.
    destruct H as [Hv|(message & -> & H)].
    { destruct m; try reflexivity. discriminate. }
    destruct (dict_get message "content"); [|reflexivity]. simpl.
    destruct H as [[=]|[_ ->]]. reflexivity.
Qed.

(** The only exception [Message.FromApiResponse] raises is the [TypeError]
    of a message setter: the payload is complete and the content, or the
    role of a [message], is not a string. *)
Lemma Message_FromApiResponse_raises (r : pydict) (e : exn) :
  Message.FromApiResponse r = Raise e ->
  e = TypeError
  /\ exists c rest message,
       dict_get r "choices" = Some (VList (VDict c :: rest))
       /\ dict_get c (if dict_has c "delta" then "delta" else "message")
          = Some (VDict message)
       /\ ((exists v, dict_get message "content" = Some v /\ is_str v = false)
           \/ (dict_get c "delta" = None
               /\ exists v, dict_get message "role" = Some v
                            /\ is_str v = false)).
Proof.
  unfold Message.FromApiResponse, dict_has, dict_item. intros H.
  destruct (dict_get r "choices") as [vc|] eqn:Hc; [|discriminate].
  destruct (dict_get r "id") as [vi|] eqn:Hi; [|discriminate].
  destruct (dict_get r "created") as [vt|] eqn:Ht; [|discriminate].
  simpl in H.
  destruct (is_str vi) eqn:Hsi; [|discriminate].
  destruct (is_list vc) eqn:Hlc; [|discriminate].
  destruct (is_int vt) eqn:Hit; [|discriminate].
  simpl in H.
  destruct vc as [| | | | |[|[| | | | | |c|] rest]| |]; try discriminate.
  destruct vi as [| | | |i| | |]; try discriminate.
  destruct (dict_get c "delta") as [vd|] eqn:Hd; simpl in H.
  - rewrite andb_false_r in H. simpl in H.
    destruct vd as [| | | | | |message|]; try discriminate.
    destruct (dict_get message "content") as [content|] eqn:Hcontent;
      [|discriminate].
    simpl in H. unfold Message.__init__ in H. rewrite Hit in H.
    destruct content; try discriminate; injection H as <-;
      (split; [reflexivity|]); exists c, rest, message; rewrite Hd;
      repeat split; eauto.
  - destruct (dict_get c "message") as [vm|] eqn:Hm; [|discriminate].
    simpl in H.
    destruct vm as [| | | | | |message|]; try discriminate.
    destruct (dict_get message "content") as [content|] eqn:Hcontent;
      [|discriminate].
    simpl in H.
    destruct (dict_get message "role") as [role|] eqn:Hrole; [|discriminate].
    simpl in H. unfold Message.__init__ in H. rewrite Hit in H.
    destruct role; try (injection H as <-; (split; [reflexivity|]);
      exists c, rest, message; rewrite Hd; repeat split; eauto 10; fail).
    destruct content; try discriminate; injection H as <-;
      (split; [reflexivity|]); exists c, rest, message; rewrite Hd;
      repeat split; eauto.
Qed.

(** C8, the failing inputs. A payload that is complete but for the type of
    [content] ([null] in place of a string) makes [Message.FromApiResponse]
    raise [TypeError]: the content is handed to the constructor unchecked
    and the setter of [content] rejects it.  The same holds for the parsing
    of streamed chunks. *)
Theorem FromApiResponse_raises_on_null_content :
  Message.FromApiResponse api_response_null_content = Raise TypeError
  /\ PartialMessage.FromApiResponses [api_chunk_null_content] []
     = Raise TypeError
  /\ Message.FromApiMessage [("role", VStr "assistant"); ("content", VNone)]
     = Ok None.
Proof. repeat split; vm_compute; reflexivity. Qed.

(** ** C9: the ranges of the sampling controls *)

Section RangeChecks.
Import ChatCompletionParams.

(** A float below a non-positive bound or above a non-negative one is not
    zero, so it is true as a condition. *)
Lemma outside_bad lo hi v :
  (lo = SF_zero \/ lo = SF_minus_two) -> (hi = SF_one \/ hi = SF_two) ->
  outside lo hi v -> truthy v && bad_float v lo hi = true.
Proof.
  intros Hlo Hhi (f & -> & H). simpl.
  apply andb_true_intro. split; [|destruct H as [-> | ->]; auto using orb_true_r].
  destruct Hlo as [-> | ->], Hhi as [-> | ->];
    destruct f as [[]|[]| |[] m e]; destruct H as [H|H];
    try reflexivity; discriminate H.
Qed.

Lemma string_length_nonempty s : 0 < String.length s -> String.eqb s "" = false.
Proof. destruct s; simpl; [lia|reflexivity]. Qed.

(** C9 (as the code has it). A sampling control outside its range makes the
    constructor raise at once ([ValueError], unless a [max_tokens] of the
    wrong type raises [TypeError] first).  Assigning to the attribute of an
    existing object checks the type only: a float of any size is stored as
    temperature, top_p or penalty, an integer of any size as [n], a list of
    strings of any length as [stop], a string of any length as [user]. *)
Theorem ranges_checked_by_constructor_only :
  (forall a,
     out_of_range a ->
     __init__ a = Raise ValueError
     \/ (truthy (max_tokens a) = true /\ is_int (max_tokens a) = false
         /\ __init__ a = Raise TypeError))
  /\ (forall self f,
        exists self', set_temperature (VFloat f) self = Ok self'
                      /\ _temperature self' = VFloat f)
  /\ (forall self f,
        exists self', set_top_p (VFloat f) self = Ok self'
                      /\ _top_p self' = VFloat f)
  /\ (forall self z,
        exists self', set_n (VInt z) self = Ok self' /\ _n self' = VInt z)
  /\ (forall self f,
        exists self', set_frequency_penalty (VFloat f) self = Ok self'
                      /\ _frequency_penalty self' = VFloat f)
  /\ (forall self f,
        exists self', set_presence_penalty (VFloat f) self = Ok self'
                      /\ _presence_penalty self' = VFloat f)
  /\ (forall self l,
        forallb is_str l = true ->
        exists self', set_stop (VList l) self = Ok self'
                      /\ _stop self' = VList l)
  /\ (forall self s,
        exists self', set_user (VStr s) self = Ok self'
                      /\ _user self' = VStr s).
Proof.
  split.
  - intros a Hout. unfold __init__.
    destruct (truthy (temperature a) && bad_float (temperature a) SF_zero SF_two)
      eqn:H1; [auto|].
    destruct (truthy (max_tokens a) && negb (is_int (max_tokens a))) eqn:H2.
    { right. apply andb_prop in H2 as [-> ->%negb_true_iff]. auto. }
    left.
    destruct (truthy (top_p a) && bad_float (top_p a) SF_zero SF_one)
      eqn:H3; [reflexivity|].
    destruct (truthy (n a) && bad_int (n a) 1 10) eqn:H4; [reflexivity|].
    destruct (truthy (frequency_penalty a)
              && bad_float (frequency_penalty a) SF_minus_two SF_two)
      eqn:H5; [reflexivity|].
    destruct (truthy (presence_penalty a)
              && bad_float (presence_penalty a) SF_minus_two SF_two)
      eqn:H6; [reflexivity|].
    destruct (truthy (stop a) && bad_stop (stop a)) eqn:H7; [reflexivity|].
    destruct (truthy (logit_bias a) && negb (is_list (logit_bias a)));
      [reflexivity|].
    destruct (truthy (user a) && bad_user (user a)) eqn:H9; [reflexivity|].
    exfalso.
    destruct Hout as [H|[H|[(z & Hz & Hz0 & Hr)|[H|[H|[(l & Hl & Hr)
                     |(s & Hs & Hr)]]]]]].
    + rewrite outside_bad in H1; auto. discriminate.
    + rewrite outside_bad in H3; auto. discriminate.
    + rewrite Hz in H4. unfold bad_int in H4. simpl in H4.
      apply andb_false_iff in H4 as [H4|H4].
      * apply negb_false_iff, Z.eqb_eq in H4. contradiction.
      * apply orb_false_iff in H4 as [?%Z.ltb_ge ?%Z.ltb_ge]. lia.
    + rewrite outside_bad in H5; auto. discriminate.
    + rewrite outside_bad in H6; auto. discriminate.
    + rewrite Hl in H7. simpl in H7. destruct l as [|x l]; [simpl in Hr; lia|].
      simpl in H7. apply Nat.ltb_ge in H7. simpl in Hr. lia.
    + rewrite Hs in H9. simpl in H9.
      rewrite string_length_nonempty in H9 by lia. simpl in H9.
      apply Nat.ltb_ge in H9. lia.
  - assert (forall b, b && false = false) as Hfalse by apply andb_false_r.
    split.
    { intros self f. unfold set_temperature. cbn [is_float negb].
      rewrite Hfalse. eauto. }
    split.
    { intros self f. unfold set_top_p. cbn [is_float negb].
      rewrite Hfalse. eauto. }
    split.
    { intros self z. unfold set_n. cbn [is_int negb]. rewrite Hfalse. eauto. }
    split.
    { intros self f. unfold set_frequency_penalty. cbn [is_float negb].
      rewrite Hfalse. eauto. }
    split.
    { intros self f. unfold set_presence_penalty. cbn [is_float negb].
      rewrite Hfalse. eauto. }
    split.
    { intros self l H. unfold set_stop. cbn [is_list negb].
      rewrite Hfalse, H. cbn [negb]. rewrite Hfalse. eauto. }
    intros self s. unfold set_user. cbn [is_str negb]. rewrite Hfalse. eauto.
Qed.

Lemma ranges_checked_by_constructor_only_witness :
  out_of_range (model_and_temperature (VStr "gpt-4") (VFloat SF_three))
  /\ __init__ (model_and_temperature (VStr "gpt-4") (VFloat SF_three))
     = Raise ValueError.
Proof.
  assert (out_of_range
            (model_and_temperature (VStr "gpt-4") (VFloat SF_three))) as Hout.
  { left. exists SF_three. split; [reflexivity|]. right. reflexivity. }
  split; [exact Hout|].
  destruct (proj1 ranges_checked_by_constructor_only _ Hout)
    as [H|(H & _)]; [exact H|discriminate H].
Defined.

(** C9, counterexample to the claim as stated: on an object constructed
    with the model alone, assigning 3.0 to [temperature] raises nothing and
    leaves 3.0, which is above 2, in the attribute. *)
Lemma temperature_setter_accepts_three :
  exists self self',
    __init__ (only_model (VStr "gpt-4")) = Ok self
    /\ SFltb SF_two SF_three = true
    /\ set_temperature (VFloat SF_three) self = Ok self'
    /\ _temperature self' = VFloat SF_three.
Proof.
  eexists _, _. split; [vm_compute; reflexivity|].
  repeat split; reflexivity.
Qed.

End RangeChecks.

(** * Further properties *)

(** ** The tree in every reachable state *)

(** Along a walk the addresses decrease, so no entry occurs twice. *)
Lemma walk_decreasing fuel es a up :
  parents_below es ->
  ChatEntry.walk fuel es (Some a) = Ok up ->
  Forall (fun x => x <= a) up /\ NoDup up.
Proof.
  intros Hpb. revert a up. induction fuel as [|fuel IH]; intros a up H.
  - discriminate.
  - apply walk_Some_inv in H as (? & e & up' & [= <-] & He & Hw & ->).
    destruct (_parent e) as [p|] eqn:Hp.
    + pose proof (Hpb _ _ _ He Hp) as Hlt.
      destruct (IH _ _ Hw) as (Hall & Hnd).
      split.
      * constructor; [lia|]. eapply Forall_impl; [exact Hall|].
        simpl. intros. lia.
      * constructor; [|assumption]. intros Hin.
        rewrite Forall_forall in Hall. specialize (Hall _ Hin). lia.
    + rewrite walk_None in Hw. injection Hw as <-.
      split; repeat constructor. inversion 1.
Qed.

Lemma path_NoDup a st p :
  parents_below (entries st) -> ChatEntry.path a st = Ok p -> NoDup p.
Proof.
  intros Hpb (up & Hw & ->)%path_walk.
  rewrite reverse_Permutation. eapply walk_decreasing; eauto.
Qed.

Lemma path_first_parentless a st p :
  ChatEntry.path a st = Ok p ->
  exists first, p !! 0 = Some first /\ ChatEntry.isRoot first st = Ok true.
Proof.
  intros (up & Hw & ->)%path_walk.
  pose proof (walk_head _ _ _ _ Hw) as Hhead.
  pose proof (lookup_lt_Some _ _ _ Hhead).
  destruct (lookup_lt_is_Some_2 up (pred (length up))) as [f Hf]; [lia|].
  assert (last up = Some f) as Hlast by (rewrite last_lookup; exact Hf).
  destruct (walk_last_parentless _ _ _ _ _ Hw Hlast) as (fe & Hfe & Hfp).
  exists f. split.
  - rewrite reverse_lookup by lia.
    replace (length up - 1) with (pred (length up)) by lia. assumption.
  - unfold ChatEntry.isRoot. rewrite (deref_Ok _ _ _ Hfe). simpl.
    rewrite Hfp. reflexivity.
Qed.

(** X1. Whenever [path()] returns, the list starts with an entry without
    parent, ends with the entry itself, and each entry in it is the parent
    of the next. *)
Theorem path_shape (self : addr) (st : Store) (p : list addr) :
  ChatEntry.path self st = Ok p ->
  (exists first, p !! 0 = Some first /\ ChatEntry.isRoot first st = Ok true)
  /\ last p = Some self
  /\ (forall i x y, p !! i = Some x -> p !! S i = Some y ->
        exists e, entries st !! y = Some e /\ _parent e = Some x).
Proof.
  intros Hp. split; [eauto using path_first_parentless|]. split.
  - rewrite last_lookup.
    replace (pred (length p)) with (length p - 1) by lia.
    eauto using path_last.
  - intros i x y Hx Hy. eauto using path_adjacent.
Qed.

Lemma path_shape_witness :
  (exists first, [0; 1; 2; 4] !! 0 = Some first
                 /\ ChatEntry.isRoot first fork_state.2 = Ok true)
  /\ last [0; 1; 2; 4] = Some 4
  /\ (forall i x y, [0; 1; 2; 4] !! i = Some x -> [0; 1; 2; 4] !! S i = Some y ->
        exists e, entries fork_state.2 !! y = Some e /\ _parent e = Some x).
Proof. apply (path_shape 4 fork_state.2 [0; 1; 2; 4]). reflexivity. Defined.

(** X2. In every reachable state the cached path is the path of the current
    entry and has no repeated entry, the current entry has no children, the
    root has no parent, and the path and the index of the cursor can be
    computed. *)
Theorem reachable_state_shape (ch : Chat.t) (st : Store) :
  reachable ch st ->
  ChatEntry.path (Chat._current ch) st = Ok (Chat._path ch)
  /\ NoDup (Chat._path ch)
  /\ ChatEntry.isLeaf (Chat._current ch) st = Ok true
  /\ ChatEntry.isRoot (Chat._root ch) st = Ok true
  /\ exists cp i,
       ChatEntry.path (Chat._cursor ch) st = Ok cp
       /\ ChatEntry.index (Chat._cursor ch) st = Ok i.
Proof.
  intros Hinv%reachable_inv.
  split; [exact (inv_path _ _ Hinv)|].
  split; [eapply path_NoDup; eauto using inv_parents, inv_path|].
  split; [exact (inv_leaf _ _ Hinv)|].
  split; [exact (inv_root _ _ Hinv)|].
  destruct (live_path st (Chat._cursor ch)) as (cp & Hcp & _);
    eauto using inv_parents, inv_cursor.
  destruct (live_index st (Chat._cursor ch)) as (i & Hi);
    eauto using inv_cursor.
Qed.

Ltac fork_state_reachable :=
  apply (reachable_session store_hi_hello
           [AddDescendant 0 None; Up; AddDescendant 0 None; Left;
            AddDescendant 1 None; Up; Up]); reflexivity.

Lemma reachable_state_shape_witness :
  ChatEntry.path 4 fork_state.2 = Ok [0; 1; 2; 4]
  /\ NoDup [0; 1; 2; 4]
  /\ ChatEntry.isLeaf 4 fork_state.2 = Ok true
  /\ ChatEntry.isRoot 0 fork_state.2 = Ok true
  /\ exists cp i,
       ChatEntry.path 1 fork_state.2 = Ok cp
       /\ ChatEntry.index 1 fork_state.2 = Ok i.
Proof.
  apply (reachable_state_shape fork_state.1 fork_state.2).
  fork_state_reachable.
Defined.

(** ** Navigation *)

Lemma session_without_returnToCurrent st0 cs ch st :
  entries st0 = [] -> Forall (fun c => c <> ReturnToCurrent) cs ->
  session st0 cs = Ok (ch, st) -> reachable_without_returnToCurrent ch st.
Proof.
  unfold session. intros Hnil Hcs H. inv_bind H. destruct x as [ch0 st1].
  assert (reachable_without_returnToCurrent ch0 st1) as Hr
    by (eapply reach_new'; eauto).
  clear Hx. revert ch0 st1 Hr H.
  induction Hcs as [|c cs Hc _ IH]; simpl; intros ch0 st1 Hr H.
  - injection H as <- <-. assumption.
  - inv_bind H. destruct x as [ch1 st2]. eapply IH; [|eassumption].
    eapply reach_call'; eauto.
Qed.

Ltac fork_state_reachable' :=
  apply (session_without_returnToCurrent store_hi_hello
           [AddDescendant 0 None; Up; AddDescendant 0 None; Left;
            AddDescendant 1 None; Up; Up]);
  [reflexivity|repeat constructor; discriminate|reflexivity].

(** X3. In every state a program reaches without calling
    [returnToCurrent], each of [up], [down], [left], [right], [top] and
    [bottom] returns: it raises nothing, and it leaves the store as it
    is. *)
Theorem navigation_returns_without_returnToCurrent
    (ch : Chat.t) (st : Store) (c : call) :
  reachable_without_returnToCurrent ch st -> is_navigation c = true ->
  exists ch', run c ch st = Ok (ch', st).
Proof.
  intros Hr Hnav.
  apply reachable_without_returnToCurrent_fresh in Hr as [Hr Hf].
  eapply navigation_returns; eauto using reachable_inv.
Qed.

Lemma navigation_returns_without_returnToCurrent_witness :
  exists ch', run Right fork_state.1 fork_state.2 = Ok (ch', fork_state.2).
Proof.
  apply (navigation_returns_without_returnToCurrent fork_state.1 fork_state.2
           Right); [fork_state_reachable'|reflexivity].
Defined.

(** The cached path of the cursor after [_updateCursorAttrs]. *)
Lemma updateCursorAttrs_path ch st ch' :
  Chat._updateCursorAttrs ch st = Ok ch' ->
  ChatEntry.path (Chat._cursor ch') st = Ok (Chat._cursorPath ch').
Proof.
  unfold Chat._updateCursorAttrs. intros H.
  inv_bind H. inv_bind H. injection H as <-. simpl. assumption.
Qed.

Lemma navigation_keeps_cursorPath ch st c ch' st' :
  ChatEntry.path (Chat._cursor ch) st = Ok (Chat._cursorPath ch) ->
  is_navigation c = true ->
  run c ch st = Ok (ch', st') ->
  ChatEntry.path (Chat._cursor ch') st' = Ok (Chat._cursorPath ch').
Proof.
  intros Hfresh Hnav H.
  destruct c; try discriminate; simpl in H; inv_bind H;
    injection H as <- <-.
  - unfold Chat.up in Hx. inv_bind Hx.
    destruct (_parent x0); [|congruence].
    destruct (Nat.eqb _ _); [congruence|eauto using updateCursorAttrs_path].
  - unfold Chat.down in Hx. inv_bind Hx.
    destruct (last _); [|congruence]. inv_bind Hx.
    eauto using updateCursorAttrs_path.
  - unfold Chat.left in Hx. destruct (Nat.eqb _ 0); [congruence|].
    inv_bind Hx. destruct (_parent x0); [|discriminate].
    inv_bind Hx. inv_bind Hx. eauto using updateCursorAttrs_path.
  - unfold Chat.right in Hx. inv_bind Hx.
    destruct (_parent x0); [|congruence]. inv_bind Hx.
    destruct (_ =? _)%Z; [congruence|]. inv_bind Hx.
    eauto using updateCursorAttrs_path.
  - unfold Chat.top in Hx. inv_bind Hx.
    destruct (_parent x0); [|congruence].
    destruct (Nat.eqb _ _); [congruence|]. inv_bind Hx.
    eauto using updateCursorAttrs_path.
  - unfold Chat.bottom in Hx. inv_bind Hx.
    destruct (_children x0); [congruence|eauto using updateCursorAttrs_path].
Qed.

Lemma client_step_path st st' a p :
  client_step st st' -> ChatEntry.path a st = Ok p -> ChatEntry.path a st' = Ok p.
Proof.
  intros Hstep H. unfold ChatEntry.path in *. inv_bind H. injection H as <-.
  assert (length (entries st') = length (entries st)) as ->.
  { destruct Hstep; simpl; auto. apply length_insert. }
  erewrite walk_same_parents; [reflexivity| |exact Hx].
  intros b eb Hb. destruct Hstep; simpl; eauto.
  destruct (extends_set_response_r _ _ _ r H _ _ Hb) as (e' & He' & Hp & _).
  eauto.
Qed.

(** X4. In every state reached without [returnToCurrent] the two cached
    attributes of the cursor are up to date: [_cursorPath] is the path of
    the cursor and [_cursorSiblingIndex] its index. *)
Theorem cursor_caches_up_to_date (ch : Chat.t) (st : Store) :
  reachable_without_returnToCurrent ch st ->
  ChatEntry.path (Chat._cursor ch) st = Ok (Chat._cursorPath ch)
  /\ ChatEntry.index (Chat._cursor ch) st = Ok (Chat._cursorSiblingIndex ch).
Proof.
  intros Hr. split;
    [|exact (proj2 (reachable_without_returnToCurrent_fresh _ _ Hr))].
  induction Hr as [st0 ch st Hnil Hnew|c ch st ch' st' Hr IH Hc Hrun
                   |ch st st' Hr IH Hstep].
  - destruct (new_chat_spec st0) as (ch1 & st1 & Hnew' & Hcur & _ & Hpath).
    rewrite Hnew in Hnew'. injection Hnew' as <- <-.
    unfold Chat.__init__, ChatEntry.Default in Hnew.
    cbv beta iota delta [new_message new_response] in Hnew.
    inv_bind Hnew. destruct x as [root st2]. unfold Chat.clear in Hnew.
    inv_bind Hnew. cbv beta iota delta [new_message new_response] in Hnew.
    inv_bind Hnew. destruct x0 as [cur st3]. inv_bind Hnew. inv_bind Hnew.
    injection Hnew as <- <-. simpl in *. assumption.
  - destruct c; try contradiction;
      try (eapply navigation_keeps_cursorPath; eauto; reflexivity).
    + simpl in Hrun. unfold Chat.clear in Hrun. inv_bind Hrun.
      cbv beta iota delta [new_message new_response] in Hrun.
      inv_bind Hrun. destruct x0 as [cur st3]. inv_bind Hrun. inv_bind Hrun.
      injection Hrun as <- <-. simpl. assumption.
    + simpl in Hrun. unfold Chat.addSibling in Hrun.
      inv_bind Hrun. inv_bind Hrun. inv_bind Hrun. inv_bind Hrun.
      inv_bind Hrun. destruct x3 as [new st1]. inv_bind Hrun. inv_bind Hrun.
      injection Hrun as <- <-. eauto using updateCursorAttrs_path.
    + simpl in Hrun. unfold Chat.addDescendant in Hrun.
      inv_bind Hrun. destruct x as [new st1]. inv_bind Hrun. inv_bind Hrun.
      injection Hrun as <- <-. eauto using updateCursorAttrs_path.
  - eauto using client_step_path.
Qed.

Lemma cursor_caches_up_to_date_witness :
  ChatEntry.path 1 fork_state.2 = Ok [0; 1]
  /\ ChatEntry.index 1 fork_state.2 = Ok 0.
Proof.
  apply (cursor_caches_up_to_date fork_state.1 fork_state.2).
  fork_state_reachable'.
Defined.

(** X5. A direction that is not available leaves the chat unchanged, in
    any state: [up] and [top] when [canMoveUp] is false, [down] and [bottom]
    when [canMoveDown] is false, [left] when [canMoveLeft] is false, [right]
    when [canMoveRight] is false. *)
Theorem unavailable_direction_is_noop (ch : Chat.t) (st : Store) :
  (Chat.canMoveUp ch st = Ok false ->
   Chat.up ch st = Ok ch /\ Chat.top ch st = Ok ch)
  /\ (Chat.canMoveDown ch st = Ok false ->
      Chat.down ch st = Ok ch /\ Chat.bottom ch st = Ok ch)
  /\ (Chat.canMoveLeft ch st = Ok false -> Chat.left ch st = Ok ch)
  /\ (Chat.canMoveRight ch st = Ok false -> Chat.right ch st = Ok ch).
Proof.
  destruct (unavailable_is_noop ch st) as (H1 & H2 & H3 & H4 & H5 & H6).
  repeat split; auto.
Qed.

Lemma unavailable_direction_is_noop_witness :
  Chat.up fork_state.1 fork_state.2 = Ok fork_state.1
  /\ Chat.top fork_state.1 fork_state.2 = Ok fork_state.1.
Proof.
  apply (proj1 (unavailable_direction_is_noop fork_state.1 fork_state.2)).
  reflexivity.
Defined.

(** X6. In every reachable state where the cursor is below the children of
    the root, [top] returns and moves the cursor to the first entry of the
    cached path, an entry without parent. *)
Theorem top_reaches_parentless_entry (ch : Chat.t) (st : Store) :
  reachable ch st -> Chat.canMoveUp ch st = Ok true ->
  exists ch' first,
    Chat.top ch st = Ok ch' /\ Chat._cursor ch' = first
    /\ Chat._path ch !! 0 = Some first
    /\ ChatEntry.isRoot first st = Ok true.
Proof.
  intros Hinv%reachable_inv Hup. unfold Chat.canMoveUp in Hup.
  inv_bind Hup. apply deref_Ok_inv in Hx.
  destruct (_parent x) as [p|] eqn:Hp; [|discriminate].
  injection Hup as Hne. apply negb_true_iff, Nat.eqb_neq in Hne.
  eapply top_lands_on_parentless_entry; eauto.
Qed.

Lemma top_reaches_parentless_entry_witness :
  exists ch' first,
    Chat.top scenario_below.1 scenario_below.2 = Ok ch'
    /\ Chat._cursor ch' = first
    /\ Chat._path scenario_below.1 !! 0 = Some first
    /\ ChatEntry.isRoot first scenario_below.2 = Ok true.
Proof.
  apply (top_reaches_parentless_entry scenario_below.1 scenario_below.2).
  - apply (reachable_session store_hi_hello [AddDescendant 0 None]);
      reflexivity.
  - reflexivity.
Defined.

(** ** Adding entries and clearing *)

(** X7. [addDescendant] at a cursor whose path can be computed returns; the
    new entry is the current entry and the cursor, its path is the path of
    the former cursor followed by the new entry, and the entry that was
    current is recorded as the previous one. *)
Theorem addDescendant_extends_path
    (prompt : addr) (resp : option addr) (ch : Chat.t) (st : Store)
    (pth : list addr) :
  ChatEntry.path (Chat._cursor ch) st = Ok pth ->
  exists ch' st',
    Chat.addDescendant prompt resp ch st = Ok (ch', st')
    /\ Chat._current ch' = length (entries st)
    /\ Chat._cursor ch' = Chat._current ch'
    /\ Chat._previous ch' = Some (Chat._current ch)
    /\ Chat._path ch' = pth ++ [Chat._current ch']
    /\ ChatEntry.path (Chat._current ch') st' = Ok (Chat._path ch').
Proof.
  intros Hpth.
  destruct (addDescendant_path prompt resp ch st pth Hpth)
    as (ch' & st' & Hadd & Hcur & _ & Hpath).
  exists ch', st'. split; [assumption|].
  pose proof Hadd as H. unfold Chat.addDescendant in H.
  inv_bind H. destruct x as [new st1]. inv_bind H. inv_bind H.
  injection H as <- <-.
  unfold Chat._updateCursorAttrs in Hx1. inv_bind Hx1. inv_bind Hx1.
  injection Hx1 as <-. simpl in *.
  assert (new = length (entries st)) as ->.
  { unfold ChatEntry.__init__ in Hx. inv_bind Hx. injection Hx as <- _.
    reflexivity. }
  rewrite Hpath in Hx0. injection Hx0 as <-. auto.
Qed.

Lemma addDescendant_extends_path_witness :
  exists ch' st',
    Chat.addDescendant 0 None fork_state.1 fork_state.2 = Ok (ch', st')
    /\ Chat._current ch' = length (entries fork_state.2)
    /\ Chat._cursor ch' = Chat._current ch'
    /\ Chat._previous ch' = Some (Chat._current fork_state.1)
    /\ Chat._path ch' = [0; 1] ++ [Chat._current ch']
    /\ ChatEntry.path (Chat._current ch') st' = Ok (Chat._path ch').
Proof.
  apply (addDescendant_extends_path 0 None fork_state.1 fork_state.2 [0; 1]).
  reflexivity.
Defined.

(** X8. What [addSibling] does, in a reachable state: the entry that was
    current stays in the tree with its prompt emptied and its response
    without choices, and becomes the previous entry; the new entry has the
    parent of the cursor (none, if the cursor has none), no children, the
    prompt it was given and the response it was given or the default of
    [addSibling]; it is appended to the children of that parent; and it is
    the current entry and the cursor, so the chat is editable. *)
Theorem addSibling_effect
    (prompt : addr) (resp : option addr) (ch : Chat.t) (st : Store)
    (ch' : Chat.t) (st' : Store) (cur c : EntryObj) :
  reachable ch st ->
  Chat.addSibling prompt resp ch st = Ok (ch', st') ->
  entries st !! Chat._current ch = Some cur ->
  entries st !! Chat._cursor ch = Some c ->
  Chat._current ch' = length (entries st)
  /\ Chat._cursor ch' = Chat._current ch'
  /\ Chat.isEditable ch' = true
  /\ Chat._previous ch' = Some (Chat._current ch)
  /\ entries st' !! Chat._current ch'
     = Some (mkEntry (_parent c) [] prompt
               (default default_response_addSibling resp))
  /\ (forall p pe, _parent c = Some p -> entries st !! p = Some pe ->
        exists pe', entries st' !! p = Some pe'
                    /\ _children pe' = _children pe ++ [Chat._current ch'])
  /\ (exists cur', entries st' !! Chat._current ch = Some cur'
                   /\ _parent cur' = _parent cur
                   /\ _prompt cur' = _prompt cur
                   /\ _response cur' = _response cur)
  /\ (exists m, messages st' !! _prompt cur = Some m /\ Message.content m = "")
  /\ (exists r, responses st' !! _response cur = Some r
                /\ Response.choices r = []).
Proof.
  intros Hinv%reachable_inv H Hcur Hc. unfold Chat.addSibling in H.
  apply bind_Ok_inv in H as (cur0 & Hcur0%deref_Ok_inv & H).
  assert (cur0 = cur) as -> by congruence.
  apply bind_Ok_inv in H as (m0 & Hm0%deref_Ok_inv & H).
  apply bind_Ok_inv in H as (r0 & Hr0 & H). simpl in Hr0.
  apply deref_Ok_inv in Hr0.
  apply bind_Ok_inv in H as (c0 & Hc0 & H). simpl in Hc0.
  apply deref_Ok_inv in Hc0. assert (c0 = c) as -> by congruence.
  apply bind_Ok_inv in H as ([new st1] & Hinit & H).
  apply bind_Ok_inv in H as (pth & Hpth & H).
  apply bind_Ok_inv in H as (ch1 & Hupd & H).
  injection H as <- <-.
  unfold Chat._updateCursorAttrs in Hupd.
  apply bind_Ok_inv in Hupd as (cp & Hcp & Hupd).
  apply bind_Ok_inv in Hupd as (i & Hi & Hupd).
  injection Hupd as <-. simpl.
  assert (forall p, _parent c = Some p -> p < length (entries st)) as Hlt.
  { intros p Hp.
    destruct (live_lookup (entries st) p) as (pe & Hpe);
      [eapply live_parent; eauto using inv_cursor|].
    eapply lookup_lt_Some; eauto. }
  destruct (init_spec _ _ _ _ _ _ Hinit Hlt)
    as (-> & Hrs & Hms & _ & Hnew & Hold). simpl in *.
  split; [reflexivity|]. split; [reflexivity|].
  split; [apply Nat.eqb_refl|]. split; [reflexivity|].
  split; [exact Hnew|]. split; [|split; [|split]].
  - intros p pe Hp Hpe. rewrite (Hold _ _ Hpe).
    rewrite decide_True by assumption. eexists. split; reflexivity.
  - rewrite (Hold _ _ Hcur). eexists. split; [reflexivity|].
    destruct (decide _); simpl; auto.
  - rewrite Hms. exists (Message.set_content "" m0). split; [|reflexivity].
    apply list_lookup_insert_eq. eapply lookup_lt_Some; eauto.
  - rewrite Hrs. exists (Response.set_choices [] r0). split; [|reflexivity].
    apply list_lookup_insert_eq. eapply lookup_lt_Some; eauto.
Qed.

Lemma addSibling_effect_witness :
  exists ch' st',
    Chat.addSibling 0 None fork_state.1 fork_state.2 = Ok (ch', st')
    /\ Chat._current ch' = 5 /\ Chat.isEditable ch' = true
    /\ Chat._previous ch' = Some 4
    /\ entries st' !! 5 = Some (mkEntry (Some 0) [] 0 1).
Proof.
  destruct (addSibling_effect 0 None fork_state.1 fork_state.2
              (Chat.mk 5 0 (Some 4) 5 [0; 5] [0; 5] 1)
              (match Chat.addSibling 0 None fork_state.1 fork_state.2 with
               | Ok s => s.2
               | Raise _ => store_at_import
               end)
              (mkEntry (Some 2) [] 1 2) (mkEntry (Some 0) [2; 3] 3 4))
    as (Hcur & _ & Hed & Hprev & Hnew & _);
    [fork_state_reachable|vm_compute; reflexivity|reflexivity|reflexivity|].
  eexists _, _. split; [vm_compute; reflexivity|].
  repeat split; assumption.
Defined.

(** The store after [clear]: every entry but the root is as it was. *)
Lemma clear_others ch st ch' st' a e :
  Chat.clear ch st = Ok (ch', st') ->
  entries st !! a = Some e -> a <> Chat._root ch ->
  entries st' !! a = Some e.
Proof.
  intros H He Hne. unfold Chat.clear in H. inv_bind H.
  apply deref_Ok_inv in Hx.
  cbv beta iota delta [new_message new_response] in H.
  inv_bind H. destruct x0 as [cur st1]. inv_bind H. inv_bind H.
  injection H as <- <-.
  apply init_spec in Hx0 as (_ & _ & _ & _ & _ & Hold).
  - simpl in Hold. erewrite Hold.
    + rewrite decide_False by congruence. reflexivity.
    + rewrite list_lookup_insert_ne by congruence. assumption.
  - intros p [= <-]. simpl. rewrite length_insert.
    eapply lookup_lt_Some; eauto.
Qed.

(** X9. [clear] detaches the former entries without deleting them: an
    entry that was a child of the root keeps its parent link, but the root
    no longer lists it, so its [index()] raises [ValueError]. *)
Theorem clear_detaches_top_level_entries
    (ch : Chat.t) (st : Store) (ch' : Chat.t) (st' : Store)
    (a : addr) (e : EntryObj) :
  ChatEntry.isRoot (Chat._root ch) st = Ok true ->
  Chat.clear ch st = Ok (ch', st') ->
  entries st !! a = Some e -> _parent e = Some (Chat._root ch) ->
  entries st' !! a = Some e
  /\ ChatEntry.index a st' = Raise ValueError
  /\ exists r, entries st' !! Chat._root ch = Some r
               /\ _children r = [Chat._current ch'] /\ a <> Chat._current ch'.
Proof.
  intros Hroot Hclear He Hp.
  destruct (clear_spec ch st Hroot)
    as (st2 & r & Hclear' & Hr & Hr' & Hn & _). simpl in *.
  rewrite Hclear in Hclear'. injection Hclear' as -> <-. simpl.
  assert (a <> Chat._root ch) as Hne.
  { intros ->. unfold ChatEntry.isRoot in Hroot.
    rewrite (deref_Ok _ _ _ He) in Hroot. simpl in Hroot.
    rewrite Hp in Hroot. discriminate. }
  pose proof (clear_others _ _ _ _ _ _ Hclear He Hne) as He'.
  pose proof (lookup_lt_Some _ _ _ He) as Hlt.
  split; [assumption|]. split.
  - unfold ChatEntry.index. rewrite (deref_Ok _ _ _ He'). simpl. rewrite Hp.
    rewrite (deref_Ok _ _ _ Hr'). simpl.
    destruct (Nat.eqb_spec (length (entries st)) a); [lia|reflexivity].
  - eexists. split; [exact Hr'|]. simpl. split; [reflexivity|lia].
Qed.

Lemma clear_detaches_top_level_entries_witness :
  exists ch' st',
    Chat.clear fork_state.1 fork_state.2 = Ok (ch', st')
    /\ entries st' !! 1 = Some (mkEntry (Some 0) [2; 3] 3 4)
    /\ ChatEntry.index 1 st' = Raise ValueError.
Proof.
  destruct (clear_spec fork_state.1 fork_state.2 eq_refl)
    as (st' & r & Hclear & _).
  destruct (fun Hroot =>
              clear_detaches_top_level_entries fork_state.1 fork_state.2 _ st'
                1 (mkEntry (Some 0) [2; 3] 3 4) Hroot Hclear)
    as (He & Hidx & _); [reflexivity|reflexivity|reflexivity|].
  eexists _, st'. eauto.
Defined.

(** X10. No method but [clear] removes anything from the tree: after any
    other call every entry is still there, with the parent it had and with
    at least the children it had, in their order. *)
Theorem only_clear_removes
    (c : call) (ch : Chat.t) (st : Store) (ch' : Chat.t) (st' : Store) :
  reachable ch st -> c <> Clear -> run c ch st = Ok (ch', st') ->
  forall a e, entries st !! a = Some e ->
    exists e', entries st' !! a = Some e' /\ _parent e' = _parent e
               /\ exists added, _children e' = _children e ++ added.
Proof.
  intros Hinv%reachable_inv Hc H a e He.
  assert (entries st' = entries st ->
          exists e', entries st' !! a = Some e' /\ _parent e' = _parent e
                     /\ exists added, _children e' = _children e ++ added)
    as Hsame.
  { intros ->. exists e. repeat split; auto. exists []. symmetry.
    apply app_nil_r. }
  assert (forall prompt resp parent new,
            (forall p, parent = Some p -> live (entries st) p) ->
            forall s1, entries s1 = entries st ->
            ChatEntry.__init__ prompt resp parent s1 = Ok (new, st') ->
            exists e', entries st' !! a = Some e' /\ _parent e' = _parent e
                       /\ exists added, _children e' = _children e ++ added)
    as Hinit.
  { intros prompt resp parent new Hl s1 Hs1 Hi.
    apply init_spec in Hi as (_ & _ & _ & _ & _ & Hold).
    - rewrite Hs1 in Hold. rewrite (Hold _ _ He). eexists.
      split; [reflexivity|].
      destruct (decide _); simpl; split; auto.
      + eexists. reflexivity.
      + exists []. symmetry. apply app_nil_r.
    - intros p Hp. rewrite Hs1.
      destruct (live_lookup _ _ (Hl p Hp)) as (pe & Hpe).
      eapply lookup_lt_Some; eauto. }
  destruct c; try contradiction; simpl in H;
    try (inv_bind H; injection H as <- <-; apply Hsame; reflexivity).
  - unfold Chat.addSibling in H.
    inv_bind H. inv_bind H. inv_bind H. inv_bind H. simpl in Hx2.
    apply deref_Ok_inv in Hx2.
    inv_bind H. destruct x3 as [new st1]. inv_bind H. inv_bind H.
    injection H as <- <-.
    eapply Hinit; [| |exact Hx3]; [|reflexivity].
    intros p Hp. eapply live_parent; eauto using inv_cursor.
  - unfold Chat.addDescendant in H.
    inv_bind H. destruct x as [new st1]. inv_bind H. inv_bind H.
    injection H as <- <-.
    eapply Hinit; [| |exact Hx]; [|reflexivity].
    intros p [= <-]. eauto using inv_cursor.
  - injection H as <- <-. apply Hsame. reflexivity.
Qed.

Lemma only_clear_removes_witness :
  exists e', entries scenario_sibling.2 !! 1 = Some e'
             /\ _parent e' = Some 0
             /\ exists added, _children e' = [2; 3] ++ added.
Proof.
  apply (fun Hreach Hc Hrun =>
           only_clear_removes (AddDescendant 0 None) fork_state.1 fork_state.2
             scenario_sibling.1 scenario_sibling.2 Hreach Hc Hrun
             1 (mkEntry (Some 0) [2; 3] 3 4));
    [fork_state_reachable|discriminate|reflexivity|reflexivity].
Defined.

(** ** Going up and coming back *)

Lemma NoDup_next (l before after : list addr) x n1 n2 i :
  NoDup l -> l = before ++ x :: n1 :: after ->
  l !! i = Some x -> l !! S i = Some n2 -> n1 = n2.
Proof.
  intros Hnd -> Hi Hsi.
  assert ((before ++ x :: n1 :: after) !! length before = Some x) as Hb.
  { rewrite lookup_app_r by lia. rewrite Nat.sub_diag. reflexivity. }
  assert (i = length before) as -> by (eapply NoDup_lookup; eauto).
  rewrite lookup_app_r in Hsi by lia.
  replace (S (length before) - length before) with 1 in Hsi by lia.
  simpl in Hsi. congruence.
Qed.

(** X11. In every reachable state where the cursor lies on the cached path
    and can move up, [up] followed by [down] returns and brings the cursor
    back to the entry it was on. *)
Theorem up_then_down_returns (ch : Chat.t) (st : Store) :
  reachable ch st ->
  Chat._cursor ch ∈ Chat._path ch ->
  Chat.canMoveUp ch st = Ok true ->
  exists ch1 ch2,
    Chat.up ch st = Ok ch1 /\ Chat.down ch1 st = Ok ch2
    /\ Chat._cursor ch2 = Chat._cursor ch.
Proof.
  intros Hinv%reachable_inv Hin Hup.
  unfold Chat.canMoveUp in Hup.
  apply bind_Ok_inv in Hup as (c & Hc%deref_Ok_inv & Hup).
  destruct (_parent c) as [p|] eqn:Hp; [|discriminate].
  injection Hup as Hne. apply negb_true_iff in Hne.
  assert (live (entries st) p) as Hlp
    by (eapply live_parent; eauto using inv_cursor).
  destruct (move_cursor_Ok ch st p Hinv Hlp) as (ch1 & Hch1 & Hcur1).
  assert (Chat.up ch st = Ok ch1) as Hupc.
  { unfold Chat.up. rewrite (deref_Ok _ _ _ Hc). simpl. rewrite Hp, Hne.
    assumption. }
  pose proof (up_inv _ _ _ Hinv Hupc) as Hinv1.
  apply updateCursorAttrs_fields in Hch1 as (_ & _ & _ & Hpath1).
  simpl in Hpath1.
  pose proof (inv_path _ _ Hinv) as Hpath.
  (* the parent is the entry before the cursor on the path *)
  destruct (list_index_elem _ _ Hin) as [i Hi%list_index_Some].
  destruct i as [|k].
  { destruct (path_first_parentless _ _ _ Hpath) as (first & Hf & Hroot).
    rewrite Hi in Hf. injection Hf as <-. unfold ChatEntry.isRoot in Hroot.
    rewrite (deref_Ok _ _ _ Hc) in Hroot. simpl in Hroot.
    rewrite Hp in Hroot. discriminate. }
  pose proof (lookup_lt_Some _ _ _ Hi) as Hlt.
  destruct (lookup_lt_is_Some_2 (Chat._path ch) k) as [pk Hpk]; [lia|].
  destruct (path_adjacent _ _ _ _ _ _ Hpath Hpk Hi) as (e & He & Hpe).
  assert (pk = p) as -> by congruence.
  (* the cursor is one of the children of its parent *)
  destruct (live_lookup _ _ Hlp) as (pe & Hpent).
  assert (Chat._cursor ch ∈ _children pe) as Hchild.
  { destruct (inv_cursor _ _ Hinv) as [? ? H1 H2|? ? q qe H1 H2 H3 H4 _];
      [congruence|].
    assert (q = p) as -> by congruence.
    assert (qe = pe) as -> by congruence. assumption. }
  assert (entries st !! Chat._cursor ch1 = Some pe) as Hpe1
    by (rewrite Hcur1; assumption).
  exists ch1. destruct (decide (1 < length (_children pe))) as [Hlen|Hlen].
  - destruct (down_on_path ch1 st pe Hinv1 Hpe1) as
      (before & next & after & ch2 & Hdec & _ & Hdown & Hcur2); [|assumption|].
    { rewrite Hcur1, Hpath1. eapply list_elem_of_lookup_2; eauto. }
    exists ch2. repeat split; auto. rewrite Hcur2.
    rewrite Hcur1, Hpath1 in Hdec.
    eapply NoDup_next; [|exact Hdec|exact Hpk|exact Hi].
    eapply path_NoDup; eauto using inv_parents.
  - destruct (_children pe) as [|x [|y l]] eqn:Hch; simpl in Hlen;
      [inversion Hchild| |lia].
    apply list_elem_of_singleton in Hchild.
    destruct (down_off_path ch1 st pe Hinv1 Hpe1)
      as (lc & ch2 & Hlast & Hdown & Hcur2).
    + rewrite Hch. discriminate.
    + rewrite Hch. simpl. intros [_ ?]. lia.
    + exists ch2. repeat split; auto. rewrite Hcur2.
      rewrite Hch in Hlast. simpl in Hlast. congruence.
Qed.

Lemma up_then_down_returns_witness :
  exists ch1 ch2,
    Chat.up scenario_below.1 scenario_below.2 = Ok ch1
    /\ Chat.down ch1 scenario_below.2 = Ok ch2
    /\ Chat._cursor ch2 = 2.
Proof.
  apply (up_then_down_returns scenario_below.1 scenario_below.2).
  - apply (reachable_session store_hi_hello [AddDescendant 0 None]);
      reflexivity.
  - apply list_elem_of_In. vm_compute. auto.
  - reflexivity.
Defined.

(** ** Parsing payloads *)

(** X12. The message [Message.FromApiResponse] returns for a payload it
    accepts: its id and creation time are those of the payload, its content
    is the string under [content] in the [delta] of the first choice (in
    its [message], when the choice has no [delta]), and its role is
    ["assistant"] for a delta, whatever role the delta carries, and the
    string under [role] for a message. *)
Theorem Message_FromApiResponse_fields (r : pydict) (m : Message.t) :
  Message.FromApiResponse r = Ok (Some m) ->
  dict_get r "id" = Some (VStr (Message.id m))
  /\ dict_get r "created" = Some (Message.created m)
  /\ is_int (Message.created m) = true
  /\ exists c rest,
       dict_get r "choices" = Some (VList (VDict c :: rest))
       /\ ((exists delta,
              dict_get c "delta" = Some (VDict delta)
              /\ dict_get delta "content" = Some (VStr (Message.content m))
              /\ Message.role m = "assistant")
           \/ (exists message,
                 dict_get c "delta" = None
                 /\ dict_get c "message" = Some (VDict message)
                 /\ dict_get message "content"
                    = Some (VStr (Message.content m))
                 /\ dict_get message "role" = Some (VStr (Message.role m)))).
Proof.
  unfold Message.FromApiResponse, dict_has, dict_item. intros H.
  destruct (dict_get r "choices") as [vc|] eqn:Hc; [|discriminate].
  destruct (dict_get r "id") as [vi|] eqn:Hi; [|discriminate].
  destruct (dict_get r "created") as [vt|] eqn:Ht; [|discriminate].
  simpl in H.
  destruct (negb (is_str vi) || negb (is_list vc) || negb (is_int vt));
    [discriminate|].
  destruct vc as [| | | | |[|[| | | | | |c|] rest]| |]; try discriminate.
  destruct (dict_get c "delta") as [vd|] eqn:Hd; simpl in H.
  - rewrite andb_false_r in H. simpl in H.
    destruct vd as [| | | | | |delta|]; try discriminate.
    destruct (dict_get delta "content") as [content|] eqn:Hcontent;
      [|discriminate].
    simpl in H. apply bind_Ok_inv in H as (m0 & Hm0 & H).
    unfold Message.__init__ in Hm0.
    destruct content; try discriminate. destruct vi; try discriminate.
    destruct (is_int vt) eqn:Hint; [|discriminate]. injection Hm0 as <-.
    injection H as <-. simpl. repeat split; auto.
    exists c, rest. split; [reflexivity|]. left. eauto.
  - destruct (dict_get c "message") as [vm|] eqn:Hm; [|discriminate].
    simpl in H.
    destruct vm as [| | | | | |message|]; try discriminate.
    destruct (dict_get message "content") as [content|] eqn:Hcontent;
      [|discriminate].
    simpl in H.
    destruct (dict_get message "role") as [role|] eqn:Hrole; [|discriminate].
    simpl in H. apply bind_Ok_inv in H as (m0 & Hm0 & H).
    unfold Message.__init__ in Hm0.
    destruct role; try discriminate.
    destruct content; try discriminate. destruct vi; try discriminate.
    destruct (is_int vt) eqn:Hint; [|discriminate]. injection Hm0 as <-.
    injection H as <-. simpl. repeat split; auto.
    exists c, rest. split; [reflexivity|]. right. exists message. auto.
Qed.

Lemma Message_FromApiResponse_fields_witness :
  dict_get api_response_example "id" = Some (VStr "chatcmpl-1")
  /\ dict_get api_response_example "created" = Some (VInt 1700000000).
Proof.
  destruct (Message_FromApiResponse_fields api_response_example
              (Message.mk "assistant" "hello" "chatcmpl-1" (VInt 1700000000)))
    as (Hid & Hcreated & _); [reflexivity|].
  split; assumption.
Defined.

(** X13. [Message.FromApiResponse] answers [None], without raising, for a
    payload in which [choices], [id] or [created] is missing, [id] is not a
    string, [created] is not an integer, [choices] is not a list or is
    empty, the first choice is not a dict or has neither [message] nor
    [delta], that member is not a dict or has no [content], or a [message]
    has no [role]. *)
Theorem Message_FromApiResponse_None (r : pydict) :
  dict_get r "choices" = None \/ dict_get r "id" = None
  \/ dict_get r "created" = None
  \/ (exists v, dict_get r "id" = Some v /\ is_str v = false)
  \/ (exists v, dict_get r "created" = Some v /\ is_int v = false)
  \/ (exists v, dict_get r "choices" = Some v /\ is_list v = false)
  \/ dict_get r "choices" = Some (VList [])
  \/ (exists v rest, dict_get r "choices" = Some (VList (v :: rest))
      /\ (is_dict v = false
          \/ exists c, v = VDict c
             /\ ((dict_get c "message" = None /\ dict_get c "delta" = None)
                 \/ (exists m, dict_get c (if dict_has c "delta" then "delta"
                                           else "message") = Some m
                     /\ (is_dict m = false
                         \/ exists message, m = VDict message
                            /\ (dict_get message "content" = None
                                \/ (dict_get c "delta" = None
                                    /\ dict_get message "role" = None))))))) ->
  Message.FromApiResponse r = Ok None.
Proof. exact (Message_FromApiResponse_absent r). Qed.

Lemma Message_FromApiResponse_None_witness :
  Message.FromApiResponse api_response_no_created = Ok None.
Proof.
  apply (Message_FromApiResponse_None api_response_no_created).
  right. right. left. reflexivity.
Defined.

(** X14. The only exception [Message.FromApiResponse] raises is
    [TypeError], and it raises it only for a payload that passes every
    check and whose content, or whose role in a [message], is not a
    string. *)
Theorem Message_FromApiResponse_only_TypeError (r : pydict) (e : exn) :
  Message.FromApiResponse r = Raise e ->
  e = TypeError
  /\ exists c rest message,
       dict_get r "choices" = Some (VList (VDict c :: rest))
       /\ dict_get c (if dict_has c "delta" then "delta" else "message")
          = Some (VDict message)
       /\ ((exists v, dict_get message "content" = Some v /\ is_str v = false)
           \/ (dict_get c "delta" = None
               /\ exists v, dict_get message "role" = Some v
                            /\ is_str v = false)).
Proof. exact (Message_FromApiResponse_raises r e). Qed.

Lemma Message_FromApiResponse_only_TypeError_witness :
  TypeError = TypeError
  /\ exists c rest message,
       dict_get api_response_null_content "choices"
       = Some (VList (VDict c :: rest))
       /\ dict_get c (if dict_has c "delta" then "delta" else "message")
          = Some (VDict message)
       /\ ((exists v, dict_get message "content" = Some v /\ is_str v = false)
           \/ (dict_get c "delta" = None
               /\ exists v, dict_get message "role" = Some v
                            /\ is_str v = false)).
Proof.
  apply (Message_FromApiResponse_only_TypeError api_response_null_content
           TypeError).
  reflexivity.
Defined.

(** X15. [Message.FromApiMessage] reads back what [toApiMessage] writes:
    the role and the content survive, the id and the creation time are
    replaced by the defaults. *)
Theorem FromApiMessage_toApiMessage (m : Message.t) :
  Message.FromApiMessage (Message.toApiMessage m)
  = Ok (Some (Message.mk (Message.role m) (Message.content m)
                DEFAULT_ID DEFAULT_TIME)).
Proof. reflexivity. Qed.

(** X16. [Usage.FromApiResponse] reads back what [toApiUsage] writes, for
    a usage whose three counts are integers. *)
Theorem Usage_FromApiResponse_toApiUsage (u : Usage.t) :
  is_int (Usage.prompt_tokens u) = true ->
  is_int (Usage.completion_tokens u) = true ->
  is_int (Usage.total_tokens u) = true ->
  Usage.FromApiResponse (Usage.toApiUsage u) = Ok (Some u).
Proof.
  intros Hp Hc Ht. destruct u as [p c t]. simpl in *.
  unfold Usage.FromApiResponse. simpl. rewrite Hp, Hc, Ht. simpl.
  unfold Usage.__init__. rewrite Hp, Hc, Ht. reflexivity.
Qed.

Lemma Usage_FromApiResponse_toApiUsage_witness :
  Usage.FromApiResponse
    (Usage.toApiUsage (Usage.mk (VInt 5) (VInt 7) (VInt 12)))
  = Ok (Some (Usage.mk (VInt 5) (VInt 7) (VInt 12))).
Proof.
  apply (Usage_FromApiResponse_toApiUsage
           (Usage.mk (VInt 5) (VInt 7) (VInt 12))); reflexivity.
Defined.

Lemma parse_choices_replicate choicesApi r ms :
  Response.parse_choices choicesApi r = Ok (Some ms) ->
  choicesApi = [] /\ ms = []
  \/ exists m, Message.FromApiResponse r = Ok (Some m)
               /\ ms = replicate (length choicesApi) m.
Proof.
  revert ms. induction choicesApi as [|c cs IH]; intros ms H; simpl in H.
  - injection H as <-. auto.
  - right. apply bind_Ok_inv in H as (om & Hm & H).
    destruct om as [m|]; [|discriminate].
    apply bind_Ok_inv in H as (oms & Hms & H).
    destruct oms as [ms'|]; [|discriminate]. injection H as <-.
    exists m. split; [assumption|]. simpl. f_equal.
    destruct (IH _ Hms) as [[-> ->]|(m' & Hm' & ->)]; [reflexivity|].
    congruence.
Qed.

(** X17. A response parsed from a payload has as many choices as the
    payload, and every one of them is the message of the payload's first
    choice: the loop over the choices parses the whole payload each time.
    The other choices of the payload are not read. *)
Theorem parsed_choices_repeat_the_first
    (r : pydict) (resp : Response.t Message.t) (choicesApi : list pyval) :
  Response.FromApiResponse (VDict r) = Ok (Some resp) ->
  dict_get r "choices" = Some (VList choicesApi) ->
  (choicesApi = [] /\ Response.choices resp = [])
  \/ exists m, Message.FromApiResponse r = Ok (Some m)
               /\ Response.choices resp = replicate (length choicesApi) m.
Proof.
  unfold Response.FromApiResponse, Response.parseResponse, dict_has, dict_item.
  intros H Hc. rewrite Hc in H.
  destruct (dict_get r "id") as [vi|]; [|discriminate].
  destruct (dict_get r "created") as [vt|]; [|discriminate].
  destruct (dict_get r "model") as [vm|]; [|discriminate].
  destruct (dict_get r "object") as [vo|]; [|discriminate].
  simpl in H.
  destruct vi; try discriminate. destruct vm; try discriminate.
  destruct vo; try discriminate.
  destruct (is_int vt); [|discriminate]. simpl in H.
  destruct (truthy _ && _); [discriminate|].
  apply bind_Ok_inv in H as (oms & Hms & H).
  destruct oms as [ms|]; [|discriminate].
  apply bind_Ok_inv in H as (us & _ & H). injection H as <-. simpl.
  eauto using parse_choices_replicate.
Qed.

Lemma parsed_choices_repeat_the_first_witness :
  exists resp m,
    Response.FromApiResponse (VDict api_response_two_choices) = Ok (Some resp)
    /\ Message.content m = "first"
    /\ Response.choices resp = [m; m].
Proof.
  destruct (parsed_choices_repeat_the_first api_response_two_choices
              (Response.mk
                 [Message.mk "assistant" "first" "chatcmpl-6" (VInt 1700000000);
                  Message.mk "assistant" "first" "chatcmpl-6" (VInt 1700000000)]
                 (VInt 1700000000) "chatcmpl-6" "gpt-4" "chat.completion"
                 Usage.zero)
              _ eq_refl eq_refl) as [[H _]|(m & Hm & Hch)]; [discriminate H|].
  eexists _, m. split; [reflexivity|].
  vm_compute in Hm. injection Hm as <-. split; [reflexivity|exact Hch].
Defined.

(** X18. The dict [toApiResponse] writes is not one [FromApiResponse]
    accepts, as soon as the response has a choice: a serialised choice is
    the bare [{role, content}] and has neither [message] nor [delta]. *)
Theorem toApiResponse_is_not_parsed_back (resp : Response.t Message.t) :
  Response.choices resp <> [] ->
  Response.FromApiResponse (VDict (Response.toApiResponse resp)) = Ok None.
Proof.
  destruct resp as [[|m ms] created id model object usage]; [contradiction|].
  intros _. unfold Response.FromApiResponse, Response.toApiResponse.
  cbn [Response.choices Response.created Response.id Response.model
       Response.object_ Response.usage].
  destruct (negb (Usage.isDefault usage));
    unfold Response.parseResponse; simpl;
    (destruct (is_int created) eqn:Hint; [|reflexivity]); simpl;
    unfold Message.FromApiResponse; simpl; rewrite Hint; reflexivity.
Qed.

Lemma toApiResponse_is_not_parsed_back_witness :
  Response.FromApiResponse
    (VDict (Response.toApiResponse parsed_response_example)) = Ok None.
Proof.
  apply (toApiResponse_is_not_parsed_back parsed_response_example).
  discriminate.
Defined.

(** ** Streamed completions *)

Lemma string_app_assoc (a b c : string) :
  ((a ++ b) ++ c = a ++ (b ++ c))%string.
Proof. induction a as [|x a IH]; simpl; [reflexivity|]. now rewrite IH. Qed.

Lemma string_app_nil_r (a : string) : (a ++ "")%string = a.
Proof. induction a as [|x a IH]; simpl; [reflexivity|]. now rewrite IH. Qed.

Lemma string_concat_cons (t : string) (ts : list string) :
  String.concat "" (t :: ts) = (t ++ String.concat "" ts)%string.
Proof.
  destruct ts as [|u ts]; simpl; [now rewrite string_app_nil_r|reflexivity].
Qed.

Lemma string_concat_snoc (ts : list string) (t : string) :
  String.concat "" (ts ++ [t]) = (String.concat "" ts ++ t)%string.
Proof.
  induction ts as [|u ts IH].
  - reflexivity.
  - change ((u :: ts) ++ [t]) with (u :: (ts ++ [t])).
    rewrite !string_concat_cons, IH. now rewrite string_app_assoc.
Qed.

(** A chunk that carries a text makes a fragment of it. *)
Lemma PartialMessage_FromApiResponse_chunk d t prev h :
  delta_chunk d t ->
  exists i c,
    is_int c = true
    /\ dict_get d "id" = Some (VStr i)
    /\ dict_get d "created" = Some c
    /\ PartialMessage.FromApiResponse d prev h
       = (let* '(self, h) :=
            PartialMessage.__init__ (VStr "assistant") (VStr t) (VStr i) c
              prev h in
          Ok (Some self, h)).
Proof.
  intros (i & c & choice & rest & delta & Hi & Hc & Hint & Hch & Hd & Ht).
  exists i, c. repeat split; try assumption.
  unfold PartialMessage.FromApiResponse, dict_has, dict_item.
  rewrite Hi, Hc, Hch. simpl. rewrite Hint. simpl.
  rewrite Hd. simpl. rewrite Ht. reflexivity.
Qed.

(** The first fragment of a stream. *)
Lemma stream_inv_first (h : list PartialObj) (m : Message.t) :
  Message.role m = "assistant" ->
  stream_inv (length h) [Message.content m]
    (h ++ [mkPartial m None None (length h) 0]).
Proof.
  intros Hrole. split.
  - rewrite length_app. reflexivity.
  - intros [|j] t Ht; [|discriminate]. injection Ht as <-.
    eexists. split.
    + rewrite Nat.add_0_r. apply list_lookup_middle. reflexivity.
    + simpl. auto.
Qed.

(** One more fragment, linked behind the last one. *)
Lemma stream_inv_snoc (base : nat) (ts : list string) (h : list PartialObj)
    (m : Message.t) (po : PartialObj) :
  stream_inv base ts h -> ts <> [] ->
  Message.role m = "assistant" ->
  h !! (base + length ts - 1) = Some po ->
  stream_inv base (ts ++ [Message.content m])
    (<[base + length ts - 1 := PartialMessage.set_next (Some (length h)) po]>
       (h ++ [mkPartial m (Some (base + length ts - 1)) None (_first po)
                (_idx po + 1)])).
Proof.
  intros [Hlen Hfr] Hne Hrole Hpo.
  assert (0 < length ts) as Hpos by (destruct ts; [contradiction|simpl; lia]).
  split.
  - rewrite length_insert, !length_app. simpl. lia.
  - intros j t Ht. rewrite length_app. simpl.
    destruct (decide (j = length ts)) as [->|Hj].
    + rewrite list_lookup_middle in Ht by reflexivity. injection Ht as <-.
      eexists. split.
      * rewrite list_lookup_insert_ne by lia.
        apply list_lookup_middle. lia.
      * simpl. destruct (Hfr (length ts - 1) (default "" (ts !! (length ts - 1))))
          as (po' & Hpo' & _ & _ & Hfirst & _).
        { destruct (lookup_lt_is_Some_2 ts (length ts - 1)) as [x Hx]; [lia|].
          rewrite Hx. reflexivity. }
        replace (base + (length ts - 1)) with (base + length ts - 1) in Hpo'
          by lia.
        rewrite Hpo in Hpo'. injection Hpo' as <-.
        repeat split; auto.
        destruct (Nat.ltb_spec (S (length ts)) (length ts + 1)); [lia|].
        reflexivity.
    + assert (j < length ts) as Hlt.
      { apply lookup_lt_Some in Ht. rewrite length_app in Ht. simpl in Ht.
        lia. }
      rewrite lookup_app_l in Ht by assumption.
      destruct (Hfr j t Ht) as (po' & Hpo' & Hcontent & Hr & Hfirst & Hnext).
      destruct (decide (j = length ts - 1)) as [->|Hj'].
      * replace (base + (length ts - 1)) with (base + length ts - 1) in *
          by lia.
        rewrite Hpo in Hpo'. injection Hpo' as <-.
        eexists. split.
        { apply list_lookup_insert_eq. rewrite length_app. simpl. lia. }
        simpl. repeat split; auto.
        destruct (Nat.ltb_spec (S (length ts - 1)) (length ts + 1)); [|lia].
        f_equal. lia.
      * exists po'. split.
        { rewrite list_lookup_insert_ne by lia.
          rewrite lookup_app_l by lia. assumption. }
        repeat split; auto. rewrite Hnext.
        destruct (Nat.ltb_spec (S j) (length ts));
          destruct (Nat.ltb_spec (S j) (length ts + 1)); try lia; reflexivity.
Qed.

(** The loop of [toMessage] over the fragments of a stream, from fragment
    [j] on. *)
Lemma concat_from_stream (base : nat) (ts : list string)
    (h : list PartialObj) :
  stream_inv base ts h ->
  forall (n j fuel : nat) (acc : string),
    length ts = j + n -> n <= fuel -> 0 < n ->
    PartialMessage.concat_from fuel h (Some (base + j)) acc
    = Ok (acc ++ String.concat "" (drop j ts))%string.
Proof.
  intros [Hlen Hfr] n. induction n as [|n IH]; intros j fuel acc Hj Hfuel Hn;
    [lia|].
  destruct fuel as [|fuel]; [lia|].
  destruct (lookup_lt_is_Some_2 ts j) as [t Ht]; [lia|].
  destruct (Hfr j t Ht) as (po & Hpo & Hcontent & _ & _ & Hnext).
  simpl. rewrite Hpo, Hnext, Hcontent.
  rewrite (drop_S _ _ _ Ht), string_concat_cons.
  destruct (Nat.ltb_spec (S j) (length ts)) as [Hlt|Hge].
  - rewrite (IH (S j) fuel) by lia. now rewrite string_app_assoc.
  - rewrite drop_ge by lia. destruct fuel; simpl; now rewrite string_app_nil_r.
Qed.

Lemma snoc_keeps_message (h : list PartialObj) (p a : addr)
    (po x po0 : PartialObj) (n : option addr) :
  h !! p = Some po -> h !! a = Some po0 ->
  exists po0',
    (<[p := PartialMessage.set_next n po]> (h ++ [x])) !! a = Some po0'
    /\ pm_message po0' = pm_message po0.
Proof.
  intros Hp Ha. destruct (decide (a = p)) as [->|Hne].
  - exists (PartialMessage.set_next n po). split.
    + apply list_lookup_insert_eq. rewrite length_app.
      apply lookup_lt_Some in Hp. lia.
    + rewrite Hp in Ha. now injection Ha as <-.
  - exists po0. split; [|reflexivity].
    rewrite list_lookup_insert_ne by congruence.
    apply lookup_app_l_Some. assumption.
Qed.

(** The loop of [FromApiResponses] behind the first fragment: every chunk
    that carries a text adds a fragment to the stream. *)
Lemma fold_responses_stream (ds : list pydict) (ts' : list string) :
  Forall2 delta_chunk ds ts' ->
  forall (base : nat) (ts : list string) (h : list PartialObj)
         (po0 : PartialObj),
    stream_inv base ts h -> ts <> [] -> h !! base = Some po0 ->
    exists h' po0',
      PartialMessage.fold_responses ds (Some base)
        (Some (base + length ts - 1)) h = Ok (Some base, h')
      /\ stream_inv base (ts ++ ts') h'
      /\ h' !! base = Some po0'
      /\ pm_message po0' = pm_message po0.
Proof.
  induction 1 as [|d t ds ts' Hd _ IH]; intros base ts h po0 Hinv Hne H0.
  - exists h, po0. rewrite app_nil_r. simpl. auto.
  - destruct (PartialMessage_FromApiResponse_chunk d t
                (Some (base + length ts - 1)) h Hd)
      as (i & c & Hint & _ & _ & Hparse).
    assert (0 < length ts) as Hpos
      by (destruct ts; [contradiction|simpl; lia]).
    destruct (lookup_lt_is_Some_2 ts (length ts - 1)) as [tl Htl]; [lia|].
    destruct Hinv as [Hlen Hfr].
    destruct (Hfr _ _ Htl) as (po & Hpo & _).
    replace (base + (length ts - 1)) with (base + length ts - 1) in Hpo by lia.
    pose (m := Message.mk "assistant" t i c).
    pose (x := mkPartial m (Some (base + length ts - 1)) None (_first po)
                 (_idx po + 1)).
    pose (h1 := <[base + length ts - 1
                  := PartialMessage.set_next (Some (length h)) po]>
                  (h ++ [x])).
    assert (PartialMessage.FromApiResponse d (Some (base + length ts - 1)) h
            = Ok (Some (length h), h1)) as Hstep.
    { rewrite Hparse. unfold PartialMessage.__init__, Message.__init__.
      rewrite Hint. simpl. rewrite Hpo. reflexivity. }
    assert (stream_inv base (ts ++ [t]) h1) as Hinv1.
    { apply (stream_inv_snoc base ts h m po); auto. split; assumption. }
    destruct (snoc_keeps_message h (base + length ts - 1) base po x po0
                (Some (length h)) Hpo H0) as (po1 & H1 & Hm1).
    destruct (IH base (ts ++ [t]) h1 po1 Hinv1) as (h' & po' & Hfold & Hinv' & H' & Hm');
      [destruct ts; discriminate|exact H1|].
    exists h', po'. rewrite <- app_assoc in Hinv'. simpl in Hinv'.
    split; [|split; [exact Hinv'|split; [exact H'|congruence]]].
    cbn [PartialMessage.fold_responses]. rewrite Hstep. simpl.
    assert (h1 !! (base + length ts - 1)
            = Some (PartialMessage.set_next (Some (length h)) po)) as Hl.
    { apply list_lookup_insert_eq. rewrite length_app. simpl. lia. }
    rewrite Hl. simpl.
    change (PartialMessage.set_next (Some (length h))
              (PartialMessage.set_next (Some (length h)) po))
      with (PartialMessage.set_next (Some (length h)) po).
    rewrite (list_insert_id _ _ _ Hl).
    rewrite length_app in Hfold. simpl in Hfold.
    replace (base + (length ts + 1) - 1) with (length h) in Hfold by lia.
    exact Hfold.
Qed.

(** The fragments of a stream of texts, and the message they make. *)
Lemma stream_assembles
    (d : pydict) (ds : list pydict) (t : string) (ts : list string)
    (h : list PartialObj) :
  delta_chunk d t -> Forall2 delta_chunk ds ts ->
  exists h' m,
    PartialMessage.FromApiResponses (d :: ds) h = Ok (Some (length h), h')
    /\ PartialMessage.toMessage (length h) h' = Ok m
    /\ Message.role m = "assistant"
    /\ Message.content m = String.concat "" (t :: ts)
    /\ dict_get d "id" = Some (VStr (Message.id m))
    /\ dict_get d "created" = Some (Message.created m).
Proof.
  intros Hd Hds.
  destruct (PartialMessage_FromApiResponse_chunk d t None h Hd)
    as (i & c & Hint & Hi & Hc & Hparse).
  pose (m0 := Message.mk "assistant" t i c).
  pose (po0 := mkPartial m0 None None (length h) 0).
  assert (PartialMessage.FromApiResponse d None h
          = Ok (Some (length h), h ++ [po0])) as Hstep.
  { rewrite Hparse. unfold PartialMessage.__init__, Message.__init__.
    rewrite Hint. reflexivity. }
  destruct (fold_responses_stream ds ts Hds (length h) [t] (h ++ [po0]) po0)
    as (h' & po' & Hfold & Hinv & H' & Hm').
  { apply (stream_inv_first h m0). reflexivity. }
  { discriminate. }
  { apply list_lookup_middle. reflexivity. }
  simpl in Hfold. replace (length h + 1 - 1) with (length h) in Hfold by lia.
  destruct Hinv as [Hlen Hfr].
  destruct (Hfr 0 t eq_refl) as (po & Hpo & _ & Hrole & Hfirst & _).
  rewrite Nat.add_0_r in Hpo. rewrite H' in Hpo. injection Hpo as <-.
  exists h'.
  exists (Message.mk (Message.role (pm_message po'))
            (String.concat "" (t :: ts))
            (Message.id (pm_message po')) (Message.created (pm_message po'))).
  split; [|split; [|rewrite Hm'; simpl; auto]].
  - unfold PartialMessage.FromApiResponses.
    cbn [PartialMessage.fold_responses]. rewrite Hstep. simpl. exact Hfold.
  - unfold PartialMessage.toMessage. rewrite H', Hfirst.
    pose proof (concat_from_stream (length h) ([t] ++ ts) h'
                  (conj Hlen Hfr) (length ([t] ++ ts)) 0 (length h') ""
                  eq_refl) as Hcat.
    rewrite Nat.add_0_r in Hcat. rewrite Hcat; [reflexivity|lia|simpl; lia].
Qed.

(** X19. A stream every chunk of which carries a text assembles to one
    message: [FromApiResponses] returns the first fragment, allocated at
    the end of the heap it is given, and [toMessage] of it has the role
    ["assistant"], the id and the creation time of the first chunk, and as
    content the texts of all the chunks, concatenated in order. *)
Theorem stream_assembles_to_concatenation
    (d : pydict) (ds : list pydict) (t : string) (ts : list string)
    (h : list PartialObj) :
  delta_chunk d t -> Forall2 delta_chunk ds ts ->
  exists h' m,
    PartialMessage.FromApiResponses (d :: ds) h = Ok (Some (length h), h')
    /\ PartialMessage.toMessage (length h) h' = Ok m
    /\ Message.role m = "assistant"
    /\ Message.content m = String.concat "" (t :: ts)
    /\ dict_get d "id" = Some (VStr (Message.id m))
    /\ dict_get d "created" = Some (Message.created m).
Proof. exact (stream_assembles d ds t ts h). Qed.

Lemma stream_assembles_to_concatenation_witness :
  exists h' m,
    PartialMessage.FromApiResponses [chunk "Hel"; chunk "lo"; chunk "!"] []
    = Ok (Some 0, h')
    /\ PartialMessage.toMessage 0 h' = Ok m
    /\ Message.content m = "Hello!".
Proof.
  destruct (stream_assembles_to_concatenation (chunk "Hel")
              [chunk "lo"; chunk "!"] "Hel" ["lo"; "!"] [])
    as (h' & m & Hp & Hm & _ & Hc & _).
  - unfold delta_chunk. repeat eexists; reflexivity.
  - repeat constructor; unfold delta_chunk; repeat eexists; reflexivity.
  - exists h', m. auto.
Defined.

Lemma fold_responses_stops (pre : list pydict) (ts' : list string)
    (bad : pydict) (post : list pydict) :
  Forall2 delta_chunk pre ts' ->
  (forall prev h0,
     PartialMessage.FromApiResponse bad prev h0 = Ok (None, h0)) ->
  forall (base : nat) (ts : list string) (h : list PartialObj)
         (po0 : PartialObj),
    stream_inv base ts h -> ts <> [] -> h !! base = Some po0 ->
    exists h',
      PartialMessage.fold_responses (pre ++ bad :: post) (Some base)
        (Some (base + length ts - 1)) h = Ok (None, h').
Proof.
  intros Hpre Hbad.
  induction Hpre as [|d t ds ts' Hd _ IH]; intros base ts h po0 Hinv Hne H0.
  - exists h. simpl. rewrite Hbad. reflexivity.
  - destruct (PartialMessage_FromApiResponse_chunk d t
                (Some (base + length ts - 1)) h Hd)
      as (i & c & Hint & _ & _ & Hparse).
    assert (0 < length ts) as Hpos
      by (destruct ts; [contradiction|simpl; lia]).
    destruct (lookup_lt_is_Some_2 ts (length ts - 1)) as [tl Htl]; [lia|].
    destruct Hinv as [Hlen Hfr].
    destruct (Hfr _ _ Htl) as (po & Hpo & _).
    replace (base + (length ts - 1)) with (base + length ts - 1) in Hpo by lia.
    pose (m := Message.mk "assistant" t i c).
    pose (x := mkPartial m (Some (base + length ts - 1)) None (_first po)
                 (_idx po + 1)).
    pose (h1 := <[base + length ts - 1
                  := PartialMessage.set_next (Some (length h)) po]>
                  (h ++ [x])).
    assert (PartialMessage.FromApiResponse d (Some (base + length ts - 1)) h
            = Ok (Some (length h), h1)) as Hstep.
    { rewrite Hparse. unfold PartialMessage.__init__, Message.__init__.
      rewrite Hint. simpl. rewrite Hpo. reflexivity. }
    assert (stream_inv base (ts ++ [t]) h1) as Hinv1.
    { apply (stream_inv_snoc base ts h m po); auto. split; assumption. }
    destruct (snoc_keeps_message h (base + length ts - 1) base po x po0
                (Some (length h)) Hpo H0) as (po1 & H1 & Hm1).
    destruct (IH base (ts ++ [t]) h1 po1 Hinv1) as (h' & Hfold);
      [destruct ts; discriminate|exact H1|].
    exists h'.
    change ((d :: ds) ++ bad :: post) with (d :: (ds ++ bad :: post)).
    cbn [PartialMessage.fold_responses]. rewrite Hstep. simpl.
    assert (h1 !! (base + length ts - 1)
            = Some (PartialMessage.set_next (Some (length h)) po)) as Hl.
    { apply list_lookup_insert_eq. rewrite length_app. simpl. lia. }
    rewrite Hl. simpl.
    change (PartialMessage.set_next (Some (length h))
              (PartialMessage.set_next (Some (length h)) po))
      with (PartialMessage.set_next (Some (length h)) po).
    rewrite (list_insert_id _ _ _ Hl).
    rewrite length_app in Hfold. simpl in Hfold.
    replace (base + (length ts + 1) - 1) with (length h) in Hfold by lia.
    exact Hfold.
Qed.

(** X20. One chunk that [PartialMessage.FromApiResponse] rejects makes
    [FromApiResponses] answer [None] for the whole stream, wherever the
    chunk stands and whatever follows it; the texts received before it are
    dropped.  The chunk that closes a stream, with its empty delta, is such
    a chunk. *)
Theorem rejected_chunk_voids_stream
    (pre : list pydict) (ts : list string) (bad : pydict)
    (post : list pydict) (h : list PartialObj) :
  Forall2 delta_chunk pre ts ->
  (forall prev h0,
     PartialMessage.FromApiResponse bad prev h0 = Ok (None, h0)) ->
  exists h',
    PartialMessage.FromApiResponses (pre ++ bad :: post) h = Ok (None, h').
Proof.
  intros Hpre Hbad. destruct Hpre as [|d t ds ts Hd Hds].
  - exists h. simpl. rewrite Hbad. reflexivity.
  - destruct (PartialMessage_FromApiResponse_chunk d t None h Hd)
      as (i & c & Hint & Hi & Hc & Hparse).
    pose (m0 := Message.mk "assistant" t i c).
    pose (po0 := mkPartial m0 None None (length h) 0).
    assert (PartialMessage.FromApiResponse d None h
            = Ok (Some (length h), h ++ [po0])) as Hstep.
    { rewrite Hparse. unfold PartialMessage.__init__, Message.__init__.
      rewrite Hint. reflexivity. }
    destruct (fold_responses_stops ds ts bad post Hds Hbad (length h) [t]
                (h ++ [po0]) po0) as (h' & Hfold).
    { apply (stream_inv_first h m0). reflexivity. }
    { discriminate. }
    { apply list_lookup_middle. reflexivity. }
    simpl in Hfold. replace (length h + 1 - 1) with (length h) in Hfold by lia.
    exists h'. change ((d :: ds) ++ bad :: post) with (d :: (ds ++ bad :: post)).
    unfold PartialMessage.FromApiResponses.
    cbn [PartialMessage.fold_responses]. rewrite Hstep. simpl. exact Hfold.
Qed.

Lemma rejected_chunk_voids_stream_witness :
  exists h',
    PartialMessage.FromApiResponses
      ([chunk "Hel"; chunk "lo"] ++ api_chunk_closing :: []) [] = Ok (None, h').
Proof.
  apply (rejected_chunk_voids_stream [chunk "Hel"; chunk "lo"] ["Hel"; "lo"]
           api_chunk_closing [] []).
  - repeat constructor; unfold delta_chunk; repeat eexists; reflexivity.
  - intros prev h0. reflexivity.
Defined.

(** X21. [Response.FromApiResponses] on two or more chunks that all carry
    a text, the first of which parses as a response: the result is that
    response with its choices replaced by one message, whose content is the
    concatenation of the texts of all the chunks. *)
Theorem Response_FromApiResponses_assembles
    (d d' : pydict) (ds : list pydict) (t t' : string) (ts : list string)
    (resp : Response.t Message.t) (h : list PartialObj) :
  delta_chunk d t -> delta_chunk d' t' -> Forall2 delta_chunk ds ts ->
  Response.FromApiResponse (VDict d) = Ok (Some resp) ->
  exists h' m,
    Response.FromApiResponses (d :: d' :: ds) h
    = Ok (Some (Response.set_choices [m] resp), h')
    /\ Message.role m = "assistant"
    /\ Message.content m = String.concat "" (t :: t' :: ts)
    /\ Message.id m = Response.id resp
    /\ Message.created m = Response.created resp.
Proof.
  intros Hd Hd' Hds Hresp.
  destruct (stream_assembles d (d' :: ds) t (t' :: ts) h Hd)
    as (h' & m & Hp & Hm & Hrole & Hcontent & Hid & Hcreated);
    [constructor; assumption|].
  exists h', m. split; [|split; [exact Hrole|split; [exact Hcontent|]]].
  - unfold Response.FromApiResponses, messageFromApiResponse.
    rewrite Hresp, Hp. simpl. rewrite Hm. reflexivity.
  - unfold Response.FromApiResponse, Response.parseResponse, dict_has,
      dict_item in Hresp.
    rewrite Hid, Hcreated in Hresp.
    destruct (dict_get d "choices") as [vc|]; [|discriminate].
    destruct (dict_get d "model") as [vm|]; [|discriminate].
    destruct (dict_get d "object") as [vo|]; [|discriminate].
    simpl in Hresp.
    destruct vc; try discriminate. destruct vm; try discriminate.
    destruct vo; try discriminate.
    destruct (is_int (Message.created m)); [|discriminate]. simpl in Hresp.
    destruct (truthy _ && _); [discriminate|].
    apply bind_Ok_inv in Hresp as (oms & Hms & Hresp).
    destruct oms as [ms|]; [|discriminate].
    apply bind_Ok_inv in Hresp as (us & _ & Hresp). injection Hresp as <-.
    simpl. auto.
Qed.

Lemma Response_FromApiResponses_assembles_witness :
  exists h' m,
    Response.FromApiResponses [chunk "Hel"; chunk "lo"; chunk "!"] []
    = Ok (Some (Response.mk [m] (VInt 1700000000) "chatcmpl-4" "gpt-4"
                  "chat.completion.chunk" Usage.zero), h')
    /\ Message.content m = "Hello!".
Proof.
  destruct (Response_FromApiResponses_assembles (chunk "Hel") (chunk "lo")
              [chunk "!"] "Hel" "lo" ["!"]
              (Response.mk
                 [Message.mk "assistant" "Hel" "chatcmpl-4" (VInt 1700000000)]
                 (VInt 1700000000) "chatcmpl-4" "gpt-4"
                 "chat.completion.chunk" Usage.zero) [])
    as (h' & m & Hp & _ & Hc & _).
  - unfold delta_chunk. repeat eexists; reflexivity.
  - unfold delta_chunk. repeat eexists; reflexivity.
  - repeat constructor; unfold delta_chunk; repeat eexists; reflexivity.
  - reflexivity.
  - exists h', m. auto.
Defined.

(** ** Request parameters *)

Section Params.
Import ChatCompletionParams.

Lemma within_not_bad lo hi v :
  bad_float v lo hi = false -> within lo hi v.
Proof.
  destruct v; simpl; try discriminate. intros H.
  apply orb_false_iff in H as [H1 H2]. eexists. eauto.
Qed.

Ltac init_checks H :=
  repeat match type of H with
         | (if ?c then _ else _) = Ok _ =>
             let E := fresh "E" in destruct c eqn:E; [discriminate|]
         end.

Ltac setter H :=
  let s := fresh "s" in
  let Hs := fresh "Hs" in
  apply bind_Ok_inv in H as (s & Hs & H);
  match type of Hs with
  | ?f _ _ = Ok _ => unfold f in Hs
  end;
  init_checks Hs; injection Hs as <-;
  cbn [_apiKey _model _messages _temperature _max_tokens _top_p _n
       _frequency_penalty _presence_penalty _stop _stream _logit_bias
       _user] in H.

(** The constructor, when it returns. *)
Lemma init_checked (a : args) (self : t) :
  __init__ a = Ok self ->
  self = mk (apiKey a) (model a)
           (match messages a with VNone => VList [] | v => v end)
           (temperature a) (max_tokens a) (top_p a) (n a)
           (frequency_penalty a) (presence_penalty a) (stop a) (stream a)
           (logit_bias a) (user a)
  /\ is_str (apiKey a) = true /\ is_str (model a) = true
  /\ is_bool (stream a) = true
  /\ (exists l, _messages self = VList l /\ forallb is_Message l = true)
  /\ controls_in_range self.
Proof.
  intros H. unfold __init__ in H. init_checks H.
  setter H. setter H.
  apply bind_Ok_inv in H as (s & Hs & H). unfold set_messages in Hs.
  destruct (match messages a with VNone => VList [] | v => v end)
    as [| | | | |ml| |] eqn:Hml; try discriminate.
  destruct (negb (forallb is_Message ml)) eqn:Hall; [discriminate|].
  injection Hs as <-.
  cbn [_apiKey _model _messages _temperature _max_tokens _top_p _n
       _frequency_penalty _presence_penalty _stop _stream _logit_bias
       _user] in H.
  do 8 setter H.
  unfold set_user in H. init_checks H. injection H as <-.
  unfold controls_in_range.
  cbn [_apiKey _model _messages _temperature _max_tokens _top_p _n
       _frequency_penalty _presence_penalty _stop _stream _logit_bias _user].
  repeat match goal with
         | E : negb _ = false |- _ => apply negb_false_iff in E
         end.
  split; [reflexivity|]. split; [assumption|]. split; [assumption|].
  split; [assumption|]. split; [eauto|].
  repeat apply conj; intros Ht;
    repeat match goal with
           | E : ?x && _ = false, Ht : ?x = true |- _ =>
               rewrite Ht in E; simpl in E
           end.
  all: try (apply within_not_bad; assumption).
  all: try assumption.
  - now apply negb_false_iff.
  - unfold bad_int in E2. destruct (is_int (n a)); [|discriminate].
    apply orb_false_iff in E2 as [Hlo Hhi].
    apply Z.ltb_ge in Hlo, Hhi. split; [reflexivity|lia].
  - destruct (stop a) as [| | | | |l| |]; try discriminate.
    exists l. simpl in E5. apply Nat.ltb_ge in E5.
    apply negb_false_iff in E18. auto.
  - now apply negb_false_iff.
  - destruct (user a) as [| | | |s| | |]; try discriminate.
    exists s. simpl in E7. apply Nat.ltb_ge in E7. auto.
Qed.

(** X22. What a constructed [ChatCompletionParams] holds: its attributes
    are the arguments, unchanged but for [messages], where [None] became
    the empty list; the key and the model are strings, [stream] is a
    boolean and the messages are a list of [Message] objects; and every
    control that is truthy is of its type and in its range, where a
    bound is a comparison that a NaN passes. *)
Theorem init_holds_checked_arguments (a : args) (self : t) :
  __init__ a = Ok self ->
  self = mk (apiKey a) (model a)
           (match messages a with VNone => VList [] | v => v end)
           (temperature a) (max_tokens a) (top_p a) (n a)
           (frequency_penalty a) (presence_penalty a) (stop a) (stream a)
           (logit_bias a) (user a)
  /\ is_str (apiKey a) = true /\ is_str (model a) = true
  /\ is_bool (stream a) = true
  /\ (exists l, _messages self = VList l /\ forallb is_Message l = true)
  /\ controls_in_range self.
Proof. exact (init_checked a self). Qed.

Lemma init_holds_checked_arguments_witness :
  within SF_zero SF_two (VFloat SF_one).
Proof.
  destruct (init_holds_checked_arguments
              (model_and_temperature (VStr "gpt-4") (VFloat SF_one))
              (mk (VStr "") (VStr "gpt-4") (VList []) (VFloat SF_one) VNone
                 VNone VNone VNone VNone VNone (VBool true) VNone VNone)
              eq_refl) as (_ & _ & _ & _ & _ & Ht & _).
  apply Ht. reflexivity.
Defined.

Lemma dict_get_set (d : pydict) (k k' : string) (v : pyval) :
  dict_get (dict_set d k v) k'
  = if String.eqb k k' then Some v else dict_get d k'.
Proof.
  induction d as [|[k0 v0] d IH]; simpl.
  - reflexivity.
  - destruct (String.eqb k0 k) eqn:E0; simpl.
    + apply String.eqb_eq in E0 as ->.
      destruct (String.eqb k k'); reflexivity.
    + destruct (String.eqb k0 k') eqn:E1.
      * apply String.eqb_eq in E1 as ->.
        rewrite String.eqb_sym, E0. reflexivity.
      * exact IH.
Qed.

Lemma dict_get_put_if (d : pydict) (k k' : string) (v : pyval) :
  dict_get (put_if k v d) k'
  = if String.eqb k k' && truthy v then Some v else dict_get d k'.
Proof.
  unfold put_if. destruct (truthy v).
  - rewrite dict_get_set, andb_true_r. reflexivity.
  - rewrite andb_false_r. reflexivity.
Qed.

(** The shape of the dict [toDict] returns. *)
Lemma toDict_Ok (self : t) (msgs : list Message.t) (parts : list PartialObj)
    (tsets : list TokenSet.t) (d : pydict) (lb : option bias_dict) :
  toDict self msgs parts tsets = Ok (d, lb) ->
  exists l,
    api_messages (_messages self) msgs parts = Ok l
    /\ d = put_if "stream" (_stream self)
            (put_if "stop" (_stop self)
            (put_if "presence_penalty" (_presence_penalty self)
            (put_if "frequency_penalty" (_frequency_penalty self)
            (put_if "n" (_n self)
            (put_if "top_p" (_top_p self)
            (put_if "max_tokens" (_max_tokens self)
            (put_if "temperature" (_temperature self)
            (dict_set (dict_set [] "model" (_model self))
               "messages" (VList l)))))))))
    /\ (if truthy (_logit_bias self)
        then exists lbd, bias_of (_logit_bias self) tsets = Ok lbd
                         /\ lb = Some lbd
        else lb = None).
Proof.
  unfold toDict. intros H. apply bind_Ok_inv in H as (l & Hl & H).
  exists l. split; [assumption|].
  destruct (truthy (_logit_bias self)).
  - apply bind_Ok_inv in H as (lbd & Hlbd & H). injection H as <- <-.
    split; [reflexivity|]. eauto.
  - injection H as <- <-. auto.
Qed.

(** The entries of the dict [toDict] returns, key by key. *)
Lemma toDict_lookup (self : t) (msgs : list Message.t)
    (parts : list PartialObj) (tsets : list TokenSet.t) (d : pydict)
    (lb : option bias_dict) :
  toDict self msgs parts tsets = Ok (d, lb) ->
  let sent := fun v => if truthy v then Some v else None in
  dict_get d "model" = Some (_model self)
  /\ (exists l, api_messages (_messages self) msgs parts = Ok l
                /\ dict_get d "messages" = Some (VList l))
  /\ dict_get d "temperature" = sent (_temperature self)
  /\ dict_get d "max_tokens" = sent (_max_tokens self)
  /\ dict_get d "top_p" = sent (_top_p self)
  /\ dict_get d "n" = sent (_n self)
  /\ dict_get d "frequency_penalty" = sent (_frequency_penalty self)
  /\ dict_get d "presence_penalty" = sent (_presence_penalty self)
  /\ dict_get d "stop" = sent (_stop self)
  /\ dict_get d "stream" = sent (_stream self)
  /\ (lb = None <-> truthy (_logit_bias self) = false)
  /\ (forall k,
        k ∉ ["model"; "messages"; "temperature"; "max_tokens"; "top_p"; "n";
             "frequency_penalty"; "presence_penalty"; "stop"; "stream"] ->
        dict_get d k = None).
Proof.
  intros H sent. apply toDict_Ok in H as (l & Hl & -> & Hlb).
  repeat apply conj.
  1, 3-10: rewrite !dict_get_put_if, ?dict_get_set; reflexivity.
  - exists l. split; [assumption|].
    rewrite !dict_get_put_if, !dict_get_set. reflexivity.
  - destruct (truthy (_logit_bias self)); [|reflexivity].
    destruct Hlb as (lbd & _ & ->). discriminate.
  - destruct (truthy (_logit_bias self)); [discriminate|]. auto.
  - intros k Hk. rewrite !dict_get_put_if, !dict_get_set.
    repeat match goal with
           | |- context [String.eqb ?s k] =>
               let E := fresh "E" in
               destruct (String.eqb s k) eqn:E;
               [apply String.eqb_eq in E; subst k; exfalso; apply Hk;
                apply list_elem_of_In; simpl; auto 20|cbn [andb]]
           end.
    reflexivity.
Qed.

(** X23. The dict [toDict] returns: [model] and [messages] are always in
    it; each of the eight controls is in it, with the value of its
    attribute, exactly when that value is truthy, so that a control set to
    zero, to [False] or to an empty list is left to the default of the API
    just as one that was never set; [logit_bias] likewise; and no other key
    is, [user] and the API key among them. *)
Theorem toDict_entries (self : t) (msgs : list Message.t)
    (parts : list PartialObj) (tsets : list TokenSet.t) (d : pydict)
    (lb : option bias_dict) :
  toDict self msgs parts tsets = Ok (d, lb) ->
  let sent := fun v => if truthy v then Some v else None in
  dict_get d "model" = Some (_model self)
  /\ (exists l, api_messages (_messages self) msgs parts = Ok l
                /\ dict_get d "messages" = Some (VList l))
  /\ dict_get d "temperature" = sent (_temperature self)
  /\ dict_get d "max_tokens" = sent (_max_tokens self)
  /\ dict_get d "top_p" = sent (_top_p self)
  /\ dict_get d "n" = sent (_n self)
  /\ dict_get d "frequency_penalty" = sent (_frequency_penalty self)
  /\ dict_get d "presence_penalty" = sent (_presence_penalty self)
  /\ dict_get d "stop" = sent (_stop self)
  /\ dict_get d "stream" = sent (_stream self)
  /\ (lb = None <-> truthy (_logit_bias self) = false)
  /\ (forall k,
        k ∉ ["model"; "messages"; "temperature"; "max_tokens"; "top_p"; "n";
             "frequency_penalty"; "presence_penalty"; "stop"; "stream"] ->
        dict_get d k = None).
Proof. exact (toDict_lookup self msgs parts tsets d lb). Qed.

Lemma toDict_entries_witness :
  exists d,
    toDict (mk (VStr "") (VStr "gpt-4") (VList []) (VFloat SF_zero) (VInt 0)
              VNone VNone VNone VNone VNone (VBool false) VNone (VStr "me"))
      [] [] [] = Ok (d, None)
    /\ dict_get d "temperature" = None
    /\ dict_get d "stream" = None
    /\ dict_get d "user" = None.
Proof.
  eexists. split; [reflexivity|].
  destruct (toDict_entries
              (mk (VStr "") (VStr "gpt-4") (VList []) (VFloat SF_zero) (VInt 0)
                 VNone VNone VNone VNone VNone (VBool false) VNone (VStr "me"))
              [] [] [] _ None eq_refl)
    as (_ & _ & Ht & _ & _ & _ & _ & _ & _ & Hs & _ & Hk).
  split; [exact Ht|]. split; [exact Hs|]. apply Hk.
  intros Hin. apply list_elem_of_In in Hin. simpl in Hin.
  repeat (destruct Hin as [Hin|Hin]; [discriminate Hin|]). exact Hin.
Defined.

Lemma bias_get_set (lbd : bias_dict) (t : pyval) (b : spec_float) (z : Z) :
  bias_get (bias_set lbd t b) z
  = if (int_val t =? z)%Z then Some b else bias_get lbd z.
Proof.
  induction lbd as [|[k v] lbd IH]; simpl.
  - reflexivity.
  - destruct (Z.eqb_spec (int_val k) (int_val t)) as [E0|E0]; simpl.
    + rewrite E0. destruct (int_val t =? z)%Z; reflexivity.
    + destruct (Z.eqb_spec (int_val k) z) as [E1|E1].
      * destruct (Z.eqb_spec (int_val t) z); [congruence|reflexivity].
      * exact IH.
Qed.

Lemma bias_get_set_all (lbd : bias_dict) (tset : TokenSet.t) (z : Z) :
  bias_get (bias_set_all lbd tset) z
  = if has_token tset z then Some (TokenSet.bias tset) else bias_get lbd z.
Proof.
  unfold bias_set_all, has_token. revert lbd.
  induction (TokenSet.tokens tset) as [|t ts IH]; intros lbd; simpl.
  - reflexivity.
  - rewrite IH, bias_get_set.
    destruct (int_val t =? z)%Z; simpl; [|reflexivity].
    destruct (existsb _ ts); reflexivity.
Qed.

Lemma bias_of_list_resolved (l : list pyval) (tsets : list TokenSet.t)
    (lbd0 lbd : bias_dict) :
  bias_of_list l tsets lbd0 = Ok lbd ->
  exists sets,
    Forall2 (refers_to tsets) l sets
    /\ lbd = fold_left bias_set_all sets lbd0.
Proof.
  revert lbd0. induction l as [|v l IH]; intros lbd0 H; simpl in H.
  - injection H as <-. exists []. split; [constructor|reflexivity].
  - destruct v as [| | | | | | |[] a]; try discriminate.
    destruct (tsets !! a) as [tset|] eqn:Ha; [|discriminate].
    destruct (IH _ H) as (sets & Hsets & ->).
    exists (tset :: sets). split; [|reflexivity].
    constructor; [|assumption]. exists a. auto.
Qed.

Lemma bias_get_fold (sets : list TokenSet.t) (z : Z) (b : spec_float) :
  bias_get (fold_left bias_set_all sets []) z = Some b
  <-> exists pre tset post,
        sets = pre ++ tset :: post
        /\ has_token tset z = true /\ TokenSet.bias tset = b
        /\ Forall (fun tset' => has_token tset' z = false) post.
Proof.
  induction sets as [|tset sets IH] using rev_ind.
  - simpl. split; [discriminate|].
    intros (pre & tset & post & H & _). destruct pre; discriminate.
  - rewrite fold_left_app. simpl. rewrite bias_get_set_all. split.
    + destruct (has_token tset z) eqn:Hz.
      * intros [= <-]. exists sets, tset, []. auto.
      * intros H. apply IH in H as (pre & s0 & post & -> & Hs0 & Hb & Hpost).
        exists pre, s0, (post ++ [tset]). rewrite <- app_assoc.
        repeat split; auto. apply Forall_app. auto.
    + intros (pre & s0 & post & Heq & Hs0 & Hb & Hpost).
      destruct post as [|s1 post _] using rev_ind.
      * apply app_inj_tail in Heq as [-> ->]. rewrite Hs0. congruence.
      * change (pre ++ s0 :: post ++ [s1])
          with (pre ++ (s0 :: post) ++ [s1]) in Heq.
        rewrite app_assoc in Heq. apply app_inj_tail in Heq as [-> ->].
        apply Forall_app in Hpost as [Hpost Hs1].
        apply Forall_inv in Hs1. rewrite Hs1. apply IH.
        exists pre, s0, post. auto.
Qed.

(** X24. The [logit_bias] entry of [toDict] when there is one, over token
    sets as their constructor leaves them: the attribute is a list of token
    sets, and the entry maps a token to the bias of the last set of the
    list that lists it. *)
Theorem toDict_logit_bias_last_set_wins (self : t) (msgs : list Message.t)
    (parts : list PartialObj) (tsets : list TokenSet.t) (d : pydict)
    (lbd : bias_dict) :
  Forall constructed tsets ->
  toDict self msgs parts tsets = Ok (d, Some lbd) ->
  exists l sets,
    _logit_bias self = VList l
    /\ Forall2 (refers_to tsets) l sets
    /\ forall z b,
         bias_get lbd z = Some b
         <-> exists pre tset post,
               sets = pre ++ tset :: post
               /\ has_token tset z = true /\ TokenSet.bias tset = b
               /\ Forall (fun tset' => has_token tset' z = false) post.
Proof.
  intros _ H. apply toDict_Ok in H as (_ & _ & _ & Hlb).
  destruct (truthy (_logit_bias self)); [|discriminate].
  destruct Hlb as (lbd' & Hbias & [= <-]).
  unfold bias_of in Hbias.
  destruct (_logit_bias self) as [| | | | |l| |]; try discriminate.
  apply bias_of_list_resolved in Hbias as (sets & Hsets & ->).
  exists l, sets. split; [reflexivity|]. split; [assumption|].
  intros z b. apply bias_get_fold.
Qed.

Lemma toDict_logit_bias_last_set_wins_witness :
  exists d lbd,
    toDict (with_logit_bias (VList [VObj CTokenSet 0; VObj CTokenSet 1])
              (mk (VStr "") (VStr "gpt-4") (VList []) VNone VNone VNone VNone
                 VNone VNone VNone (VBool true) VNone VNone))
      [] [] [TokenSet.mk [VInt 5; VInt 7] SF_one;
             TokenSet.mk [VInt 7] SF_two] = Ok (d, Some lbd)
    /\ bias_get lbd 5 = Some SF_one
    /\ bias_get lbd 7 = Some SF_two.
Proof.
  destruct (toDict_logit_bias_last_set_wins
              (with_logit_bias (VList [VObj CTokenSet 0; VObj CTokenSet 1])
                 (mk (VStr "") (VStr "gpt-4") (VList []) VNone VNone VNone
                    VNone VNone VNone VNone (VBool true) VNone VNone))
              [] [] [TokenSet.mk [VInt 5; VInt 7] SF_one;
                     TokenSet.mk [VInt 7] SF_two]
              [("model", VStr "gpt-4"); ("messages", VList []);
               ("stream", VBool true)]
              [(VInt 5, SF_one); (VInt 7, SF_two)])
    as (l & sets & _ & _ & _).
  - repeat constructor.
    + exists (VList [VInt 5; VInt 7]), (VFloat SF_one). reflexivity.
    + exists (VList [VInt 7]), (VFloat SF_two). reflexivity.
  - reflexivity.
  - eexists _, _. split; [reflexivity|]. split; reflexivity.
Defined.

Lemma bias_of_list_AttributeError (l : list pyval) (tsets : list TokenSet.t)
    (lbd : bias_dict) :
  Exists (fun v => is_TokenSet v = false) l ->
  Forall (fun v => forall a, v = VObj CTokenSet a -> is_Some (tsets !! a)) l ->
  bias_of_list l tsets lbd = Raise AttributeError.
Proof.
  intros Hex. revert lbd.
  induction Hex as [v l Hv|v l Hex IH]; intros lbd Hlive.
  - destruct v as [| | | | | | |[] a]; try reflexivity. discriminate.
  - apply Forall_cons in Hlive as [Hv Hlive].
    destruct v as [| | | | | | |[] a]; try reflexivity.
    simpl. destruct (Hv a eq_refl) as [tset ->]. apply IH. assumption.
Qed.

(** X25. The constructor takes any list as [logit_bias], the setter only a
    list of token sets.  An object constructed with a list that holds
    something else is accepted, [setLogitBias] raises [TypeError] for the
    same list, and [toDict] of the object raises [AttributeError] once the
    messages are converted. *)
Theorem logit_bias_elements_checked_by_setter_only
    (a : args) (self : t) (l : list pyval) (msgs : list Message.t)
    (parts : list PartialObj) (tsets : list TokenSet.t)
    (apiMessages : list pyval) :
  __init__ a = Ok self ->
  logit_bias a = VList l ->
  Exists (fun v => is_TokenSet v = false) l ->
  Forall (fun v => forall a, v = VObj CTokenSet a -> is_Some (tsets !! a)) l ->
  api_messages (_messages self) msgs parts = Ok apiMessages ->
  setLogitBias (VList l) self = Raise TypeError
  /\ toDict self msgs parts tsets = Raise AttributeError.
Proof.
  intros Hinit Hl Hex Hlive Hmsgs.
  assert (truthy (VList l) = true) as Htruthy
    by (destruct Hex; reflexivity).
  assert (forallb is_TokenSet l = false) as Hall.
  { apply not_true_is_false. intros Hall. rewrite forallb_forall in Hall.
    apply Exists_exists in Hex as (v & Hv & Hfalse).
    apply list_elem_of_In in Hv. rewrite (Hall v Hv) in Hfalse.
    discriminate. }
  split.
  - unfold setLogitBias. rewrite Htruthy, Hall. reflexivity.
  - apply init_checked in Hinit as (-> & _).
    unfold toDict. cbn [_messages _logit_bias] in *.
    rewrite Hmsgs, Hl, Htruthy. simpl.
    rewrite bias_of_list_AttributeError by assumption. reflexivity.
Qed.

Lemma logit_bias_elements_checked_by_setter_only_witness :
  setLogitBias (VList [VInt 42])
    (mk (VStr "") (VStr "gpt-4") (VList []) VNone VNone VNone VNone VNone
       VNone VNone (VBool true) (VList [VInt 42]) VNone) = Raise TypeError
  /\ toDict
       (mk (VStr "") (VStr "gpt-4") (VList []) VNone VNone VNone VNone VNone
          VNone VNone (VBool true) (VList [VInt 42]) VNone)
       [] [] [] = Raise AttributeError.
Proof.
  apply (logit_bias_elements_checked_by_setter_only
           (mkArgs (VStr "gpt-4") VNone VNone VNone VNone VNone VNone VNone
              VNone (VBool true) (VList [VInt 42]) VNone (VStr ""))
           (mk (VStr "") (VStr "gpt-4") (VList []) VNone VNone VNone VNone
              VNone VNone VNone (VBool true) (VList [VInt 42]) VNone)
           [VInt 42] [] [] [] []).
  - vm_compute. reflexivity.
  - reflexivity.
  - constructor. reflexivity.
  - repeat constructor. intros a Ha. discriminate Ha.
  - reflexivity.
Defined.

Section CopyProperties.
Context {H : Type}.
Variable copy_method : pyval -> H -> result (pyval * H).

(** The call of the constructor at the end of [copy]. *)
Lemma copy_Ok (self self' : t) (h h' : H) :
  copy copy_method self h = Ok (self', h') ->
  exists messages logit_bias,
    __init__ (mkArgs (_model self) messages (_temperature self)
                (_max_tokens self) (_top_p self) (_n self)
                (_frequency_penalty self) (_presence_penalty self)
                (_stop self) (_stream self) logit_bias (_user self)
                (_apiKey self)) = Ok self'
    /\ (truthy (_messages self) = false -> messages = VNone)
    /\ (truthy (_logit_bias self) = false -> logit_bias = VNone)
    /\ (truthy (_logit_bias self) = true ->
        is_list (_logit_bias self) = true -> logit_bias = _logit_bias self).
Proof.
  unfold copy. intros Hc.
  apply bind_Ok_inv in Hc as ([messages h1] & Hm & Hc).
  apply bind_Ok_inv in Hc as ([logit_bias h2] & Hl & Hc).
  apply bind_Ok_inv in Hc as (s & Hs & Hc). injection Hc as <- <-.
  exists messages, logit_bias. split; [exact Hs|]. repeat split.
  - intros Hf. rewrite Hf in Hm. now injection Hm as <- _.
  - intros Hf. rewrite Hf in Hl. now injection Hl as <- _.
  - intros Ht Hlist. rewrite Ht in Hl.
    destruct (_logit_bias self); try discriminate.
    simpl in Hl. now injection Hl as <- _.
Qed.

(** X26. [copy] builds the copy with the constructor.  When it returns,
    every control of the original was in its range, the copy has the
    model, the key, the controls, [stream] and [user] of the original, and
    an original without messages or without a logit bias, the empty list
    included, gives a copy with the empty list of messages and with [None]
    as logit bias. *)
Theorem copy_holds_checked_controls (self self' : t) (h h' : H) :
  copy copy_method self h = Ok (self', h') ->
  controls_in_range self'
  /\ _apiKey self' = _apiKey self /\ _model self' = _model self
  /\ _temperature self' = _temperature self
  /\ _max_tokens self' = _max_tokens self
  /\ _top_p self' = _top_p self /\ _n self' = _n self
  /\ _frequency_penalty self' = _frequency_penalty self
  /\ _presence_penalty self' = _presence_penalty self
  /\ _stop self' = _stop self /\ _stream self' = _stream self
  /\ _user self' = _user self
  /\ (truthy (_messages self) = false -> _messages self' = VList [])
  /\ (truthy (_logit_bias self) = false -> _logit_bias self' = VNone).
Proof.
  intros Hc. apply copy_Ok in Hc as (ms & lb & Hinit & Hms & Hlb & _).
  apply init_checked in Hinit as (Hself & _ & _ & _ & _ & Hrange).
  split; [exact Hrange|]. rewrite Hself.
  cbn [_apiKey _model _messages _temperature _max_tokens _top_p _n
       _frequency_penalty _presence_penalty _stop _stream _logit_bias _user
       apiKey model messages temperature max_tokens top_p n
       frequency_penalty presence_penalty stop stream logit_bias user].
  repeat split; try reflexivity.
  - intros Hf. rewrite (Hms Hf). reflexivity.
  - intros Hf. exact (Hlb Hf).
Qed.

(** X27. A control that a setter put outside its range makes [copy] raise:
    for an object that has no messages and no logit bias, and whose other
    controls the constructor accepts, a temperature below 0 or above 2
    taken by the setter makes [copy] raise [ValueError]. *)
Theorem copy_raises_after_setter (self0 self : t) (v : pyval) (h : H) :
  set_temperature v self0 = Ok self ->
  outside SF_zero SF_two v ->
  truthy (_messages self0) = false ->
  truthy (_logit_bias self0) = false ->
  copy copy_method self h = Raise ValueError.
Proof.
  intros Hset Hout Hm Hl.
  pose proof (outside_bad SF_zero SF_two v (or_introl eq_refl)
                (or_intror eq_refl) Hout) as Hbad.
  unfold set_temperature in Hset.
  destruct (truthy v && negb (is_float v)); [discriminate|].
  injection Hset as <-. unfold copy.
  cbn [_apiKey _model _messages _temperature _max_tokens _top_p _n
       _frequency_penalty _presence_penalty _stop _stream _logit_bias _user].
  rewrite Hm, Hl. simpl. unfold __init__.
  cbn [apiKey model messages temperature max_tokens top_p n
       frequency_penalty presence_penalty stop stream logit_bias user].
  rewrite Hbad. reflexivity.
Qed.

End CopyProperties.

Lemma copy_holds_checked_controls_witness :
  controls_in_range
    (mk (VStr "") (VStr "gpt-4") (VList []) (VFloat SF_one) VNone VNone VNone
       VNone VNone VNone (VBool true) VNone VNone).
Proof.
  destruct (copy_holds_checked_controls (fun v (h : unit) => Ok (v, h))
              (mk (VStr "") (VStr "gpt-4") (VList []) (VFloat SF_one) VNone
                 VNone VNone VNone VNone VNone (VBool true) (VList []) VNone)
              (mk (VStr "") (VStr "gpt-4") (VList []) (VFloat SF_one) VNone
                 VNone VNone VNone VNone VNone (VBool true) VNone VNone)
              tt tt eq_refl) as [Hrange _].
  exact Hrange.
Defined.

Lemma copy_raises_after_setter_witness :
  exists self,
    set_temperature (VFloat SF_three)
      (mk (VStr "") (VStr "gpt-4") (VList []) VNone VNone VNone VNone VNone
         VNone VNone (VBool true) VNone VNone) = Ok self
    /\ copy (fun v (h : unit) => Ok (v, h)) self tt = Raise ValueError.
Proof.
  eexists. split; [reflexivity|].
  apply (copy_raises_after_setter (fun v (h : unit) => Ok (v, h))
           (mk (VStr "") (VStr "gpt-4") (VList []) VNone VNone VNone VNone
              VNone VNone VNone (VBool true) VNone VNone) _
           (VFloat SF_three) tt).
  - reflexivity.
  - exists SF_three. split; [reflexivity|]. right. reflexivity.
  - reflexivity.
  - reflexivity.
Defined.

(** X29. A control that [toDict] sends is one the object has: for each of
    the seven controls with a [has] method, and for the logit bias, an
    entry in the dict means that the method answers [True]; and the
    temperature that is sent is the one the getter returns.  The converse
    fails for a control that is set to a falsy value. *)
Theorem sent_controls_are_set (self : t) (msgs : list Message.t)
    (parts : list PartialObj) (tsets : list TokenSet.t) (d : pydict)
    (lb : option bias_dict) :
  toDict self msgs parts tsets = Ok (d, lb) ->
  (is_Some (dict_get d "temperature") ->
   hasTemperature self = true
   /\ dict_get d "temperature" = Some (temperature_getter self))
  /\ (is_Some (dict_get d "max_tokens") -> hasMaxTokens self = true)
  /\ (is_Some (dict_get d "top_p") -> hasTopP self = true)
  /\ (is_Some (dict_get d "n") -> hasN self = true)
  /\ (is_Some (dict_get d "frequency_penalty") ->
      hasFrequencyPenalty self = true)
  /\ (is_Some (dict_get d "presence_penalty") ->
      hasPresencePenalty self = true)
  /\ (is_Some (dict_get d "stop") -> hasStop self = true)
  /\ (is_Some lb -> hasLogitBias self = true).
Proof.
  intros H.
  destruct (toDict_lookup _ _ _ _ _ _ H)
    as (_ & _ & Ht & Hm & Hp & Hn & Hf & Hpp & Hs & _ & Hlb & _).
  unfold hasTemperature, hasMaxTokens, hasTopP, hasN, hasFrequencyPenalty,
    hasPresencePenalty, hasStop, hasLogitBias, temperature_getter.
  rewrite Ht, Hm, Hp, Hn, Hf, Hpp, Hs.
  repeat apply conj.
  1-7: intros [v Hv];
       match type of Hv with
       | context [truthy ?x] =>
           destruct (truthy x) eqn:Ht'; [|discriminate Hv];
           destruct x; try discriminate Ht'; auto
       end.
  - intros [lbd ->]. destruct (_logit_bias self); try reflexivity.
    destruct Hlb as [_ Hlb]. discriminate (Hlb eq_refl).
Qed.

Lemma sent_controls_are_set_witness :
  hasTemperature
    (mk (VStr "") (VStr "gpt-4") (VList []) (VFloat SF_one) VNone VNone VNone
       VNone VNone VNone (VBool true) VNone VNone) = true.
Proof.
  destruct (sent_controls_are_set
              (mk (VStr "") (VStr "gpt-4") (VList []) (VFloat SF_one) VNone
                 VNone VNone VNone VNone VNone (VBool true) VNone VNone)
              [] [] [] _ None eq_refl) as (Ht & _).
  apply Ht. eexists. reflexivity.
Defined.

Lemma bias_of_list_Ok (l : list pyval) (tsets : list TokenSet.t)
    (lbd : bias_dict) :
  forallb is_TokenSet l = true ->
  Forall (fun v => forall a, v = VObj CTokenSet a -> is_Some (tsets !! a)) l ->
  exists lbd', bias_of_list l tsets lbd = Ok lbd'.
Proof.
  revert lbd. induction l as [|v l IH]; intros lbd Hall Hlive; simpl.
  - eauto.
  - simpl in Hall. apply andb_true_iff in Hall as [Hv Hall].
    apply Forall_cons in Hlive as [Hva Hlive].
    destruct v as [| | | | | | |[] a]; try discriminate Hv.
    destruct (Hva a eq_refl) as [tset ->]. apply IH; assumption.
Qed.

(** X30. A logit bias that [setLogitBias] took does not make [toDict]
    raise: once the messages are converted, [toDict] returns, with a
    [logit_bias] entry unless the list is empty. *)
Theorem setLogitBias_makes_toDict_return
    (self self' : t) (l : list pyval) (msgs : list Message.t)
    (parts : list PartialObj) (tsets : list TokenSet.t)
    (apiMessages : list pyval) :
  setLogitBias (VList l) self = Ok self' ->
  Forall (fun v => forall a, v = VObj CTokenSet a -> is_Some (tsets !! a)) l ->
  api_messages (_messages self) msgs parts = Ok apiMessages ->
  exists d lb,
    toDict self' msgs parts tsets = Ok (d, lb) /\ (lb = None <-> l = []).
Proof.
  unfold setLogitBias. intros Hset Hlive Hmsgs. destruct l as [|v l].
  - injection Hset as <-. unfold toDict. simpl. rewrite Hmsgs. simpl.
    eexists _, None. split; [reflexivity|]. split; reflexivity.
  - cbn [truthy] in Hset.
    destruct (forallb is_TokenSet (v :: l)) eqn:Hall; [|discriminate].
    injection Hset as <-. unfold toDict. simpl. rewrite Hmsgs. simpl.
    destruct (bias_of_list_Ok (v :: l) tsets [] Hall Hlive) as [lbd Hlbd].
    simpl in Hlbd. rewrite Hlbd. simpl.
    eexists _, (Some lbd). split; [reflexivity|]. split; discriminate.
Qed.

Lemma setLogitBias_makes_toDict_return_witness :
  exists d lb,
    toDict
      (with_logit_bias (VList [VObj CTokenSet 0])
         (mk (VStr "") (VStr "gpt-4") (VList []) VNone VNone VNone VNone VNone
            VNone VNone (VBool true) VNone VNone))
      [] [] [TokenSet.mk [VInt 5] SF_one] = Ok (d, lb)
    /\ (lb = None <-> [VObj CTokenSet 0] = []).
Proof.
  apply (setLogitBias_makes_toDict_return
           (mk (VStr "") (VStr "gpt-4") (VList []) VNone VNone VNone VNone
              VNone VNone VNone (VBool true) VNone VNone)
           _ [VObj CTokenSet 0] [] [] [TokenSet.mk [VInt 5] SF_one] []).
  - reflexivity.
  - repeat constructor. intros a [= <-]. eexists. reflexivity.
  - reflexivity.
Defined.

End Params.

(** ** Model listings *)

Lemma model_ids_Ok (l vs : list pyval) :
  model_ids l = Ok vs ->
  Forall2 (fun m v => exists dm, m = VDict dm /\ dict_get dm "id" = Some v)
    l vs.
Proof.
  revert vs. induction l as [|m l IH]; intros vs H; simpl in H.
  - injection H as <-. constructor.
  - apply bind_Ok_inv in H as (i & Hi & H).
    apply bind_Ok_inv in H as (ids & Hids & H). injection H as <-.
    constructor; [|auto].
    destruct m; try discriminate. unfold model_id, dict_item in Hi.
    destruct (dict_get d "id") eqn:Hd; [|discriminate]. injection Hi as <-.
    eauto.
Qed.

Lemma filter_models_Ok (ps : list string) (vs ms : list pyval) :
  ps <> [] ->
  filter_models vs ps = Ok ms ->
  exists ids,
    vs = map VStr ids
    /\ ms = map VStr
              (List.filter (fun i => existsb (fun p => String.prefix p i) ps)
                 ids).
Proof.
  intros Hps. revert ms. induction vs as [|v vs IH]; intros ms H; simpl in H.
  - injection H as <-. exists []. auto.
  - apply bind_Ok_inv in H as (keep & Hkeep & H).
    apply bind_Ok_inv in H as (rest & Hrest & H). injection H as <-.
    destruct (IH _ Hrest) as (ids & -> & ->).
    destruct v as [| | | |s| | |];
      try (destruct ps; [contradiction|discriminate]).
    injection Hkeep as <-. exists (s :: ids). split; [reflexivity|].
    simpl. destruct (existsb _ ps); reflexivity.
Qed.

(** X28. [getModels] with a non-empty list of prefixes, on a listing whose
    [data] is a list: when it returns, every element of the listing is a
    dict whose [id] is a string, and the result is those ids, in the order
    of the listing, that start with one of the prefixes. *)
Theorem getModels_keeps_prefixed_ids
    (ps : list string) (d : pydict) (l ms : list pyval) :
  ps <> [] ->
  dict_get d "data" = Some (VList l) ->
  getModels (Some ps) (Ok (VDict d)) = Ok ms ->
  exists ids,
    Forall2 (fun m i => exists dm, m = VDict dm
                                   /\ dict_get dm "id" = Some (VStr i))
      l ids
    /\ ms = map VStr
              (List.filter (fun i => existsb (fun p => String.prefix p i) ps)
                 ids).
Proof.
  intros Hps Hd H. unfold getModels, dict_item in H. simpl in H.
  rewrite Hd in H. simpl in H.
  apply bind_Ok_inv in H as (vs & Hvs & H).
  apply model_ids_Ok in Hvs.
  assert (filter_models vs ps = Ok ms) as Hf
    by (destruct ps; [contradiction|exact H]).
  apply filter_models_Ok in Hf as (ids & -> & ->); [|assumption].
  exists ids. split; [|reflexivity].
  clear -Hvs. revert l Hvs. induction ids as [|i ids IH]; intros l Hvs.
  - inversion Hvs. constructor.
  - inversion Hvs as [|m v l' vs' Hm Hrest]; subst. constructor; auto.
Qed.

Lemma getModels_keeps_prefixed_ids_witness :
  getModels None (Ok engine_list_example)
  = Ok [VStr "gpt-4"; VStr "gpt-3.5-turbo"]
  /\ exists ids,
       [VStr "gpt-4"; VStr "gpt-3.5-turbo"]
       = map VStr
           (List.filter (fun i => existsb (fun p => String.prefix p i) ["gpt"])
              ids).
Proof.
  split; [reflexivity|].
  destruct (getModels_keeps_prefixed_ids ["gpt"]
              [("object", VStr "list");
               ("data",
                VList [VDict [("id", VStr "gpt-4"); ("object", VStr "engine")];
                       VDict [("id", VStr "davinci");
                              ("object", VStr "engine")];
                       VDict [("id", VStr "gpt-3.5-turbo");
                              ("object", VStr "engine")]])]
              [VDict [("id", VStr "gpt-4"); ("object", VStr "engine")];
               VDict [("id", VStr "davinci"); ("object", VStr "engine")];
               VDict [("id", VStr "gpt-3.5-turbo"); ("object", VStr "engine")]]
              [VStr "gpt-4"; VStr "gpt-3.5-turbo"])
    as (ids & _ & Hms).
  - discriminate.
  - reflexivity.
  - reflexivity.
  - exists ids. exact Hms.
Defined.
